(** * The sketch text formats of [parser.hh], embedded and checked

    [parser.hh] holds three classes: [ParserBase] (character classes and the
    fixed-width numeric decoders), [RawFormat] (the flat coordinate stream)
    and [SketchFormat] (tokenizer, element grammar and scene assembly).
    Each C++ function is transcribed below under its own name; the theorems
    at the end of the file are stated about these transcriptions. *)

From Stdlib Require Import ZArith List String Ascii Bool Lia Arith Znumtheory.
From Stdlib Require Import Floats.SpecFloat.
Import ListNotations.
Local Open Scope string_scope.
Local Open Scope Z_scope.

(** ** Outcomes of a run

    A C++ call either returns, or stops the program: a failed [assert]
    aborts, an index or position outside its container is the other way a
    run of this code can go wrong ([std::out_of_range] from [substr], or an
    access the language leaves undefined).  [OutOfFuel] belongs to the model
    only: loops whose trip count is not a syntactic bound recurse on a
    counter, and [sketch_parse_never_out_of_fuel] and [raw_parse_never_out_of_fuel]
    show that the counter handed to them is never used up. *)

Inductive Fault : Type :=
| AssertionFailed
| OutOfRange
| OutOfFuel.

Inductive run (A : Type) : Type :=
| Ret (a : A)
| Abort (f : Fault).
Arguments Ret {A} a.
Arguments Abort {A} f.

Definition bind {A B : Type} (m : run A) (k : A -> run B) : run B :=
  match m with
  | Ret a => k a
  | Abort f => Abort f
  end.

Notation "x <- m ;; k" := (bind m (fun x => k))
  (at level 61, m at next level, right associativity).
Notation "'assert!' b ;; k" := (if b then k else Abort AssertionFailed)
  (at level 61, b at next level, right associativity).

(** A run that returns or fails an assertion: it reads nothing outside
    its data. *)
Definition inBounds {A : Type} (r : run A) : Prop :=
  (exists a, r = Ret a) \/ r = Abort AssertionFailed.

(** ** Machine integers

    The integer types the decoders are instantiated at.  A value of a type
    is a [Z] inside the type's range; [wrap] is the conversion to the type
    (reduction modulo [2^bits], read as two's complement for signed types).
    Signed arithmetic that leaves the range is written with the same
    wrap-around. *)

Inductive IntType : Type :=
| int8_t | int16_t | int32_t | int64_t
| uint8_t | uint16_t | uint32_t | uint64_t.

Definition bits (T : IntType) : Z :=
  match T with
  | int8_t | uint8_t => 8
  | int16_t | uint16_t => 16
  | int32_t | uint32_t => 32
  | int64_t | uint64_t => 64
  end.

Definition is_signed (T : IntType) : bool :=
  match T with
  | int8_t | int16_t | int32_t | int64_t => true
  | _ => false
  end.

Definition wrap (T : IntType) (z : Z) : Z :=
  if is_signed T
  then (z + 2 ^ (bits T - 1)) mod 2 ^ bits T - 2 ^ (bits T - 1)
  else z mod 2 ^ bits T.

(** Integer promotion: an operand of a type narrower than [int] is converted
    to [int]. *)
Definition promote (T : IntType) : IntType :=
  if bits T <? 32 then int32_t else T.

(** The usual arithmetic conversions: the type a binary operator works in. *)
Definition common (A B : IntType) : IntType :=
  let A := promote A in
  let B := promote B in
  if Bool.eqb (is_signed A) (is_signed B)
  then (if bits A <? bits B then B else A)
  else
    let s := if is_signed A then A else B in
    let u := if is_signed A then B else A in
    if bits s <=? bits u then u else s.

Definition arith (op : Z -> Z -> Z) (A : IntType) (a : Z) (B : IntType) (b : Z) : Z :=
  let C := common A B in wrap C (op (wrap C a) (wrap C b)).

Definition geq (A : IntType) (a : Z) (B : IntType) (b : Z) : bool :=
  let C := common A B in wrap C b <=? wrap C a.

(** ** ParserBase *)

Module ParserBase.

Definition code (c : ascii) : Z := Z.of_N (N_of_ascii c).

Definition isNewline (c : ascii) : bool :=
  Ascii.eqb c "010" || Ascii.eqb c "013".
Definition isWhitespace (c : ascii) : bool :=
  Ascii.eqb c " " || Ascii.eqb c "009" || Ascii.eqb c "010" || Ascii.eqb c "013".
Definition isLowercase (c : ascii) : bool := (code "a" <=? code c) && (code c <=? code "z").
Definition isUppercase (c : ascii) : bool := (code "A" <=? code c) && (code c <=? code "Z").
Definition isBase10 (c : ascii) : bool := (code "0" <=? code c) && (code c <=? code "9").
Definition isBase36 (c : ascii) : bool := isBase10 c || isLowercase c || isUppercase c.

(** [isAny(c, "...")]: membership of a character in a string. *)
Fixpoint isAny (c : ascii) (s : string) : bool :=
  match s with
  | EmptyString => false
  | String d s' => Ascii.eqb c d || isAny c s'
  end.

(** The value of one digit, an [int]. *)
Definition digit36 (c : ascii) : Z :=
  if isBase10 c then code c - code "0"
  else if isLowercase c then code c - code "a" + 10
  else code c - code "A" + 10.

(** Modelled from the spec: [pow] of [math.hh], which is not among the
    sources.  [pow(36u, N)] is [36^N]; it is computed and stored in
    [unsigned] ([constexpr unsigned exp]), hence modulo [2^32]. *)
Definition exp (N : nat) : Z := (36 ^ Z.of_nat N) mod 2 ^ 32.

(** Modelled from the spec: [Log2_36] of [math.hh] is the base-two logarithm
    of 36, so that [static_assert(N*Log2_36 <= 8*sizeof(T))] is the check
    [36^N <= 2^(bits in T)] its comment announces. *)
Definition static_assert_ok (N : nat) (T : IntType) : bool :=
  36 ^ Z.of_nat N <=? 2 ^ bits T.

(** The loop of [base36]: [result = 36*result + digit], the right-hand side
    computed in the common type of [int] and [T], then converted to [T]. *)
Fixpoint base36_loop (T : IntType) (str : string) (result : Z) : run Z :=
  match str with
  | EmptyString => Ret result
  | String c str' =>
      assert! isBase36 c ;;
      base36_loop T str'
        (wrap T (arith Z.add T (arith Z.mul int32_t 36 T result) int32_t (digit36 c)))
  end.

(** The body of [base36<N,T>(str)], with [exp] the value of the constant
    [exp], a value of [unsigned]. *)
Definition base36_with (exp : Z) (N : nat) (T : IntType) (str : string) : run Z :=
  assert! (Nat.leb (String.length str) N) ;;
  result <- base36_loop T str 0 ;;
  if is_signed T
  then
    if geq T result uint32_t (exp / 2)
    then Ret (wrap T (arith Z.sub T result uint32_t exp))
    else Ret result
  else Ret result.

(** [base36<N,T>(str)]. *)
Definition base36 (N : nat) (T : IntType) (str : string) : run Z :=
  base36_with (exp N) N T str.

(** The number a digit string denotes in base 36, most significant digit
    first, continuing from [acc]: the value [v] of the specification. *)
Fixpoint value36 (str : string) (acc : Z) : Z :=
  match str with
  | EmptyString => acc
  | String c str' => value36 str' (36 * acc + digit36 c)
  end.

(** The signed reading of [v] at width [N]. *)
Definition signed36 (N : nat) (v : Z) : Z :=
  if v <? 36 ^ Z.of_nat N / 2 then v else v - 36 ^ Z.of_nat N.

Fixpoint allBase36 (str : string) : bool :=
  match str with
  | EmptyString => true
  | String c str' => isBase36 c && allBase36 str'
  end.

(** [base10<int>]: an optional sign, then digits.  [str.front()] of an
    empty view is outside the view. *)
Fixpoint base10_loop (str : string) (result : Z) : run Z :=
  match str with
  | EmptyString => Ret result
  | String c str' =>
      assert! isBase10 c ;;
      base10_loop str'
        (arith Z.add int32_t (arith Z.mul int32_t 10 int32_t result)
               int32_t (code c - code "0"))
  end.

Definition base10_int (str : string) : run Z :=
  match str with
  | EmptyString => Abort OutOfRange
  | String c rest =>
      let '(str, sign) :=
        if Ascii.eqb c "+" then (rest, 1)
        else if Ascii.eqb c "-" then (rest, -1)
        else (str, 1) in
      result <- base10_loop str 0 ;;
      Ret (if sign =? -1 then wrap int32_t (- result) else result)
  end.

(** [std::string::substr(pos, n)] and [std::string_view::substr]: the
    characters from [pos], at most [n] of them; a [pos] beyond the size
    throws. *)
Definition substr (s : string) (pos n : nat) : run string :=
  if Nat.ltb (String.length s) pos then Abort OutOfRange
  else Ret (substring pos n s).

(** [str.find('.')]. *)
Fixpoint find_char (c : ascii) (s : string) : option nat :=
  match s with
  | EmptyString => None
  | String d s' => if Ascii.eqb d c then Some O else option_map S (find_char c s')
  end.

(** *** Single-precision floats

    [float] is IEEE binary32: 24 bits of precision, exponents below 128.
    The operations are those of the Standard Library's specification of
    floating-point arithmetic at that format, rounding to nearest even. *)
Module Float32.
Definition prec : Z := 24.
Definition emax : Z := 128.
Definition t : Type := spec_float.
Definition of_int (z : Z) : t := binary_normalize prec emax z 0 false.
Definition add : t -> t -> t := SFadd prec emax.
Definition mul : t -> t -> t := SFmul prec emax.
Definition div : t -> t -> t := SFdiv prec emax.
Definition zero : t := S754_zero false.
Definition one : t := of_int 1.
(** [(float)0.1] *)
Definition tenth : t := S754_finite false 13421773 (-27).
End Float32.

Section Base10Float.
(** [pow] of [math.hh] at a [float] base; the header is not among the
    sources, so the function is a parameter of the decoder. *)
Variable pow : Float32.t -> nat -> Float32.t.

(** [base10<float>]. *)
Definition base10_float (str : string) : run Float32.t :=
  match find_char "." str with
  | Some dot =>
      let '(str, dot, sign) :=
        match str with
        | String c rest =>
            if Ascii.eqb c "+" then (rest, Nat.pred dot, 1)
            else if Ascii.eqb c "-" then (rest, Nat.pred dot, -1)
            else (str, dot, 1)
        | EmptyString => (str, dot, 1)
        end in
      let intSize := dot in
      let fracSize := (String.length str - (dot + 1))%nat in
      r1 <- (if Nat.eqb intSize 0 then Ret Float32.zero
             else s <- substr str 0 dot ;;
                  n <- base10_int s ;;
                  Ret (Float32.add Float32.zero (Float32.of_int n))) ;;
      r2 <- (if Nat.eqb fracSize 0 then Ret r1
             else s <- substr str (dot + 1) fracSize ;;
                  n <- base10_int s ;;
                  Ret (Float32.add r1
                         (Float32.mul (Float32.of_int n) (pow Float32.tenth fracSize)))) ;;
      Ret (Float32.mul (Float32.of_int sign) r2)
  | None =>
      n <- base10_int str ;;
      Ret (Float32.of_int n)
  end.
End Base10Float.

(** *** Notions used to state properties of the decoders *)

(** The number a string of decimal digits denotes, continuing from [acc]. *)
Fixpoint value10 (str : string) (acc : Z) : Z :=
  match str with
  | EmptyString => acc
  | String c str' => value10 str' (10 * acc + (code c - code "0"))
  end.

Fixpoint allBase10 (str : string) : bool :=
  match str with
  | EmptyString => true
  | String c str' => isBase10 c && allBase10 str'
  end.

(** The sign that [base10] reads at the front of a string, and the string
    after it. *)
Definition signOf (str : string) : Z :=
  match str with
  | String c _ => if Ascii.eqb c "-" then -1 else 1
  | EmptyString => 1
  end.

Definition unsignedPart (str : string) : string :=
  match str with
  | String c rest => if Ascii.eqb c "+" || Ascii.eqb c "-" then rest else str
  | EmptyString => str
  end.

(** A lower-case letter in upper case: 32 code points below. *)
Definition upper (c : ascii) : ascii :=
  if isLowercase c then ascii_of_N (N_of_ascii c - 32) else c.

Fixpoint uppercase (s : string) : string :=
  match s with
  | EmptyString => EmptyString
  | String c s' => String (upper c) (uppercase s')
  end.

(** The number [sign * (a + b * pow(0.1, digits of b))] as [base10<float>]
    computes it from the integer part [a] and the fraction [b], each left
    out when it has no digit. *)
Definition fixedPoint (pow : Float32.t -> nat -> Float32.t) (sign : Z) (a b : string)
  : Float32.t :=
  let r1 :=
    if Nat.eqb (String.length a) 0 then Float32.zero
    else Float32.add Float32.zero (Float32.of_int (wrap int32_t (value10 a 0))) in
  let r2 :=
    if Nat.eqb (String.length b) 0 then r1
    else Float32.add r1
           (Float32.mul (Float32.of_int (wrap int32_t (value10 b 0)))
                        (pow Float32.tenth (String.length b))) in
  Float32.mul (Float32.of_int sign) r2.

End ParserBase.

(** ** RawFormat *)

Module RawFormat.
Import ParserBase.

Inductive State : Type := S0 | X1 | X2 | Y1 | Y2.

Definition atBoundary (state : State) : bool :=
  match state with S0 | Y2 => true | _ => false end.

Definition advance (state : State) : State :=
  match state with
  | S0 => X1 | X1 => X2 | X2 => Y1 | Y1 => Y2 | Y2 => X1
  end.

(** [verify]: the stream is the string of characters still to be read. *)
Fixpoint verify_from (state : State) (ins : string) : bool :=
  match ins with
  | EmptyString => atBoundary state
  | String c ins' =>
      if isBase36 c then verify_from (advance state) ins'
      else if isWhitespace c && atBoundary state then verify_from S0 ins'
      else false
  end.

Definition verify (ins : string) : bool := verify_from S0 ins.

(** Modelled from the spec: the record types of [types.hh], which is not
    among the sources; [parse] fills in the two coordinates of a point. *)
Record RawPoint : Type := { x : Z; y : Z }.
Record RawStroke : Type := { points : list RawPoint }.
Record RawSketch : Type := { strokes : list RawStroke }.

(** The whitespace of the stream extractors ([std::ws], [operator>>]). *)
Definition isspace (c : ascii) : bool :=
  Ascii.eqb c " " || ((9 <=? code c) && (code c <=? 13)).

(** [is >> std::ws]: drop leading whitespace. *)
Fixpoint skipws (ins : string) : string :=
  match ins with
  | EmptyString => EmptyString
  | String c ins' => if isspace c then skipws ins' else ins
  end.

(** [is >> line]: the characters up to the next whitespace or the end of
    the stream, and the stream after them. *)
Fixpoint extract (ins : string) : string * string :=
  match ins with
  | EmptyString => (EmptyString, EmptyString)
  | String c ins' =>
      if isspace c then (EmptyString, ins)
      else let '(w, rest) := extract ins' in (String c w, rest)
  end.

(** [for (i=0; i<line.size(); i+=4)], one trip per started window. *)
Fixpoint stroke_loop (trips : nat) (line : string) (i : nat) (pts : list RawPoint)
  : run (list RawPoint) :=
  match trips with
  | O => Ret pts
  | S trips' =>
      sx <- substr line (i + 0) 2 ;;
      px <- base36 3 int16_t sx ;;
      sy <- substr line (i + 2) 2 ;;
      py <- base36 3 int16_t sy ;;
      stroke_loop trips' line (i + 4) (pts ++ [{| x := px; y := py |}])
  end.

Definition trips_of (line : string) : nat := ((String.length line + 3) / 4)%nat.

Definition parse_line (line : string) : run RawStroke :=
  pts <- stroke_loop (trips_of line) line 0 [] ;;
  Ret {| points := pts |}.

(** [for (std::string line; is >> std::ws >> line; )]: the extraction fails,
    and the loop ends, when only whitespace is left. *)
Fixpoint parse_loop (fuel : nat) (ins : string) (result : list RawStroke)
  : run RawSketch :=
  match fuel with
  | O => Abort OutOfFuel
  | S fuel' =>
      match skipws ins with
      | EmptyString => Ret {| strokes := result |}
      | String _ _ as ins1 =>
          let '(line, ins2) := extract ins1 in
          stroke <- parse_line line ;;
          parse_loop fuel' ins2 (result ++ [stroke])
      end
  end.

Definition parse (ins : string) : run RawSketch :=
  parse_loop (S (String.length ins)) ins [].

(** The words of a text: its maximal runs of characters that are not
    whitespace, in order. *)
Fixpoint words (s : string) : list string :=
  match s with
  | EmptyString => []
  | String c s' =>
      if isspace c then words s'
      else
        match s' with
        | EmptyString => [String c EmptyString]
        | String d _ =>
            if isspace d then String c EmptyString :: words s'
            else
              match words s' with
              | w :: ws => String c w :: ws
              | [] => [String c EmptyString]
              end
        end
  end.

(** A word read four characters at a time: two digits of [x], two of [y]. *)
Fixpoint pointsOf (w : string) : list RawPoint :=
  match w with
  | String a (String b (String c (String d rest))) =>
      {| x := 36 * digit36 a + digit36 b; y := 36 * digit36 c + digit36 d |}
        :: pointsOf rest
  | _ => []
  end.

Definition strokeOf (w : string) : RawStroke := {| points := pointsOf w |}.

(** A word of whole windows of digits, at least one. *)
Definition wordOk (w : string) : Prop :=
  allBase36 w = true /\ exists n, (0 < n)%nat /\ String.length w = (4 * n)%nat.

(** The number of digits of the current point that a state has seen. *)
Definition phase (st : State) : nat :=
  match st with S0 | Y2 => 0 | X1 => 1 | X2 => 2 | Y1 => 3 end.

(** The lines of a text: the runs between newline characters; [cur] is the
    line being read, last character first. *)
Fixpoint rev_string (s acc : string) : string :=
  match s with
  | EmptyString => acc
  | String c s' => rev_string s' (String c acc)
  end.

Fixpoint lines_from (cur : string) (s : string) : list string :=
  match s with
  | EmptyString => [rev_string cur EmptyString]
  | String c s' =>
      if isNewline c then rev_string cur EmptyString :: lines_from EmptyString s'
      else lines_from (String c cur) s'
  end.

Fixpoint blank (l : string) : bool :=
  match l with
  | EmptyString => true
  | String c l' => isspace c && blank l'
  end.

Definition nonBlankLines (text : string) : list string :=
  filter (fun l => negb (blank l)) (lines_from EmptyString text).

(** *** Notions used to state further properties of the raw format *)

(** The characters of an accepted text: digits, and the blanks of
    [isWhitespace]. *)
Definition rawChar (c : ascii) : bool := isBase36 c || isWhitespace c.

Fixpoint allRaw (s : string) : bool :=
  match s with
  | EmptyString => true
  | String c s' => rawChar c && allRaw s'
  end.

(** A word of whole points: four digits each. *)
Definition wholeWindows (w : string) : Prop := (String.length w mod 4 = 0)%nat.

(** The points of a word of any length: as [pointsOf], and one more point
    from a last window of two or three digits. *)
Fixpoint pointsOfAny (w : string) : list RawPoint :=
  match w with
  | String a (String b (String c (String d rest))) =>
      {| x := 36 * digit36 a + digit36 b; y := 36 * digit36 c + digit36 d |}
        :: pointsOfAny rest
  | String a (String b (String c EmptyString)) =>
      [{| x := 36 * digit36 a + digit36 b; y := digit36 c |}]
  | String a (String b EmptyString) =>
      [{| x := 36 * digit36 a + digit36 b; y := 0 |}]
  | _ => []
  end.

(** The strokes of a list of words, one after the other, after [acc]. *)
Fixpoint strokesOfWords (ws : list string) (acc : list RawStroke) : run (list RawStroke) :=
  match ws with
  | [] => Ret acc
  | w :: ws' => stroke <- parse_line w ;; strokesOfWords ws' (acc ++ [stroke])
  end.

(** Coordinates that two digits can denote. *)
Definition inRawRange (p : RawPoint) : Prop := 0 <= x p <= 1295 /\ 0 <= y p <= 1295.

End RawFormat.

(** ** SketchFormat: the tokenizer *)

Module LexState.
Inductive t : Type :=
| LineStart | Comment | Space | End
| Token | String | StringEnd | Op.

Definition eqb (a b : t) : bool :=
  match a, b with
  | LineStart, LineStart | Comment, Comment | Space, Space | End, End
  | Token, Token | String, String | StringEnd, StringEnd | Op, Op => true
  | _, _ => false
  end.
End LexState.

Module SketchFormat.
Import ParserBase.

(** A token is a view into the text; every use the parser makes of a token
    is by its characters, so a token is carried as those characters. *)
Definition Token : Type := string.
Definition Tokens : Type := list Token.

(** The variables of [tokenize] that live across iterations.  [pastEnd] is
    not a variable of the source: it records the first index at which
    [str[i]] was evaluated with [i] outside the text. *)
Record Lexer : Type := {
  prevState : LexState.t;
  tokenStart : nat;
  parenCount : Z;
  result : Tokens;
  pastEnd : option nat
}.

(** The lambda that computes the next state from the previous state and the
    current character; it updates [parenCount] inside a string literal. *)
Definition transition (state : LexState.t) (c : ascii) (parenCount : Z)
  : LexState.t * Z :=
  if LexState.eqb state LexState.LineStart && Ascii.eqb c "%"
  then (LexState.Comment, parenCount)
  else if LexState.eqb state LexState.Comment
  then (if isNewline c then LexState.LineStart else LexState.Comment, parenCount)
  else if LexState.eqb state LexState.String
  then
    let parenCount := if Ascii.eqb c "(" then parenCount + 1 else parenCount in
    if Ascii.eqb c ")"
    then (if parenCount - 1 <=? 0 then LexState.StringEnd else LexState.String,
          parenCount - 1)
    else (LexState.String, parenCount)
  else if isNewline c then (LexState.LineStart, parenCount)
  else if isWhitespace c then (LexState.Space, parenCount)
  else if isAny c ":[],;" then (LexState.Op, parenCount)
  else if Ascii.eqb c "(" then (LexState.String, parenCount)
  else (LexState.Token, parenCount).

(** [resultAdd(i0, i1)] *)
Definition resultAdd (str : string) (i0 i1 : nat) (lx : Lexer) : Lexer :=
  {| prevState := prevState lx; tokenStart := tokenStart lx;
     parenCount := parenCount lx;
     result := (result lx ++ [substring i0 (i1 - i0) str])%list;
     pastEnd := pastEnd lx |}.

Definition notePastEnd (i : nat) (lx : Lexer) : Lexer :=
  {| prevState := prevState lx; tokenStart := tokenStart lx;
     parenCount := parenCount lx; result := result lx;
     pastEnd := match pastEnd lx with Some j => Some j | None => Some i end |}.

Definition when (b : bool) (f : Lexer -> Lexer) (lx : Lexer) : Lexer :=
  if b then f lx else lx.

(** The block guarded by [prevState != nextState]. *)
Definition onChange (str : string) (i : nat) (nextState : LexState.t) (lx : Lexer)
  : Lexer :=
  let prev := prevState lx in
  let lx := when (LexState.eqb nextState LexState.Token)
              (fun lx => {| prevState := prevState lx; tokenStart := i;
                            parenCount := parenCount lx; result := result lx;
                            pastEnd := pastEnd lx |}) lx in
  let lx := when (LexState.eqb prev LexState.Token)
              (fun lx => resultAdd str (tokenStart lx) i lx) lx in
  let lx := when (LexState.eqb nextState LexState.String)
              (fun lx => {| prevState := prevState lx; tokenStart := i;
                            parenCount := 1; result := result lx;
                            pastEnd := pastEnd lx |}) lx in
  let lx := when (LexState.eqb nextState LexState.StringEnd)
              (fun lx => resultAdd str (tokenStart lx) (i + 1) lx) lx in
  when (LexState.eqb prev LexState.String && LexState.eqb nextState LexState.End)
       (fun lx => resultAdd str (tokenStart lx) i lx) lx.

Inductive Flow : Type :=
| Continue (lx : Lexer)
| Return (lx : Lexer).

Section Tokenize.
(** [str[i]] is evaluated once with [i] equal to [str.size()] (line 186, on
    the last trip, when the last character was an operator).  That index is
    outside the view; what is read there is the byte that follows the text
    in memory, [past].  A [std::string], which is what [main.cc] passes,
    holds a null character there. *)
Variable past : ascii.

(** One trip through the body of the [for] loop, at index [i]. *)
Definition body (str : string) (i : nat) (lx : Lexer) : Flow :=
  let prev := prevState lx in
  let '(nextState, pc) :=
    match get i str with
    | None => (LexState.End, parenCount lx)
    | Some c => transition prev c (parenCount lx)
    end in
  let lx := {| prevState := prev; tokenStart := tokenStart lx; parenCount := pc;
               result := result lx; pastEnd := pastEnd lx |} in
  let finish (lx : Lexer) : Flow :=
    let lx := when (negb (LexState.eqb prev nextState)) (onChange str i nextState) lx in
    Continue {| prevState := nextState; tokenStart := tokenStart lx;
                parenCount := parenCount lx; result := result lx;
                pastEnd := pastEnd lx |} in
  if LexState.eqb prev LexState.Op
  then
    let lx := resultAdd str (i - 1) i lx in
    let '(c, lx) :=
      match get i str with
      | Some c => (c, lx)
      | None => (past, notePastEnd i lx)
      end in
    if Ascii.eqb c ";" then Return lx else finish lx
  else finish lx.

(** [for (i=0; i<=str.size(); i++, prevState = nextState)]: [trips] is the
    number of iterations still to run. *)
Fixpoint loop (str : string) (trips : nat) (i : nat) (lx : Lexer) : Lexer :=
  match trips with
  | O => lx
  | S trips' =>
      match body str i lx with
      | Return lx' => lx'
      | Continue lx' => loop str trips' (S i) lx'
      end
  end.

Definition init : Lexer :=
  {| prevState := LexState.LineStart; tokenStart := 0%nat; parenCount := 0;
     result := []; pastEnd := None |}.

Definition lex (str : string) : Lexer :=
  loop str (S (String.length str)) 0 init.

End Tokenize.

(** [tokenize(str)], with [past] the byte after the text. *)
Definition tokenizeWith (past : ascii) (str : string) : Tokens := result (lex past str).

(** [tokenize(str)] at a text followed by a null character.  The tokens do
    not depend on that byte ([tokenizeWith_any_past]). *)
Definition tokenize (str : string) : Tokens := tokenizeWith "000" str.

(** The first index outside the text that [tokenize(str)] reads, if any. *)
Definition tokenize_pastEnd (str : string) : option nat := pastEnd (lex "000" str).

(** *** Notions used to state properties of the tokenizer *)

(** Two lexers that differ by an offset [k] of the text. *)
Definition shifted (k : nat) (lx1 lx2 : Lexer) : Prop :=
  prevState lx1 = prevState lx2 /\
  parenCount lx1 = parenCount lx2 /\
  result lx1 = result lx2 /\
  (prevState lx2 = LexState.Token \/ prevState lx2 = LexState.String ->
   tokenStart lx1 = (k + tokenStart lx2)%nat).

Definition shiftedFlow (k : nat) (f1 f2 : Flow) : Prop :=
  match f1, f2 with
  | Continue a, Continue b => shifted k a b
  | Return a, Return b => result a = result b
  | _, _ => False
  end.

(** No newline character in [s]. *)
Fixpoint noNewline (s : string) : bool :=
  match s with
  | EmptyString => true
  | String c s' => negb (isNewline c) && noNewline s'
  end.

Definition flowLexer (f : Flow) : Lexer :=
  match f with Continue lx | Return lx => lx end.


(** ** SketchFormat: the element grammar *)

Inductive ValueType : Type := tBase36 | tNumber | tString.

Inductive V : Type :=
| tNone
| tSingle (type : ValueType)
| tUnbounded (type : ValueType) (mult : nat)
| tBounded (type : ValueType) (n : nat).

Definition ElementsDefs : list (string * V) :=
  [ ("Data", tUnbounded tBase36 1);
    ("Pencil", tUnbounded tBase36 1);
    ("Brush", tUnbounded tBase36 2);
    ("Affine", tBounded tNumber 9);
    ("Marker", tSingle tString) ].

(** [members] is a span of the token vector: the tokens it covers. *)
Record ElementData : Type := {
  type : Token;
  members : list Token
}.

(** [tkn[i]], used where the source has checked [i] against [tkn.size()]. *)
Definition at_ (tkn : Tokens) (i : nat) : Token := nth i tkn "".

(** [{&tkn[start], count}] *)
Definition span (tkn : Tokens) (start count : nat) : list Token :=
  firstn count (skipn start tkn).

(** [while (i < tkn.size() && tkn[i] != "]") i++, count++;] run over the
    tokens from [i] on: the number of trips. *)
Fixpoint scan (rest : Tokens) (count : nat) : nat :=
  match rest with
  | [] => count
  | t :: rest' => if String.eqb t "]" then count else scan rest' (S count)
  end.

(** The common text of the [tBounded] and [tUnbounded] visitors, up to the
    test on [count]: the member count and the index after the closing
    bracket. *)
Definition bracketed (tkn : Tokens) (i : nat) : option (nat * nat) :=
  if Nat.ltb (List.length tkn) (i + 2) then None
  else if negb (String.eqb (at_ tkn i) ":") then None
  else if negb (String.eqb (at_ tkn (i + 1)) "[") then None
  else
    let count := scan (skipn (i + 2) tkn) 0 in
    let i := (i + 2 + count)%nat in
    if Nat.eqb i (List.length tkn) then None
    else Some (count, S i).

(** [parseElement(tkn, i)]: the element and the updated index, or nothing. *)
Definition parseElement (tkn : Tokens) (i : nat) : option (ElementData * nat) :=
  if Nat.ltb (List.length tkn) (i + 1) then None
  else
    let typeName := at_ tkn i in
    let i := S i in
    match find (fun t => String.eqb (fst t) typeName) ElementsDefs with
    | None => None
    | Some (_, v) =>
        match v with
        | tNone => Some ({| type := typeName; members := [] |}, i)
        | tSingle _ =>
            if Nat.ltb (List.length tkn) (i + 2) then None
            else if negb (String.eqb (at_ tkn i) ":") then None
            else Some ({| type := typeName; members := span tkn (S i) 1 |}, S (S i))
        | tBounded _ n =>
            match bracketed tkn i with
            | None => None
            | Some (count, i) =>
                if negb (Nat.eqb count n) then None
                else Some ({| type := typeName;
                              members := span tkn (i - 1 - count) count |}, i)
            end
        | tUnbounded _ _ =>
            match bracketed tkn i with
            | None => None
            | Some (count, i) =>
                Some ({| type := typeName;
                         members := span tkn (i - 1 - count) count |}, i)
            end
        end
    end.

(** ** SketchFormat: the scene *)

(** Modelled from the spec: the scene types of [types.hh], which is not
    among the sources; the fields are those [parse] fills in. *)
Record Point : Type := { x : Z; y : Z; pressure : Float32.t }.
Record Stroke : Type := { diameter : Z; points : list Point }.
Record Marker : Type := { message : string }.
Inductive Atom : Type :=
| AStroke (s : Stroke)
| AMarker (m : Marker).
Record Affine : Type := { m : list Float32.t }.
Inductive Modifier : Type :=
| MAffine (a : Affine).

(** [std::string_view::contains]: [needle] occurs in [hay]. *)
Fixpoint contains (hay needle : string) : bool :=
  prefix needle hay ||
  match hay with
  | EmptyString => false
  | String _ hay' => contains hay' needle
  end.

(** [isAny(x, "a", "b", ...)] at a token [x]: each argument converts to a
    string view, so the comparison is [string_view{arg}.contains(x)]. *)
Definition isAnyOf (x : Token) (args : list string) : bool :=
  existsb (fun arg => contains arg x) args.

(** The characters of one member, gathered into windows of 6 (or 8) digits. *)
Fixpoint points_loop (isBrush : bool) (chars : string) (digits : string)
         (pts : list Point) : run (list Point * string) :=
  match chars with
  | EmptyString => Ret (pts, digits)
  | String c chars' =>
      if Ascii.eqb c "'" then points_loop isBrush chars' digits pts
      else
        let digits := (digits ++ String c EmptyString)%string in
        if Nat.ltb (String.length digits) (if isBrush then 8 else 6)
        then points_loop isBrush chars' digits pts
        else
          sx <- substr digits 0 3 ;;
          px <- base36 3 int16_t sx ;;
          sy <- substr digits 3 3 ;;
          py <- base36 3 int16_t sy ;;
          pr <- (if isBrush
                 then sp <- substr digits 6 2 ;;
                      v <- base36 2 uint32_t sp ;;
                      Ret (Float32.div (Float32.of_int v) (Float32.of_int (36 * 36 - 1)))
                 else Ret Float32.one) ;;
          points_loop isBrush chars' EmptyString
            (pts ++ [{| x := px; y := py; pressure := pr |}])
  end.

Definition one_stroke (isBrush : bool) (diameter : Z) (member : Token) : run Stroke :=
  r <- points_loop isBrush member EmptyString [] ;;
  let '(pts, digits) := r in
  assert! (Nat.eqb (String.length digits) 0) ;;
  Ret {| diameter := diameter; points := pts |}.

(** [for (j=0; j<members.size(); )]: one member per stroke, or two for a
    brush; [members[j++]] beyond the span is out of range. *)
Fixpoint strokes_loop (isBrush : bool) (members : list Token) (atoms : list Atom)
  : run (list Atom) :=
  match members with
  | [] => Ret atoms
  | m0 :: rest0 =>
      if isBrush
      then
        diameter <- base36 2 uint32_t m0 ;;
        match rest0 with
        | [] => Abort OutOfRange
        | m1 :: rest1 =>
            stroke <- one_stroke true diameter m1 ;;
            strokes_loop isBrush rest1 (atoms ++ [AStroke stroke])
        end
      else
        stroke <- one_stroke false 3 m0 ;;
        strokes_loop isBrush rest0 (atoms ++ [AStroke stroke])
  end.

Definition starts_with (s : string) (c : ascii) : bool :=
  match s with
  | String d _ => Ascii.eqb d c
  | EmptyString => false
  end.

Fixpoint ends_with (s : string) (c : ascii) : bool :=
  match s with
  | EmptyString => false
  | String d EmptyString => Ascii.eqb d c
  | String _ s' => ends_with s' c
  end.

(** PARSE MAIN ELEMENT: the atoms of the first element of a statement. *)
Definition mainElement (currElem : ElementData) : run (list Atom) :=
  if isAnyOf (type currElem) ["Data"; "Pencil"; "Brush"]
  then strokes_loop (String.eqb (type currElem) "Brush") (members currElem) []
  else if String.eqb (type currElem) "Marker"
  then
    match members currElem with
    | [] => Abort OutOfRange
    | message :: _ =>
        assert! (starts_with message "(" && ends_with message ")") ;;
        Ret [AMarker {| message := substring 1 (String.length message - 2) message |}]
    end
  else Ret [].

(** [currElem->type == "Affine"] *)
Definition isAffine (e : ElementData) : bool := String.eqb (type e) "Affine".

Section Scene.
(** The enumeration of grouping kinds and the table [elementTypeFromString]
    are declared in [types.hh], which is not among the sources; so is
    [pow] ([math.hh]).  They are parameters of the assembler. *)
Variable ElementType : Type.
Variable elementTypeFromString : string -> option ElementType.
Variable pow : Float32.t -> nat -> Float32.t.

Record Element : Type := {
  el_type : ElementType;
  el_atoms : list Atom;
  el_modifiers : list Modifier
}.

Record Sketch : Type := {
  elements : list Element;
  atoms : list Atom
}.

(** [for (std::size_t j=0; j<9; j++) m[j] = base10<float>(members[j]);] *)
Fixpoint affine_loop (trips : nat) (j : nat) (members : list Token)
         (m : list Float32.t) : run (list Float32.t) :=
  match trips with
  | O => Ret m
  | S trips' =>
      match nth_error members j with
      | None => Abort OutOfRange
      | Some t =>
          v <- base10_float pow t ;;
          affine_loop trips' (S j) members (m ++ [v])
      end
  end.

(** PARSE ALL MODIFIERS: the elements after the first. *)
Fixpoint modifiersOf (elems : list ElementData) (mods : list Modifier)
  : run (list Modifier) :=
  match elems with
  | [] => Ret mods
  | currElem :: elems' =>
      if String.eqb (type currElem) "Affine"
      then
        m <- affine_loop 9 0 (members currElem) [] ;;
        modifiersOf elems' (mods ++ [MAffine {| m := m |}])
      else modifiersOf elems' mods
  end.

(** What one statement hands to the sketch: its atoms, and its element
    when the first type name is a grouping keyword. *)
Record Statement : Type := {
  timelineAtoms : list Atom;
  timelineElem : option Element
}.

(** The body of the statement loop from the test on [elemsList.empty()]
    to the end of the modifier loop; nothing when the list is empty. *)
Definition assemble (elemsList : list ElementData) : run (option Statement) :=
  match elemsList with
  | [] => Ret None
  | currElem :: rest =>
      let isGrouping := elementTypeFromString (type currElem) in
      atoms <- mainElement currElem ;;
      mods <- modifiersOf rest [] ;;
      Ret (Some {| timelineAtoms := atoms;
                   timelineElem :=
                     option_map (fun ty => {| el_type := ty; el_atoms := atoms;
                                              el_modifiers := mods |}) isGrouping |})
  end.

(** [while (i<tkn.size() && !isAny(tkn[i], ",", ";"))]: the elements of
    one statement and the index of the token that ends it. *)
Fixpoint collect (fuel : nat) (tkn : Tokens) (i : nat) (elemsList : list ElementData)
  : run (option (list ElementData * nat)) :=
  match fuel with
  | O => Abort OutOfFuel
  | S fuel' =>
      if Nat.ltb i (List.length tkn) && negb (isAnyOf (at_ tkn i) [","; ";"])
      then
        match parseElement tkn i with
        | Some (e, i') => collect fuel' tkn i' (elemsList ++ [e])
        | None => Ret None
        end
      else Ret (Some (elemsList, i))
  end.

(** One statement from index [i]: its content and the index it ends at. *)
Definition statement (tkn : Tokens) (i : nat) : run (option (Statement * nat)) :=
  r <- collect (S (List.length tkn)) tkn i [] ;;
  match r with
  | None => Ret None
  | Some (elemsList, i') =>
      st <- assemble elemsList ;;
      Ret (option_map (fun st => (st, i')) st)
  end.

(** The end of the loop body: the element is appended, the atoms are
    spliced in at the front. *)
Definition addStatement (st : Statement) (result : Sketch) : Sketch :=
  {| elements :=
       match timelineElem st with
       | Some e => elements result ++ [e]
       | None => elements result
       end;
     atoms := timelineAtoms st ++ atoms result |}.

(** [for (std::size_t i=0; i<tkn.size(); i++)] *)
Fixpoint parse_loop (fuel : nat) (tkn : Tokens) (i : nat) (result : Sketch)
  : run (option Sketch) :=
  match fuel with
  | O => Abort OutOfFuel
  | S fuel' =>
      if Nat.ltb i (List.length tkn)
      then
        r <- statement tkn i ;;
        match r with
        | None => Ret None
        | Some (st, i) =>
            let result := addStatement st result in
            if Nat.ltb i (List.length tkn) && String.eqb (at_ tkn i) ";"
            then Ret (Some result)
            else parse_loop fuel' tkn (S i) result
        end
      else Ret (Some result)
  end.

Definition emptySketch : Sketch := {| elements := []; atoms := [] |}.

(** The statements the loop goes through, in the order in which they are
    declared: the same walk as [parse_loop], without the sketch. *)
Fixpoint statements_from (fuel : nat) (tkn : Tokens) (i : nat)
  : run (option (list Statement)) :=
  match fuel with
  | O => Abort OutOfFuel
  | S fuel' =>
      if Nat.ltb i (List.length tkn)
      then
        r <- statement tkn i ;;
        match r with
        | None => Ret None
        | Some (st, i) =>
            if Nat.ltb i (List.length tkn) && String.eqb (at_ tkn i) ";"
            then Ret (Some [st])
            else
              rest <- statements_from fuel' tkn (S i) ;;
              Ret (option_map (cons st) rest)
        end
      else Ret (Some [])
  end.

Definition statementsOf (tkn : Tokens) : run (option (list Statement)) :=
  match tkn with
  | [] => Ret None
  | t0 :: _ =>
      if String.eqb t0 ";" then Ret (Some [])
      else statements_from (S (List.length tkn)) tkn 0
  end.

(** The elements of the grouping statements among [sts], in order. *)
Definition groupsOf (sts : list Statement) : list Element :=
  flat_map (fun st => match timelineElem st with Some e => [e] | None => [] end) sts.

(** The atom blocks of [sts], last statement first, each block as it is. *)
Definition blocksReversed (sts : list Statement) : list Atom :=
  List.concat (rev (map timelineAtoms sts)).

(** [parse(tkn)]: [None] is the empty optional. *)
Definition parse (tkn : Tokens) : run (option Sketch) :=
  match tkn with
  | [] => Ret None
  | t0 :: _ =>
      if String.eqb t0 ";" then Ret (Some emptySketch)
      else parse_loop (S (List.length tkn)) tkn 0 emptySketch
  end.

End Scene.

Arguments el_type {ElementType} _.
Arguments el_atoms {ElementType} _.
Arguments el_modifiers {ElementType} _.
Arguments elements {ElementType} _.
Arguments atoms {ElementType} _.
Arguments timelineAtoms {ElementType} _.
Arguments timelineElem {ElementType} _.
Arguments emptySketch {ElementType}.
Arguments assemble {ElementType} _ _ _.
Arguments statement {ElementType} _ _ _ _.
Arguments addStatement {ElementType} _ _.
Arguments parse_loop {ElementType} _ _ _ _ _ _.
Arguments parse {ElementType} _ _ _.
Arguments statements_from {ElementType} _ _ _ _ _.
Arguments statementsOf {ElementType} _ _ _.
Arguments groupsOf {ElementType} _.
Arguments blocksReversed {ElementType} _.

(** *** Notions used to state further properties *)

(** The characters that are tokens of their own. *)
Definition isOpChar (c : ascii) : bool := isAny c ":[],;".

(** The characters of words: the automaton stays in [Token] on them. *)
Definition tokenChar (c : ascii) : bool :=
  negb (isWhitespace c || isOpChar c || Ascii.eqb c "(").

Fixpoint allTokenChars (s : string) : bool :=
  match s with
  | EmptyString => true
  | String c s' => tokenChar c && allTokenChars s'
  end.

(** What a token can be: one operator character, a text that starts with
    an opening parenthesis, or a word. *)
Definition tokenShape (t : Token) : bool :=
  match t with
  | EmptyString => false
  | String c rest =>
      if isOpChar c then String.eqb rest ""
      else if Ascii.eqb c "(" then true
      else allTokenChars t
  end.

(** What holds of the lexer before the trip at index [i]: the tokens found
    so far have their shape; inside a word, the word started before [i] and
    has characters of words only; inside a literal, the literal started
    before [i], with a parenthesis; after an operator, the operator is the
    character before [i]. *)
Definition lexInv (str : string) (i : nat) (lx : Lexer) : Prop :=
  forallb tokenShape (result lx) = true /\
  match prevState lx with
  | LexState.Token =>
      (tokenStart lx < i)%nat /\
      forall j, (tokenStart lx <= j < i)%nat ->
                exists c, get j str = Some c /\ tokenChar c = true
  | LexState.String =>
      (tokenStart lx < i)%nat /\ get (tokenStart lx) str = Some "("%char
  | LexState.Op =>
      (1 <= i)%nat /\ exists c, get (i - 1) str = Some c /\ isOpChar c = true
  | _ => True
  end.

Fixpoint allWhitespace (s : string) : bool :=
  match s with
  | EmptyString => true
  | String c s' => isWhitespace c && allWhitespace s'
  end.

(** A word: characters of words only, at least one. *)
Definition wordToken (t : Token) : bool :=
  match t with
  | EmptyString => false
  | String _ _ => allTokenChars t
  end.

(** An operator: one operator character. *)
Definition opToken (t : Token) : bool :=
  match t with
  | String c EmptyString => isOpChar c
  | _ => false
  end.

(** [closes depth s]: the parenthesis that closes the literal, with [depth]
    more parentheses open inside it, is the last character of [s]. *)
Fixpoint closes (depth : nat) (s : string) : bool :=
  match s with
  | EmptyString => false
  | String c s' =>
      if Ascii.eqb c "(" then closes (S depth) s'
      else if Ascii.eqb c ")"
      then match depth with
           | O => match s' with EmptyString => true | _ => false end
           | S d => closes d s'
           end
      else closes depth s'
  end.

(** A string literal: from its opening parenthesis to the one that closes it. *)
Definition stringToken (t : Token) : bool :=
  match t with
  | String c rest => Ascii.eqb c "(" && closes 0 rest
  | EmptyString => false
  end.

Definition wellShaped (t : Token) : bool := wordToken t || opToken t || stringToken t.

(** The tokens written out with one blank between them. *)
Fixpoint render (tks : list Token) : string :=
  match tks with
  | [] => EmptyString
  | t :: rest =>
      match rest with
      | [] => t
      | _ :: _ => (t ++ String " " (render rest))%string
      end
  end.

(** A state between tokens. *)
Definition betweenTokens (lx : Lexer) (t : Token) : Prop :=
  prevState lx = LexState.Space \/
  (prevState lx = LexState.LineStart /\ starts_with t "%" = false).

(** The lexer after the characters of the token [t], which ends before index [i]. *)
Definition pending (str : string) (i : nat) (t : Token) (before lx : Lexer) : Prop :=
  (prevState lx = LexState.Token /\ (tokenStart lx + String.length t = i)%nat /\
   substring (tokenStart lx) (String.length t) str = t /\ result lx = result before) \/
  (prevState lx = LexState.Op /\ (1 <= i)%nat /\ substring (i - 1) 1 str = t /\
   result lx = result before) \/
  (prevState lx = LexState.StringEnd /\ result lx = (result before ++ [t])%list).

(** The type names whose members stand between brackets. *)
Definition bracketedNames : list string := ["Data"; "Pencil"; "Brush"; "Affine"].

(** The tokens of one element with bracketed members. *)
Definition bracketedElement (name : string) (ms : list Token) : Tokens :=
  (name :: ":" :: "[" :: ms ++ ["]"])%list.

(** The arity the grammar asks of a bracketed element. *)
Definition arityOk (name : string) (ms : list Token) : bool :=
  if String.eqb name "Affine" then Nat.eqb (List.length ms) 9 else true.

(** The type names of the grammar. *)
Definition elementNames : list string := ["Data"; "Pencil"; "Brush"; "Affine"; "Marker"].

Definition isElementName (t : Token) : bool := existsb (String.eqb t) elementNames.

(** The characters of a member without the apostrophes. *)
Fixpoint strip (s : string) : string :=
  match s with
  | EmptyString => EmptyString
  | String c s' => if Ascii.eqb c "'" then strip s' else String c (strip s')
  end.

(** The number of digits of one point. *)
Definition window (isBrush : bool) : nat := if isBrush then 8%nat else 6%nat.

(** The whole windows of [s], read after the digits [cur]. *)
Fixpoint windows (w : nat) (s cur : string) : list string :=
  match s with
  | EmptyString => []
  | String c s' =>
      let cur := (cur ++ String c EmptyString)%string in
      if Nat.ltb (String.length cur) w then windows w s' cur
      else cur :: windows w s' EmptyString
  end.

(** The digits after the last whole window. *)
Fixpoint leftover (w : nat) (s cur : string) : string :=
  match s with
  | EmptyString => cur
  | String c s' =>
      let cur := (cur ++ String c EmptyString)%string in
      if Nat.ltb (String.length cur) w then leftover w s' cur
      else leftover w s' EmptyString
  end.

(** The point that one window of digits denotes. *)
Definition pointOfWindow (isBrush : bool) (digits : string) : Point :=
  {| x := signed36 3 (value36 (substring 0 3 digits) 0);
     y := signed36 3 (value36 (substring 3 3 digits) 0);
     pressure :=
       if isBrush
       then Float32.div (Float32.of_int (value36 (substring 6 2 digits) 0))
                        (Float32.of_int (36 * 36 - 1))
       else Float32.one |}.

(** Point data: whole windows of digits, apostrophes apart. *)
Definition pointData (isBrush : bool) (member : Token) : bool :=
  allBase36 (strip member)
  && Nat.eqb (String.length (strip member) mod window isBrush) 0.

(** A diameter: at most two digits. *)
Definition diameterDigits (member : Token) : bool :=
  allBase36 member && Nat.leb (String.length member) 2.

(** The members of a stroke element that [parse] can read: point data, each
    after a diameter for a brush. *)
Fixpoint membersOk (isBrush : bool) (ms : list Token) : bool :=
  match ms with
  | [] => true
  | m0 :: rest0 =>
      if isBrush
      then
        match rest0 with
        | [] => false
        | m1 :: rest1 => diameterDigits m0 && pointData true m1 && membersOk isBrush rest1
        end
      else pointData false m0 && membersOk isBrush rest0
  end.

(** The strokes that such members denote. *)
Fixpoint strokesOf (isBrush : bool) (ms : list Token) : list Atom :=
  match ms with
  | [] => []
  | m0 :: rest0 =>
      if isBrush
      then
        match rest0 with
        | [] => []
        | m1 :: rest1 =>
            AStroke {| diameter := value36 m0 0;
                       points := map (pointOfWindow true) (windows 8 (strip m1) "") |}
              :: strokesOf isBrush rest1
        end
      else
        AStroke {| diameter := 3;
                   points := map (pointOfWindow false) (windows 6 (strip m0) "") |}
          :: strokesOf isBrush rest0
  end.

(** The sketch of a text of one statement. *)
Definition singleStatement {ElementType : Type} (ty : option ElementType)
           (atoms : list Atom) : Sketch ElementType :=
  {| elements :=
       match ty with
       | Some ty => [{| el_type := ty; el_atoms := atoms; el_modifiers := [] |}]
       | None => []
       end;
     atoms := atoms |}.

(** A transform of nine entries. *)
Definition nineEntries (md : Modifier) : Prop :=
  match md with MAffine a => List.length (m a) = 9%nat end.

(** What a statement's element holds. *)
Definition wellFormed {ElementType : Type} (st : Statement ElementType) : Prop :=
  forall e, timelineElem st = Some e ->
            el_atoms e = timelineAtoms st /\ Forall nineEntries (el_modifiers e).

(** The test of the element loop of a statement,
    [i<tkn.size() && !isAny(tkn[i], ",", ";")]: at index [i] the statement
    goes on. *)
Definition inStatement (tkn : Tokens) (i : nat) : bool :=
  Nat.ltb i (List.length tkn) && negb (isAnyOf (at_ tkn i) [","; ";"]).

(** [elementsFrom tkn i es k]: the grammar reads the elements [es] one
    after the other from index [i] to index [k]; each one starts inside the
    statement, where the one before it ended, and is what [parseElement]
    accepts there. *)
Inductive elementsFrom (tkn : Tokens) : nat -> list ElementData -> nat -> Prop :=
| elementsFrom_nil (i : nat) : elementsFrom tkn i [] i
| elementsFrom_cons (i : nat) (e : ElementData) (j : nat) (es : list ElementData) (k : nat) :
    inStatement tkn i = true ->
    parseElement tkn i = Some (e, j) ->
    elementsFrom tkn j es k ->
    elementsFrom tkn i (e :: es) k.

(** The transforms that the elements [es] denote, one for each, in order:
    the nine numbers of each decoded as the modifier loop decodes them. *)
Fixpoint transformsOf (pow : Float32.t -> nat -> Float32.t) (es : list ElementData)
  : run (list Modifier) :=
  match es with
  | [] => Ret []
  | e :: es' =>
      m <- affine_loop pow 9 0 (members e) [] ;;
      mods <- transformsOf pow es' ;;
      Ret (MAffine {| m := m |} :: mods)
  end.

End SketchFormat.

(** ** An instance of the parameters

    Used to run the assembler on concrete texts: every type name of the
    grammar that carries strokes is taken as a grouping keyword, and [pow]
    is repeated multiplication. *)

Module Sample.
Import ParserBase.

Inductive ElementType : Type := Strokes (name : string).

Definition elementTypeFromString (s : string) : option ElementType :=
  if SketchFormat.isAnyOf s ["Data"; "Pencil"; "Brush"] then Some (Strokes s) else None.

Fixpoint pow (b : Float32.t) (n : nat) : Float32.t :=
  match n with
  | O => Float32.one
  | S n' => Float32.mul b (pow b n')
  end.

Definition parse (tkn : SketchFormat.Tokens) : run (option (SketchFormat.Sketch ElementType)) :=
  SketchFormat.parse elementTypeFromString pow tkn.

Definition parseText (text : string) : run (option (SketchFormat.Sketch ElementType)) :=
  parse (SketchFormat.tokenize text).

(** Three statements, the first and the last of a grouping kind. *)
Definition threeStatements : string :=
  "Data:[000001 000002],Marker:(hi),Pencil:[00000A];".

Definition strokeAt (px py : Z) : SketchFormat.Atom :=
  SketchFormat.AStroke
    {| SketchFormat.diameter := 3;
       SketchFormat.points :=
         [{| SketchFormat.x := px; SketchFormat.y := py;
             SketchFormat.pressure := Float32.one |}] |}.

Definition threeStatementsSketch : SketchFormat.Sketch ElementType :=
  {| SketchFormat.elements :=
       [ {| SketchFormat.el_type := Strokes "Data";
            SketchFormat.el_atoms := [strokeAt 0 1; strokeAt 0 2];
            SketchFormat.el_modifiers := [] |};
         {| SketchFormat.el_type := Strokes "Pencil";
            SketchFormat.el_atoms := [strokeAt 0 10];
            SketchFormat.el_modifiers := [] |} ];
     SketchFormat.atoms :=
       [ strokeAt 0 10;
         SketchFormat.AMarker {| SketchFormat.message := "hi" |};
         strokeAt 0 1; strokeAt 0 2 ] |}.

(** One statement of four elements: strokes, then a marker, a transform
    and more strokes. *)
Definition mixedStatement : string :=
  "Data:[000001] Marker:(x) Affine:[1 0 0 0 1 0 0 0 1] Pencil:[000002],".

End Sample.

(** * Theorems *)

Lemma bind_Ret_inv {A B} (k : A -> run B) (r : run A) (b : B) :
  bind r k = Ret b -> exists a, r = Ret a /\ k a = Ret b.
Proof. destruct r as [a|f]; simpl; [eauto | discriminate]. Qed.

Lemma LexState_eqb_spec (a b : LexState.t) : reflect (a = b) (LexState.eqb a b).
Proof. destruct a, b; simpl; constructor; congruence. Qed.

(** ** Machine integers *)

Lemma bits_pos (T : IntType) : 0 < bits T.
Proof. destruct T; reflexivity. Qed.

Lemma modulus_divides (T C : IntType) : bits T <= bits C -> (2 ^ bits T | 2 ^ bits C).
Proof.
  intros H. exists (2 ^ (bits C - bits T)).
  rewrite <- Z.pow_add_r by (pose proof (bits_pos T); lia). f_equal. lia.
Qed.

(** Converting to a type at least as wide keeps the residue. *)
Lemma wrap_mod_ge (T C : IntType) (x : Z) :
  bits T <= bits C -> wrap C x mod 2 ^ bits T = x mod 2 ^ bits T.
Proof.
  intros H. pose proof (modulus_divides T C H) as Hd.
  unfold wrap. destruct (is_signed C).
  - rewrite Zminus_mod, Z.mod_mod_divide, <- Zminus_mod by assumption.
    f_equal. lia.
  - rewrite Z.mod_mod_divide by assumption. reflexivity.
Qed.

Lemma wrap_congr (T : IntType) (a b : Z) :
  a mod 2 ^ bits T = b mod 2 ^ bits T -> wrap T a = wrap T b.
Proof.
  intros H. unfold wrap. destruct (is_signed T); [|exact H].
  rewrite (Zplus_mod a), (Zplus_mod b), H. reflexivity.
Qed.

Lemma common_bits_l (A B : IntType) : bits A <= bits (common A B).
Proof. destruct A, B; vm_compute; discriminate. Qed.

Lemma common_bits_r (A B : IntType) : bits B <= bits (common A B).
Proof. destruct A, B; vm_compute; discriminate. Qed.

(** A sum or product computed in a type at least as wide as [T] and then
    converted to [T] is the conversion of the exact result. *)
Lemma wrap_arith_add (T A B : IntType) (a b : Z) :
  bits T <= bits (common A B) ->
  wrap T (arith Z.add A a B b) = wrap T (a + b).
Proof.
  intros H. apply wrap_congr. unfold arith.
  rewrite wrap_mod_ge by exact H.
  rewrite Zplus_mod, !wrap_mod_ge, <- Zplus_mod by exact H. reflexivity.
Qed.

Lemma wrap_arith_mul (T A B : IntType) (a b : Z) :
  bits T <= bits (common A B) ->
  wrap T (arith Z.mul A a B b) = wrap T (a * b).
Proof.
  intros H. apply wrap_congr. unfold arith.
  rewrite wrap_mod_ge by exact H.
  rewrite Zmult_mod, !wrap_mod_ge, <- Zmult_mod by exact H. reflexivity.
Qed.

(** ** The numeric codec *)

Section Base36.
Import ParserBase.

Lemma digit36_range (c : ascii) : isBase36 c = true -> 0 <= digit36 c <= 35.
Proof.
  unfold isBase36, digit36, isBase10, isLowercase, isUppercase.
  change (code "0") with 48. change (code "9") with 57.
  change (code "a") with 97. change (code "z") with 122.
  change (code "A") with 65. change (code "Z") with 90.
  destruct (Z.leb_spec 48 (code c)), (Z.leb_spec (code c) 57),
           (Z.leb_spec 97 (code c)), (Z.leb_spec (code c) 122),
           (Z.leb_spec 65 (code c)), (Z.leb_spec (code c) 90);
    simpl; intros E; try discriminate; lia.
Qed.


(** The loop computes the value of the digits, reduced to [T]. *)
Lemma base36_loop_value (T : IntType) (s : string) (r : Z) :
  allBase36 s = true ->
  base36_loop T s (wrap T r) = Ret (wrap T (value36 s r)).
Proof.
  revert r. induction s as [|c s IH]; intros r Hs; simpl in *; [reflexivity|].
  apply andb_prop in Hs as [Hc Hs]. rewrite Hc.
  rewrite <- IH by exact Hs. f_equal.
  rewrite wrap_arith_add by apply common_bits_l.
  apply wrap_congr.
  rewrite Zplus_mod.
  rewrite <- (wrap_mod_ge T T (arith _ _ _ _ _)) by lia.
  rewrite wrap_arith_mul by apply common_bits_r.
  rewrite wrap_mod_ge by lia.
  rewrite Zmult_mod, wrap_mod_ge, <- Zmult_mod by lia.
  rewrite <- Zplus_mod. reflexivity.
Qed.

Lemma value36_bound (s : string) (r : Z) :
  allBase36 s = true -> 0 <= r ->
  r * 36 ^ Z.of_nat (String.length s) <= value36 s r
  < (r + 1) * 36 ^ Z.of_nat (String.length s).
Proof.
  revert r. induction s as [|c s IH]; intros r Hs Hr.
  - simpl. lia.
  - cbn [allBase36] in Hs. apply andb_prop in Hs as [Hc Hs].
    pose proof (digit36_range c Hc) as Hd.
    cbn [value36 String.length].
    specialize (IH (36 * r + digit36 c) Hs ltac:(lia)).
    rewrite Nat2Z.inj_succ, Z.pow_succ_r by lia.
    set (P := 36 ^ Z.of_nat (String.length s)) in *.
    assert (0 < P) by (apply Z.pow_pos_nonneg; lia).
    nia.
Qed.

Lemma pow36_le (n m : nat) : (n <= m)%nat -> 36 ^ Z.of_nat n <= 36 ^ Z.of_nat m.
Proof. intros H. apply Z.pow_le_mono_r; lia. Qed.

(** Up to width 6 the modulus fits [unsigned]. *)
Lemma exp_small (N : nat) :
  (N <= 6)%nat -> exp N = 36 ^ Z.of_nat N /\ 36 ^ Z.of_nat N < 2 ^ 32.
Proof.
  intros H. pose proof (pow36_le N 6 H) as Hle.
  change (36 ^ Z.of_nat 6) with 2176782336 in Hle.
  assert (0 < 36 ^ Z.of_nat N) by (apply Z.pow_pos_nonneg; lia).
  unfold exp. change (2 ^ 32) with 4294967296.
  rewrite Z.mod_small by lia. lia.
Qed.

(** The comparison with [exp/2] and the subtraction of [exp], at each signed
    type: with the modulus [E] exact and within the type, the stored value
    [wrap T v] is brought to the signed reading of [v]. *)
Lemma signed_tail (T : IntType) (E v : Z) :
  is_signed T = true -> 0 <= v < E -> E <= 2 ^ bits T -> E < 2 ^ 32 ->
  (if geq T (wrap T v) uint32_t (E / 2)
   then wrap T (arith Z.sub T (wrap T v) uint32_t E)
   else wrap T v)
  = if v <? E / 2 then v else v - E.
Proof.
  intros Hs Hv HE HE32.
  destruct T; try discriminate Hs; clear Hs;
    unfold geq, arith, wrap;
    repeat match goal with
           | |- context [common ?A ?B] =>
               let C := eval vm_compute in (common A B) in change (common A B) with C
           end;
    cbv beta iota delta [is_signed bits] in *;
    repeat match goal with
           | |- context [2 ^ ?e] =>
               let v := eval vm_compute in (2 ^ e) in change (2 ^ e) with v
           | H : context [2 ^ ?e] |- _ =>
               let v := eval vm_compute in (2 ^ e) in change (2 ^ e) with v in H
           end;
    destruct (Z.ltb_spec v (E / 2));
    match goal with |- context [?a <=? ?b] => destruct (Z.leb_spec a b) end;
    Z.div_mod_to_equations; lia.
Qed.

(** Where the modulus fits [unsigned], that is up to width 6, [base36] at a
    signed type that passes the static assertion returns the signed reading
    of the digits, for every string of at most [N] digits. *)
Theorem base36_signed (N : nat) (T : IntType) (s : string) :
  is_signed T = true -> static_assert_ok N T = true -> (N <= 6)%nat ->
  (String.length s <= N)%nat -> allBase36 s = true ->
  base36 N T s = Ret (signed36 N (value36 s 0)).
Proof.
  intros Hs Hok HN Hlen Hall.
  destruct (exp_small N HN) as [Hexp H32].
  pose proof (value36_bound s 0 Hall ltac:(lia)) as Hv.
  pose proof (pow36_le _ _ Hlen) as Hle.
  apply Z.leb_le in Hok.
  unfold base36, base36_with.
  destruct (Nat.leb_spec (String.length s) N) as [_|]; [|lia].
  replace 0 with (wrap T 0) at 1 by (destruct T; reflexivity).
  rewrite base36_loop_value by exact Hall. cbn [bind]. rewrite Hs, Hexp.
  pose proof (signed_tail T (36 ^ Z.of_nat N) (value36 s 0) Hs ltac:(lia) Hok H32) as Ht.
  unfold signed36. rewrite <- Ht.
  destruct (geq _ _ _ _); reflexivity.
Qed.

(** The instance the scene assembler uses, over the whole range of three
    digits: [base36<3,int16_t>] returns the signed reading. *)
Corollary base36_3_int16 (s : string) :
  String.length s = 3%nat -> allBase36 s = true ->
  base36 3 int16_t s = Ret (signed36 3 (value36 s 0)).
Proof.
  intros Hlen Hall. apply base36_signed; try reflexivity; try lia; exact Hall.
Qed.

(** Two digits decode to their value in base 36: the value is below
    [36^3 / 2], so the signed correction of [base36<3,int16_t>] is idle. *)
Lemma base36_two_digits (a b : ascii) :
  isBase36 a = true -> isBase36 b = true ->
  base36 3 int16_t (String a (String b EmptyString))
  = Ret (36 * digit36 a + digit36 b).
Proof.
  intros Ha Hb.
  pose proof (digit36_range a Ha) as Ra. pose proof (digit36_range b Hb) as Rb.
  rewrite (base36_signed 3 int16_t); try reflexivity; try (simpl; lia).
  - cbn [value36]. unfold signed36.
    change (36 ^ Z.of_nat 3 / 2) with 23328.
    destruct (Z.ltb_spec (36 * (36 * 0 + digit36 a) + digit36 b) 23328);
      [f_equal; lia | lia].
  - cbn [allBase36]. rewrite Ha, Hb. reflexivity.
Qed.

(** C5, at the input where the code leaves the claim: width 7 at a 64-bit
    signed type passes the static assertion, the digits [ZZZZZZZ] denote
    [36^7 - 1], whose signed reading is [-1]; [base36] returns
    [77309411327], because the modulus it subtracts is held in 32 bits.
    No value of an [unsigned] constant [exp] makes the result [-1]. *)
Theorem base36_width7_int64 :
  static_assert_ok 7 int64_t = true /\
  value36 "ZZZZZZZ" 0 = 36 ^ 7 - 1 /\
  signed36 7 (value36 "ZZZZZZZ" 0) = -1 /\
  exp 7 = 1054752768 /\
  base36 7 int64_t "ZZZZZZZ" = Ret 77309411327 /\
  (forall e : Z, 0 <= e < 2 ^ 32 -> base36_with e 7 int64_t "ZZZZZZZ" <> Ret (-1)).
Proof.
  assert (Hloop : base36_loop int64_t "ZZZZZZZ" 0 = Ret 78364164095)
    by (vm_compute; reflexivity).
  do 5 (split; [vm_compute; reflexivity|]).
  intros e He. unfold base36_with.
  change (Nat.leb (String.length "ZZZZZZZ") 7) with true. cbv iota.
  rewrite Hloop. cbn [bind is_signed].
  unfold geq, arith, wrap.
  change (common int64_t uint32_t) with int64_t.
  cbv beta iota delta [is_signed bits].
  change (2 ^ 32) with 4294967296 in He.
  change (2 ^ (64 - 1)) with 9223372036854775808.
  change (2 ^ 64) with 18446744073709551616.
  match goal with |- (if ?b then _ else _) <> _ => destruct b end.
  - match goal with |- Ret ?x <> Ret _ => remember x as r eqn:Hr end.
    intros H. injection H as ->. revert Hr.
    Z.div_mod_to_equations. lia.
  - discriminate.
Qed.

End Base36.

(** ** Strings *)

Lemma get_skip (pre s : string) (j : nat) :
  get (String.length pre + j) (pre ++ s) = get j s.
Proof. induction pre as [|c pre IH]; simpl; [reflexivity | exact IH]. Qed.

Lemma substring_skip (pre s : string) (k n : nat) :
  substring (String.length pre + k) n (pre ++ s) = substring k n s.
Proof. induction pre as [|c pre IH]; simpl; [reflexivity | exact IH]. Qed.

Lemma append_assoc (a b c : string) : ((a ++ b) ++ c = a ++ (b ++ c))%string.
Proof. induction a as [|x a IH]; simpl; [reflexivity | rewrite IH; reflexivity]. Qed.

Lemma length_append (a b : string) :
  String.length (a ++ b) = (String.length a + String.length b)%nat.
Proof. induction a as [|c a IH]; simpl; [reflexivity | rewrite IH; reflexivity]. Qed.

Lemma get_at_prefix_end (pre : string) (c : ascii) (s : string) :
  get (String.length pre) (pre ++ String c s) = Some c.
Proof.
  rewrite <- (Nat.add_0_r (String.length pre)), get_skip. reflexivity.
Qed.

Lemma get_in_bounds (str : string) (i : nat) :
  (i < String.length str)%nat -> exists c, get i str = Some c.
Proof.
  revert i. induction str as [|d str IH]; intros i Hi; cbn in Hi; [lia|].
  destruct i as [|i]; cbn; [eauto | apply IH; lia].
Qed.

Lemma get_past_end (str : string) (i : nat) :
  (String.length str <= i)%nat -> get i str = None.
Proof.
  revert i. induction str as [|d str IH]; intros i Hi; cbn in *; [reflexivity|].
  destruct i as [|i]; [lia | apply IH; lia].
Qed.


(** ** The tokenizer *)

Section Tokenizer.
Import ParserBase SketchFormat.

(** The loop body returns early only with an operator before index [i] and a
    semicolon read at index [i]; the token it has just added is the operator
    at [i-1], and the semicolon at [i] is not added. *)
Lemma body_Return_inv (past : ascii) (str : string) (i : nat) (lx lx' : Lexer) :
  body past str i lx = Return lx' ->
  prevState lx = LexState.Op /\
  (get i str = Some ";"%char \/ (get i str = None /\ past = ";"%char)) /\
  result lx' = (result lx ++ [substring (i - 1) (i - (i - 1)) str])%list.
Proof.
  unfold body.
  destruct (get i str) as [c|] eqn:Hget.
  - destruct (transition (prevState lx) c (parenCount lx)) as [nextState pc].
    destruct (LexState_eqb_spec (prevState lx) LexState.Op) as [Hop|Hop];
      [|discriminate].
    destruct (Ascii.eqb_spec c ";") as [->|Hc]; [|discriminate].
    intros H; injection H as <-. simpl.
    repeat split; auto.
  - destruct (LexState_eqb_spec (prevState lx) LexState.Op) as [Hop|Hop];
      [|discriminate].
    destruct (Ascii.eqb_spec past ";") as [->|Hc]; [|discriminate].
    intros H; injection H as <-. simpl.
    repeat split; auto.
Qed.

(** C2, at the inputs where the code leaves the claim.  In ["A;extra"] the
    semicolon is emitted and scanning goes on: [extra] is a token.  In
    ["A: [1,2,3];extra"] the scan does stop, but on seeing the semicolon
    after the bracket, before any semicolon token is emitted. *)
Theorem tokenize_semicolon :
  tokenize "A;extra" = ["A"; ";"; "extra"] /\
  tokenize "A: [1,2,3];extra" = ["A"; ":"; "["; "1"; ","; "2"; ","; "3"; "]"].
Proof. split; vm_compute; reflexivity. Qed.

(** C8, at the inputs where the code leaves the claim: on a text that ends
    in an operator character the last trip of the loop evaluates [str[i]]
    with [i] equal to the size of the text. *)
Theorem tokenize_reads_past_end :
  tokenize_pastEnd ":" = Some 1%nat /\
  tokenize_pastEnd "Data:[]" = Some 7%nat /\
  tokenize_pastEnd "x," = Some 2%nat /\
  tokenize_pastEnd "(a);" = Some 4%nat.
Proof. repeat split; vm_compute; reflexivity. Qed.

Lemma transition_Comment (st : LexState.t) (c : ascii) (pc : Z) :
  fst (transition st c pc) = LexState.Comment <->
  (st = LexState.LineStart /\ c = "%"%char) \/
  (st = LexState.Comment /\ isNewline c = false).
Proof.
  unfold transition.
  destruct st; cbn [LexState.eqb andb];
    repeat match goal with
           | |- context [Ascii.eqb c ?d] => destruct (Ascii.eqb_spec c d)
           | |- context [if ?b then _ else _] => destruct b eqn:?
           end; cbn [fst];
    split; intros H; try discriminate H;
    repeat match goal with
           | H : _ \/ _ |- _ => destruct H
           | H : _ /\ _ |- _ => destruct H
           end;
    try discriminate; try congruence; auto.
Qed.

Lemma transition_StringEnd (st : LexState.t) (c : ascii) (pc : Z) :
  fst (transition st c pc) = LexState.StringEnd -> st = LexState.String.
Proof.
  unfold transition.
  destruct st; cbn [LexState.eqb andb];
    repeat match goal with
           | |- context [if ?b then _ else _] => destruct b eqn:?
           end; cbn [fst]; intros H; try discriminate H; reflexivity.
Qed.

Ltac lexer_cbn :=
  cbn [LexState.eqb negb andb when onChange resultAdd notePastEnd
       prevState tokenStart parenCount result pastEnd].

(** *** The byte after the text does not matter *)

Lemma body_in_bounds_any_past (p1 p2 : ascii) (str : string) (i : nat) (c : ascii)
      (lx : Lexer) :
  get i str = Some c -> body p1 str i lx = body p2 str i lx.
Proof. intros Hget. unfold body. rewrite Hget. reflexivity. Qed.

Lemma body_at_end_any_past (p1 p2 : ascii) (str : string) (i : nat) (lx : Lexer) :
  get i str = None ->
  result (flowLexer (body p1 str i lx)) = result (flowLexer (body p2 str i lx)).
Proof.
  intros Hget. unfold body. rewrite Hget.
  destruct (prevState lx); lexer_cbn;
    try (destruct (Ascii.eqb p1 ";")); try (destruct (Ascii.eqb p2 ";"));
    reflexivity.
Qed.

Lemma loop_any_past (p1 p2 : ascii) (str : string) (trips : nat) :
  forall (i : nat) (lx : Lexer),
    (i + trips = S (String.length str))%nat ->
    result (loop p1 str trips i lx) = result (loop p2 str trips i lx).
Proof.
  induction trips as [|trips IH]; intros i lx Hi; cbn [loop]; [reflexivity|].
  destruct (Nat.ltb_spec i (String.length str)) as [Hlt|Hge].
  - destruct (get_in_bounds str i Hlt) as [c Hc].
    rewrite (body_in_bounds_any_past p1 p2 str i c lx Hc).
    destruct (body p2 str i lx) as [lx'|lx']; [apply IH; lia | reflexivity].
  - assert (trips = 0%nat) by lia. subst trips.
    pose proof (body_at_end_any_past p1 p2 str i lx (get_past_end str i Hge)) as Hb.
    destruct (body p1 str i lx), (body p2 str i lx); exact Hb.
Qed.

(** Whatever byte follows the text, [tokenize] returns the same tokens. *)
Theorem tokenizeWith_any_past (past : ascii) (str : string) :
  tokenizeWith past str = tokenize str.
Proof. unfold tokenize, tokenizeWith, lex. apply loop_any_past. lia. Qed.

(** *** Texts that start with a comment line *)

Lemma body_shifted (past : ascii) (pre rest : string) (j : nat) (lx1 lx2 : Lexer) :
  shifted (String.length pre) lx1 lx2 ->
  (prevState lx2 = LexState.Op -> (1 <= j)%nat) ->
  shiftedFlow (String.length pre)
    (body past (pre ++ rest) (String.length pre + j) lx1) (body past rest j lx2).
Proof.
  intros (Hs & Hp & Hr & Ht) Hj.
  unfold body. rewrite get_skip, Hs, Hp.
  assert (Hse : forall c next pc,
             transition (prevState lx2) c (parenCount lx2) = (next, pc) ->
             next = LexState.StringEnd -> prevState lx2 = LexState.String).
  { intros c next pc Htr ->.
    apply (transition_StringEnd _ c (parenCount lx2)). rewrite Htr. reflexivity. }
  destruct (get j rest) as [c|] eqn:Hget;
    [destruct (transition (prevState lx2) c (parenCount lx2)) as [next pc] eqn:Htr;
     specialize (Hse c next pc Htr);
     destruct (prevState lx2) eqn:Hprev, next;
     try (specialize (Hse eq_refl); discriminate Hse)
    |clear Hse; destruct (prevState lx2) eqn:Hprev];
    lexer_cbn;
    try (destruct (Ascii.eqb c ";"));
    try (destruct (Ascii.eqb past ";"));
    unfold shiftedFlow, shifted;
    lexer_cbn;
    rewrite ?Hr;
    try (rewrite Ht by (auto));
    try (replace (String.length pre + j - 1)%nat with (String.length pre + (j - 1))%nat
          by (specialize (Hj eq_refl); lia));
    rewrite ?substring_skip;
    repeat split; auto; try (intros [E|E]; discriminate E);
    try (f_equal; f_equal; f_equal; lia).
Qed.

(** The loop over [pre ++ rest] from the index where [rest] starts, and the
    loop over [rest] from its start, return the same tokens. *)
Lemma loop_shifted (past : ascii) (pre rest : string) (trips : nat) :
  forall (j : nat) (lx1 lx2 : Lexer),
    shifted (String.length pre) lx1 lx2 ->
    (prevState lx2 = LexState.Op -> (1 <= j)%nat) ->
    result (loop past (pre ++ rest) trips (String.length pre + j) lx1)
    = result (loop past rest trips j lx2).
Proof.
  induction trips as [|trips IH]; intros j lx1 lx2 Hsh Hj; cbn [loop].
  - apply Hsh.
  - pose proof (body_shifted past pre rest j lx1 lx2 Hsh Hj) as Hb.
    destruct (body past (pre ++ rest) (String.length pre + j) lx1) as [a|a],
             (body past rest j lx2) as [b|b]; cbn [shiftedFlow] in Hb; try contradiction.
    + replace (S (String.length pre + j)) with (String.length pre + S j)%nat by lia.
      apply IH; [exact Hb | intros _; lia].
    + exact Hb.
Qed.

(** Inside a comment a character other than a newline changes nothing. *)
Lemma body_in_comment (past : ascii) (str : string) (i : nat) (c : ascii) (lx : Lexer) :
  get i str = Some c -> prevState lx = LexState.Comment -> isNewline c = false ->
  body past str i lx = Continue lx.
Proof.
  intros Hget Hst Hc. destruct lx as [p ts pc r pe]. cbn in Hst. subst p.
  unfold body. rewrite Hget. unfold transition. lexer_cbn. rewrite Hc.
  lexer_cbn. reflexivity.
Qed.

(** The newline that ends a comment brings the lexer back to the start of a
    line, with nothing emitted. *)
Lemma body_end_comment (past : ascii) (str : string) (i : nat) (c : ascii) (lx : Lexer) :
  get i str = Some c -> prevState lx = LexState.Comment -> isNewline c = true ->
  body past str i lx
  = Continue {| prevState := LexState.LineStart; tokenStart := tokenStart lx;
                parenCount := parenCount lx; result := result lx;
                pastEnd := pastEnd lx |}.
Proof.
  intros Hget Hst Hc. destruct lx as [p ts pc r pe]. cbn in Hst. subst p.
  unfold body. rewrite Hget. unfold transition. lexer_cbn. rewrite Hc.
  lexer_cbn. reflexivity.
Qed.

Lemma loop_in_comment (past : ascii) (body_ : string) :
  forall (pre rest : string) (trips : nat) (lx : Lexer),
    prevState lx = LexState.Comment -> noNewline body_ = true ->
    loop past (pre ++ body_ ++ rest) (String.length body_ + trips) (String.length pre) lx
    = loop past (pre ++ body_ ++ rest) trips (String.length pre + String.length body_) lx.
Proof.
  induction body_ as [|c b IH]; intros pre rest trips lx Hst Hnn.
  - cbn. rewrite Nat.add_0_r. reflexivity.
  - cbn [noNewline] in Hnn. apply andb_prop in Hnn as [Hc Hnn].
    apply negb_true_iff in Hc.
    cbn [String.length Nat.add loop].
    rewrite (body_in_comment past _ _ c lx); [| |exact Hst|exact Hc].
    2:{ cbn [append]. apply get_at_prefix_end. }
    replace (pre ++ String c b ++ rest)%string
      with ((pre ++ String c EmptyString) ++ b ++ rest)%string
      by (rewrite append_assoc; reflexivity).
    replace (S (String.length pre)) with (String.length (pre ++ String c EmptyString))
      by (rewrite length_append; cbn; lia).
    rewrite IH by assumption.
    rewrite length_append. cbn [String.length]. f_equal. lia.
Qed.

(** A comment line at the start of the text leaves no token: the tokens are
    those of the text after the line. *)
Theorem tokenize_comment_line (body_ : string) (nl : ascii) (rest : string) :
  noNewline body_ = true -> isNewline nl = true ->
  tokenize (String "%" (body_ ++ String nl rest)) = tokenize rest.
Proof.
  intros Hnn Hnl. unfold tokenize, tokenizeWith, lex.
  set (past := "000"%char).
  pose (lxC := {| prevState := LexState.Comment; tokenStart := 0%nat; parenCount := 0;
                  result := []; pastEnd := None |}).
  pose (str := String "%" (body_ ++ String nl rest)).
  fold str.
  replace (S (String.length str))
    with (S (String.length body_ + S (S (String.length rest))))
    by (unfold str; cbn [String.length]; rewrite length_append; cbn [String.length]; lia).
  (* the percent sign *)
  cbn [loop]. change (body past str 0 init) with (Continue lxC). cbv iota.
  (* the commented text *)
  pose proof (loop_in_comment past body_ (String "%" EmptyString) (String nl rest)
                (S (S (String.length rest))) lxC eq_refl Hnn) as Hc.
  cbn [append String.length Nat.add] in Hc. fold str in Hc. rewrite Hc. clear Hc.
  (* the newline *)
  cbn [loop].
  assert (Hget : get (S (String.length body_)) str = Some nl).
  { unfold str. cbn [get]. rewrite <- (Nat.add_0_r (String.length body_)) at 1.
    rewrite get_skip. reflexivity. }
  rewrite (body_end_comment past str _ nl lxC Hget eq_refl Hnl). cbv iota.
  change {| prevState := LexState.LineStart; tokenStart := tokenStart lxC;
            parenCount := parenCount lxC; result := result lxC;
            pastEnd := pastEnd lxC |} with init.
  (* the rest of the text *)
  pose proof (loop_shifted past (String "%" (body_ ++ String nl EmptyString)) rest
                (S (String.length rest)) 0 init init) as Hs.
  replace (String "%" (body_ ++ String nl EmptyString) ++ rest)%string with str in Hs
    by (unfold str; cbn [append]; rewrite append_assoc; reflexivity).
  replace (String.length (String "%" (body_ ++ String nl EmptyString)) + 0)%nat
    with (S (S (String.length body_))) in Hs
    by (cbn [String.length]; rewrite length_append; cbn [String.length]; lia).
  apply Hs.
  - repeat split. intros [E|E]; discriminate E.
  - intros E; discriminate E.
Qed.

(** *** Reads outside the text *)

(** One trip of the loop reads outside the text only at an index from the
    size on, and only when the previous character was an operator. *)
Lemma body_pastEnd (past : ascii) (str : string) (i : nat) (lx : Lexer) :
  pastEnd lx = None ->
  pastEnd (flowLexer (body past str i lx))
  = if Nat.leb (String.length str) i && LexState.eqb (prevState lx) LexState.Op
    then Some i else None.
Proof.
  intros Hpe. destruct lx as [p ts pc r pe]. cbn in Hpe. subst pe.
  unfold body.
  destruct (Nat.leb_spec (String.length str) i) as [Hi|Hi].
  - rewrite (get_past_end str i Hi).
    destruct p; lexer_cbn; try (destruct (Ascii.eqb past ";")); reflexivity.
  - destruct (get_in_bounds str i Hi) as [c ->].
    cbn [prevState parenCount].
    destruct (transition p c pc) as [next pc'].
    destruct p, next; lexer_cbn; try (destruct (Ascii.eqb c ";")); reflexivity.
Qed.

Lemma loop_pastEnd (past : ascii) (str : string) (trips : nat) :
  forall (i : nat) (lx : Lexer),
    pastEnd lx = None -> (i + trips = S (String.length str))%nat ->
    pastEnd (loop past str trips i lx) = None \/
    pastEnd (loop past str trips i lx) = Some (String.length str).
Proof.
  induction trips as [|trips IH]; intros i lx Hpe Hi; cbn [loop]; [auto|].
  pose proof (body_pastEnd past str i lx Hpe) as Hb.
  destruct (Nat.leb_spec (String.length str) i) as [Hle|Hlt]; cbn [andb] in Hb.
  - assert (i = String.length str) by lia. subst i.
    assert (trips = 0%nat) by lia. subst trips.
    destruct (body past str (String.length str) lx) as [lx'|lx']; cbn [flowLexer loop] in *;
      rewrite Hb; destruct (LexState.eqb _ _); auto.
  - destruct (body past str i lx) as [lx'|lx']; cbn [flowLexer] in Hb; [|auto].
    apply IH; [exact Hb | lia].
Qed.

(** The only index outside the text that [tokenize] ever reads is the size
    of the text. *)
Theorem tokenize_pastEnd_is_size (str : string) (i : nat) :
  tokenize_pastEnd str = Some i -> i = String.length str.
Proof.
  unfold tokenize_pastEnd, lex. intros H.
  destruct (loop_pastEnd "000" str (S (String.length str)) 0 init eq_refl eq_refl) as [E|E];
    rewrite E in H; [discriminate | injection H as <-; reflexivity].
Qed.

(** *** Comments *)

(** C7, as the code has it.  The automaton enters a comment only from the
    start of a line, on a percent sign, and stays in it up to the next
    newline; a percent sign met in any other state is an ordinary character.
    So ["a % b"] gives the three tokens [a], [%], [b], while a percent sign
    that opens a line hides the line. *)
Theorem tokenize_percent_comment :
  (forall (st : LexState.t) (c : ascii) (pc : Z),
      fst (transition st c pc) = LexState.Comment <->
      (st = LexState.LineStart /\ c = "%"%char) \/
      (st = LexState.Comment /\ isNewline c = false)) /\
  tokenize ("a % b" ++ String "010" EmptyString) = ["a"; "%"; "b"] /\
  tokenize ("a" ++ String "010" ("% b" ++ String "010" EmptyString)) = ["a"] /\
  tokenize ("% foo" ++ String "010" EmptyString) = [].
Proof.
  split; [exact transition_Comment|].
  repeat split; vm_compute; reflexivity.
Qed.

(** C7, refuted as stated: after the token [a] and a blank the percent sign
    and the text behind it are tokens. *)
Lemma tokenize_percent_after_token :
  tokenize ("a % b" ++ String "010" EmptyString) = ["a"; "%"; "b"] /\
  tokenize ("a % b" ++ String "010" EmptyString) <> ["a"].
Proof. split; [vm_compute; reflexivity | vm_compute; discriminate]. Qed.

Lemma tokenize_comment_line_witness :
  noNewline " foo" = true /\ isNewline "010" = true /\
  tokenize (String "%" (" foo" ++ String "010" "x: [1]")) = tokenize "x: [1]".
Proof.
  split; [reflexivity|]. split; [reflexivity|].
  apply (tokenize_comment_line " foo" "010" "x: [1]"); reflexivity.
Defined.

End Tokenizer.

(** ** The element grammar *)

Section Grammar.
Import ParserBase SketchFormat.

Lemma bracketed_advances (tkn : Tokens) (i count i' : nat) :
  bracketed tkn i = Some (count, i') -> (i < i')%nat.
Proof.
  unfold bracketed.
  repeat match goal with
         | |- context [if ?b then _ else _] => destruct b
         end; try discriminate.
  intros H; injection H as <- <-. lia.
Qed.

(** A successful [parseElement] consumes at least the type name. *)
Lemma parseElement_advances (tkn : Tokens) (i : nat) (e : ElementData) (i' : nat) :
  parseElement tkn i = Some (e, i') -> (i < i')%nat.
Proof.
  unfold parseElement.
  destruct (Nat.ltb (List.length tkn) (i + 1)); [discriminate|].
  destruct (find _ ElementsDefs) as [[name v]|]; [|discriminate].
  destruct v as [|ty|ty mult|ty n].
  - intros H; injection H as <- <-. lia.
  - repeat match goal with
           | |- context [if ?b then _ else _] => destruct b
           end; try discriminate.
    intros H; injection H as <- <-. lia.
  - destruct (bracketed tkn (S i)) as [[count j]|] eqn:Hb; [|discriminate].
    apply bracketed_advances in Hb.
    intros H; injection H as <- <-. lia.
  - destruct (bracketed tkn (S i)) as [[count j]|] eqn:Hb; [|discriminate].
    apply bracketed_advances in Hb.
    destruct (negb (Nat.eqb count n)); [discriminate|].
    intros H; injection H as <- <-. lia.
Qed.

Lemma scan_members (ms rest : Tokens) (count : nat) :
  Forall (fun t => t <> "]") ms ->
  scan (ms ++ "]" :: rest)%list count = (count + List.length ms)%nat.
Proof.
  revert count. induction ms as [|t ms IH]; intros count Hms; cbn [scan app List.length].
  - cbn. lia.
  - inversion Hms as [|? ? Ht Hms']; subst.
    destruct (String.eqb_spec t "]") as [E|_]; [contradiction|].
    rewrite IH by exact Hms'. lia.
Qed.

(** Bounded arity: an [Affine] element is accepted exactly when nine tokens
    stand between the brackets, whatever the tokens are. *)
Theorem parseElement_affine_arity (ms rest : Tokens) :
  Forall (fun t => t <> "]") ms ->
  parseElement ("Affine" :: ":" :: "[" :: (ms ++ "]" :: rest)%list) 0
  = if Nat.eqb (List.length ms) 9
    then Some ({| type := "Affine"; members := ms |}, (4 + List.length ms)%nat)
    else None.
Proof.
  intros Hms. unfold parseElement.
  cbn [List.length Nat.add Nat.ltb Nat.leb at_ nth find fst String.eqb ElementsDefs].
  change (find _ ElementsDefs) with (Some ("Affine", tBounded tNumber 9)).
  unfold bracketed.
  cbn [List.length Nat.add at_ nth skipn].
  rewrite length_app. cbn [List.length].
  destruct (Nat.ltb_spec (S (S (S (List.length ms + S (List.length rest))))) 3) as [Hlt|_]; [lia|].
  cbn [negb String.eqb Ascii.eqb Bool.eqb].
  change (negb ("[" =? "[")%string) with false. change (negb (":" =? ":")%string) with false.
  cbv iota.
  rewrite scan_members by exact Hms. cbn [Nat.add].
  destruct (Nat.eqb_spec (S (S (S (List.length ms))))
              (S (S (S (List.length ms + S (List.length rest)))))) as [E|_]; [lia|].
  destruct (Nat.eqb_spec (List.length ms) 9) as [E9|N9]; cbn [negb]; [|reflexivity].
  do 2 f_equal.
  - f_equal. unfold span.
    replace (S (S (S (S (List.length ms)))) - 1 - List.length ms)%nat with 3%nat by lia.
    cbn [skipn]. rewrite <- (Nat.add_0_r (List.length ms)), firstn_app_2.
    cbn. apply app_nil_r.
Qed.

(** C3, as the code has it: with the nine numbers separated by blanks the
    element is accepted with nine members; with commas between them the
    commas are tokens between the brackets, seventeen tokens are counted and
    the element is refused; three numbers are refused either way. *)
Theorem parseElement_affine :
  parseElement (tokenize "Affine: [1 2 3 4 5 6 7 8 9]") 0
  = Some ({| type := "Affine";
             members := ["1"; "2"; "3"; "4"; "5"; "6"; "7"; "8"; "9"] |}, 13%nat) /\
  scan (skipn 3 (tokenize "Affine: [1,2,3,4,5,6,7,8,9]")) 0 = 17%nat /\
  parseElement (tokenize "Affine: [1,2,3,4,5,6,7,8,9]") 0 = None /\
  parseElement (tokenize "Affine: [1,2,3]") 0 = None /\
  parseElement (tokenize "Affine: [1 2 3]") 0 = None.
Proof. repeat split; vm_compute; reflexivity. Qed.

(** C3, refuted as stated: the text with commas is refused. *)
Lemma parseElement_affine_commas_refused :
  parseElement (tokenize "Affine: [1,2,3,4,5,6,7,8,9]") 0 = None /\
  ~ (exists e i, parseElement (tokenize "Affine: [1,2,3,4,5,6,7,8,9]") 0 = Some (e, i) /\
                 List.length (members e) = 9%nat).
Proof.
  split; [vm_compute; reflexivity|].
  intros (e & i & H & _). vm_compute in H. discriminate.
Qed.

End Grammar.

(** ** The scene assembler *)

Section Assembler.
Import ParserBase SketchFormat.

Variable ElementType : Type.
Variable elementTypeFromString : string -> option ElementType.
Variable pow : Float32.t -> nat -> Float32.t.


(** C4, as the code has it: no tokens is the failure signal; a leading
    semicolon is the empty sketch. *)
Theorem parse_empty_and_leading_semicolon :
  parse elementTypeFromString pow [] = Ret None /\
  forall rest : Tokens, parse elementTypeFromString pow (";" :: rest) = Ret (Some emptySketch).
Proof. split; [reflexivity | intros rest; reflexivity]. Qed.

(** *** The counters are never used up *)

Lemma collect_fuel (fuel : nat) (tkn : Tokens) (i : nat) (acc : list ElementData) :
  (List.length tkn - i < fuel)%nat ->
  collect fuel tkn i acc <> Abort OutOfFuel.
Proof.
  revert i acc. induction fuel as [|fuel IH]; intros i acc Hlt; simpl.
  - lia.
  - destruct (Nat.ltb_spec i (List.length tkn)) as [Hi|Hi]; simpl; [|discriminate].
    destruct (negb _); [|discriminate].
    destruct (parseElement tkn i) as [[e i']|] eqn:He; [|discriminate].
    apply parseElement_advances in He. apply IH. lia.
Qed.

Lemma collect_index (fuel : nat) (tkn : Tokens) (i : nat) (acc : list ElementData)
      (elems : list ElementData) (i' : nat) :
  collect fuel tkn i acc = Ret (Some (elems, i')) -> (i <= i')%nat.
Proof.
  revert i acc. induction fuel as [|fuel IH]; intros i acc; simpl; [discriminate|].
  destruct (_ && _).
  - destruct (parseElement tkn i) as [[e j]|] eqn:He; [|discriminate].
    apply parseElement_advances in He. intros H. apply IH in H. lia.
  - intros H; injection H as <- <-. lia.
Qed.

Lemma bind_not_fuel {A B} (r : run A) (k : A -> run B) :
  r <> Abort OutOfFuel ->
  (forall a, r = Ret a -> k a <> Abort OutOfFuel) ->
  bind r k <> Abort OutOfFuel.
Proof.
  destruct r as [a|f]; simpl; intros H1 H2; [apply H2; reflexivity|].
  intros E. apply H1. congruence.
Qed.

Lemma base36_not_fuel (N : nat) (T : IntType) (str : string) :
  base36 N T str <> Abort OutOfFuel.
Proof.
  unfold base36, base36_with. destruct (Nat.leb _ _); [|discriminate].
  assert (H : forall s r, base36_loop T s r <> Abort OutOfFuel).
  { induction s as [|c s IH]; intros r; simpl; [discriminate|].
    destruct (isBase36 c); [apply IH | discriminate]. }
  apply bind_not_fuel; [apply H|].
  intros a _. destruct (is_signed T); [destruct (geq _ _ _ _)|]; discriminate.
Qed.

Lemma substr_not_fuel (s : string) (pos n : nat) : substr s pos n <> Abort OutOfFuel.
Proof. unfold substr. destruct (Nat.ltb _ _); discriminate. Qed.

Lemma base10_int_not_fuel (str : string) : base10_int str <> Abort OutOfFuel.
Proof.
  assert (H : forall s r, base10_loop s r <> Abort OutOfFuel).
  { induction s as [|c s IH]; intros r; simpl; [discriminate|].
    destruct (isBase10 c); [apply IH | discriminate]. }
  destruct str as [|c rest]; simpl; [discriminate|].
  destruct (Ascii.eqb c "+"); [|destruct (Ascii.eqb c "-")];
    (apply bind_not_fuel; [apply H | discriminate]).
Qed.

Lemma base10_float_not_fuel (str : string) : base10_float pow str <> Abort OutOfFuel.
Proof.
  unfold base10_float.
  destruct (find_char "." str) as [dot|].
  - destruct (match str with EmptyString => _ | String _ _ => _ end) as [[str' dot'] sign].
    apply bind_not_fuel.
    + destruct (Nat.eqb dot' 0); [discriminate|].
      apply bind_not_fuel; [apply substr_not_fuel|]. intros s0 _.
      apply bind_not_fuel; [apply base10_int_not_fuel | discriminate].
    + intros r1 _. apply bind_not_fuel; [|discriminate].
      destruct (Nat.eqb _ 0); [discriminate|].
      apply bind_not_fuel; [apply substr_not_fuel|]. intros s0 _.
      apply bind_not_fuel; [apply base10_int_not_fuel | discriminate].
  - apply bind_not_fuel; [apply base10_int_not_fuel | discriminate].
Qed.

Lemma points_loop_not_fuel (isBrush : bool) (chars digits : string) (pts : list Point) :
  points_loop isBrush chars digits pts <> Abort OutOfFuel.
Proof.
  revert digits pts. induction chars as [|c chars IH]; intros digits pts; simpl;
    [discriminate|].
  destruct (Ascii.eqb c "'"); [apply IH|].
  destruct (Nat.ltb _ _); [apply IH|].
  repeat (apply bind_not_fuel;
          [first [apply substr_not_fuel | apply base36_not_fuel] | intros ? _]).
  apply bind_not_fuel; [|intros ? _; apply IH].
  destruct isBrush; [|discriminate].
  repeat (apply bind_not_fuel;
          [first [apply substr_not_fuel | apply base36_not_fuel] | intros ? _]).
  discriminate.
Qed.

Lemma one_stroke_not_fuel (isBrush : bool) (d : Z) (member : Token) :
  one_stroke isBrush d member <> Abort OutOfFuel.
Proof.
  unfold one_stroke. apply bind_not_fuel; [apply points_loop_not_fuel|].
  intros [pts digits] _. destruct (Nat.eqb _ 0); discriminate.
Qed.

Lemma strokes_loop_not_fuel (isBrush : bool) (members : list Token) (acc : list Atom) :
  strokes_loop isBrush members acc <> Abort OutOfFuel.
Proof.
  remember (List.length members) as n eqn:Hn.
  revert members acc Hn.
  induction n as [n IH] using lt_wf_ind; intros members acc Hn.
  destruct members as [|m0 rest0]; simpl; [discriminate|].
  destruct isBrush.
  - apply bind_not_fuel; [apply base36_not_fuel|]. intros d _.
    destruct rest0 as [|m1 rest1]; [discriminate|].
    apply bind_not_fuel; [apply one_stroke_not_fuel|]. intros st _.
    apply (IH (List.length rest1)); [subst n; simpl; lia | reflexivity].
  - apply bind_not_fuel; [apply one_stroke_not_fuel|]. intros st _.
    apply (IH (List.length rest0)); [subst n; simpl; lia | reflexivity].
Qed.

Lemma mainElement_not_fuel (e : ElementData) : mainElement e <> Abort OutOfFuel.
Proof.
  unfold mainElement. destruct (isAnyOf _ _); [apply strokes_loop_not_fuel|].
  destruct (String.eqb _ _); [|discriminate].
  destruct (members e); [discriminate|].
  destruct (_ && _); discriminate.
Qed.

Lemma affine_loop_not_fuel (trips j : nat) (ms : list Token) (acc : list Float32.t) :
  affine_loop pow trips j ms acc <> Abort OutOfFuel.
Proof.
  revert j acc. induction trips as [|trips IH]; intros j acc; simpl; [discriminate|].
  destruct (nth_error ms j); [|discriminate].
  apply bind_not_fuel; [apply base10_float_not_fuel | intros v _; apply IH].
Qed.

Lemma modifiersOf_cons (e : ElementData) (elems : list ElementData) (mods : list Modifier) :
  modifiersOf pow (e :: elems) mods
  = if String.eqb (type e) "Affine"
    then a <- affine_loop pow 9 0 (members e) [] ;;
         modifiersOf pow elems (mods ++ [MAffine {| m := a |}])
    else modifiersOf pow elems mods.
Proof. reflexivity. Qed.

Lemma modifiersOf_not_fuel (elems : list ElementData) (mods : list Modifier) :
  modifiersOf pow elems mods <> Abort OutOfFuel.
Proof.
  revert mods. induction elems as [|e elems IH]; intros mods;
    [discriminate | rewrite modifiersOf_cons].
  destruct (String.eqb _ _); [|apply IH].
  apply bind_not_fuel; [apply affine_loop_not_fuel | intros a _; apply IH].
Qed.

Lemma assemble_not_fuel (elems : list ElementData) : assemble elementTypeFromString pow elems <> Abort OutOfFuel.
Proof.
  destruct elems as [|e rest]; simpl; [discriminate|].
  apply bind_not_fuel; [apply mainElement_not_fuel|]. intros a _.
  apply bind_not_fuel; [apply modifiersOf_not_fuel | discriminate].
Qed.

Lemma statement_not_fuel (tkn : Tokens) (i : nat) : statement elementTypeFromString pow tkn i <> Abort OutOfFuel.
Proof.
  unfold statement. apply bind_not_fuel.
  - apply collect_fuel. lia.
  - intros [[elems i']|] _; [|discriminate].
    apply bind_not_fuel; [apply assemble_not_fuel|].
    intros st _. discriminate.
Qed.

Lemma statement_index (tkn : Tokens) (i : nat) (st : Statement ElementType) (i' : nat) :
  statement elementTypeFromString pow tkn i = Ret (Some (st, i')) -> (i <= i')%nat.
Proof.
  unfold statement. intros H.
  apply bind_Ret_inv in H as ([[elems j]|] & Hc & H); [|discriminate].
  apply collect_index in Hc.
  apply bind_Ret_inv in H as ([st'|] & _ & H); simpl in H; [|discriminate].
  injection H as <- <-. exact Hc.
Qed.

Lemma parse_loop_fuel (fuel : nat) (tkn : Tokens) (i : nat) (res : Sketch ElementType) :
  (List.length tkn - i < fuel)%nat ->
  parse_loop elementTypeFromString pow fuel tkn i res <> Abort OutOfFuel.
Proof.
  revert i res. induction fuel as [|fuel IH]; intros i res Hlt; simpl.
  - lia.
  - destruct (Nat.ltb_spec i (List.length tkn)) as [Hi|Hi]; [|discriminate].
    apply bind_not_fuel; [apply statement_not_fuel|].
    intros [[st i']|] Hst; [|discriminate].
    apply statement_index in Hst.
    destruct (_ && _); [discriminate|].
    apply IH. lia.
Qed.

(** [parse] returns or aborts as the source does; the counter of the model
    is large enough on every token sequence. *)
Theorem sketch_parse_never_out_of_fuel (tkn : Tokens) : parse elementTypeFromString pow tkn <> Abort OutOfFuel.
Proof.
  destruct tkn as [|t0 rest]; simpl; [discriminate|].
  destruct (String.eqb t0 ";"); [discriminate|].
  apply (parse_loop_fuel (S (S (List.length rest))) (t0 :: rest) 0). simpl. lia.
Qed.

(** *** Order of elements and atoms *)

Lemma addStatement_fold (sts : list (Statement ElementType)) (res : Sketch ElementType) :
  let res' := fold_left (fun acc st => addStatement st acc) sts res in
  elements res' = (elements res ++ groupsOf sts)%list /\
  atoms res' = (blocksReversed sts ++ atoms res)%list.
Proof.
  revert res. induction sts as [|st sts IH]; intros res; simpl.
  - split; [rewrite app_nil_r; reflexivity | reflexivity].
  - destruct (IH (addStatement st res)) as [He Ha]. split.
    + rewrite He. unfold groupsOf, addStatement. simpl.
      destruct (timelineElem st); simpl; [rewrite <- app_assoc|]; reflexivity.
    + rewrite Ha. unfold blocksReversed, addStatement. simpl.
      rewrite concat_app. simpl. rewrite app_nil_r, <- app_assoc. reflexivity.
Qed.

(** The loop of [parse] is the walk over the statements followed by the
    accumulation of [addStatement], statement after statement. *)
Lemma parse_loop_statements (fuel : nat) (tkn : Tokens) (i : nat)
      (res : Sketch ElementType) :
  parse_loop elementTypeFromString pow fuel tkn i res
  = (r <- statements_from elementTypeFromString pow fuel tkn i ;;
     Ret (option_map (fun sts => fold_left (fun acc st => addStatement st acc) sts res) r)).
Proof.
  revert i res. induction fuel as [|fuel IH]; intros i res; simpl; [reflexivity|].
  destruct (Nat.ltb i (List.length tkn)); [|reflexivity].
  destruct (statement elementTypeFromString pow tkn i) as [[[st j]|]|f]; simpl;
    try reflexivity.
  destruct (_ && _); [reflexivity|].
  rewrite IH.
  destruct (statements_from elementTypeFromString pow fuel tkn (S j)) as [[sts|]|f];
    reflexivity.
Qed.

(** C1.  When [parse] succeeds, the statements of the token sequence were
    all assembled; [elements] holds the elements of the grouping statements
    in the order of the statements, and [atoms] is the concatenation of the
    statements' atom lists taken from the last statement to the first, each
    list in its own order. *)
Theorem parse_element_and_atom_order (tkn : Tokens) (sk : Sketch ElementType) :
  parse elementTypeFromString pow tkn = Ret (Some sk) ->
  exists sts : list (Statement ElementType),
    statementsOf elementTypeFromString pow tkn = Ret (Some sts) /\
    elements sk = groupsOf sts /\
    atoms sk = blocksReversed sts.
Proof.
  unfold parse, statementsOf.
  destruct tkn as [|t0 rest]; [discriminate|].
  destruct (String.eqb t0 ";").
  - intros H; injection H as <-. exists []. repeat split.
  - rewrite parse_loop_statements. intros H.
    apply bind_Ret_inv in H as ([sts|] & Hs & H); simpl in H; [|discriminate].
    injection H as <-. exists sts. split; [exact Hs|].
    destruct (addStatement_fold sts emptySketch) as [He Ha].
    simpl in He, Ha. rewrite app_nil_r in Ha. auto.
Qed.

(** One more statement handed to the sketch: its atoms go before all the
    atoms gathered so far, its element after all the elements. *)
Lemma addStatement_prepends (st : Statement ElementType) (res : Sketch ElementType) :
  atoms (addStatement st res) = (timelineAtoms st ++ atoms res)%list /\
  elements (addStatement st res)
  = (elements res ++ match timelineElem st with Some e => [e] | None => [] end)%list.
Proof.
  unfold addStatement; simpl. split; [reflexivity|].
  destruct (timelineElem st); [reflexivity | rewrite app_nil_r; reflexivity].
Qed.

(** *** Modifiers *)

Lemma modifiersOf_filter (elems : list ElementData) (mods : list Modifier) :
  modifiersOf pow elems mods = modifiersOf pow (filter isAffine elems) mods.
Proof.
  revert mods. induction elems as [|e elems IH]; intros mods; [reflexivity|].
  cbn [filter]. unfold isAffine at 1.
  rewrite modifiersOf_cons.
  destruct (String.eqb (type e) "Affine") eqn:He.
  - rewrite modifiersOf_cons, He.
    destruct (affine_loop pow 9 0 (members e) []) as [a|f]; simpl; [apply IH | reflexivity].
  - apply IH.
Qed.

(** The outcome of assembling a statement is the outcome of assembling its
    first element followed by the [Affine] elements among the others: an
    element after the first with another type name adds no atom and no
    modifier, and changes neither success nor failure. *)
Lemma assemble_ignores_non_affine (first : ElementData) (rest : list ElementData) :
  assemble elementTypeFromString pow (first :: rest)
  = assemble elementTypeFromString pow (first :: filter isAffine rest).
Proof.
  unfold assemble. rewrite (modifiersOf_filter rest). reflexivity.
Qed.

(** The atoms of a statement are those of its first element. *)
Lemma assemble_atoms (first : ElementData) (rest : list ElementData)
      (st : Statement ElementType) :
  assemble elementTypeFromString pow (first :: rest) = Ret (Some st) ->
  mainElement first = Ret (timelineAtoms st).
Proof.
  unfold assemble. intros H.
  apply bind_Ret_inv in H as (a & Ha & H).
  apply bind_Ret_inv in H as (ms & _ & H).
  injection H as <-. exact Ha.
Qed.

(** *** Elements after the first *)

Lemma collect_unfold (fuel : nat) (tkn : Tokens) (i : nat) (acc : list ElementData) :
  collect (S fuel) tkn i acc
  = if inStatement tkn i
    then match parseElement tkn i with
         | Some (e, i') => collect fuel tkn i' (acc ++ [e])
         | None => Ret None
         end
    else Ret (Some (acc, i)).
Proof. reflexivity. Qed.

(** What [collect] returns is what the grammar reads from [i] up to the
    first index at which the statement does not go on. *)
Lemma collect_elementsFrom (fuel : nat) (tkn : Tokens) :
  forall (i : nat) (acc elems : list ElementData) (i' : nat),
    collect fuel tkn i acc = Ret (Some (elems, i')) ->
    exists news,
      elems = (acc ++ news)%list /\
      elementsFrom tkn i news i' /\ inStatement tkn i' = false.
Proof.
  induction fuel as [|fuel IH]; intros i acc elems i'; [discriminate|].
  rewrite collect_unfold.
  destruct (inStatement tkn i) eqn:Hin.
  - destruct (parseElement tkn i) as [[e j]|] eqn:He; [|discriminate].
    intros H. apply IH in H as (news & -> & Hch & Hend).
    exists (e :: news). split; [rewrite <- app_assoc; reflexivity|].
    split; [econstructor; eassumption | exact Hend].
  - intros H; injection H as <- <-. exists [].
    split; [rewrite app_nil_r; reflexivity|].
    split; [constructor | exact Hin].
Qed.

(** Along the elements that the grammar reads, [collect] goes from [i] to
    [k] and has counter left. *)
Lemma collect_along (tkn : Tokens) (i : nat) (es : list ElementData) (k : nat) :
  elementsFrom tkn i es k ->
  forall (fuel : nat) (acc : list ElementData),
    (List.length tkn - i < fuel)%nat ->
    exists fuel',
      (List.length tkn - k < fuel')%nat /\
      collect fuel tkn i acc = collect fuel' tkn k (acc ++ es).
Proof.
  induction 1 as [i|i e j es k Hin He Hch IH]; intros fuel acc Hf.
  - exists fuel. rewrite app_nil_r. split; [exact Hf | reflexivity].
  - destruct fuel as [|fuel]; [lia|].
    rewrite collect_unfold, Hin, He.
    pose proof (parseElement_advances _ _ _ _ He) as Hadv.
    assert (Hi : (i < List.length tkn)%nat).
    { unfold inStatement in Hin. apply andb_prop in Hin as [Hlt _].
      apply Nat.ltb_lt in Hlt. exact Hlt. }
    destruct (IH fuel (acc ++ [e])%list) as (fuel' & Hf' & E); [lia|].
    exists fuel'. split; [exact Hf'|].
    rewrite E, <- app_assoc. reflexivity.
Qed.

(** The modifier loop decodes the [Affine] elements and nothing else. *)
Lemma modifiersOf_transforms (elems : list ElementData) (mods : list Modifier) :
  modifiersOf pow elems mods
  = (r <- transformsOf pow (filter isAffine elems) ;; Ret (mods ++ r)%list).
Proof.
  revert mods. induction elems as [|e elems IH]; intros mods.
  - cbn. rewrite app_nil_r. reflexivity.
  - rewrite modifiersOf_cons. cbn [filter]. unfold isAffine at 1.
    destruct (String.eqb (type e) "Affine").
    + cbn [transformsOf].
      destruct (affine_loop pow 9 0 (members e) []) as [a|f]; cbn [bind]; [|reflexivity].
      rewrite IH.
      destruct (transformsOf pow (filter isAffine elems)) as [r|f]; cbn [bind];
        [rewrite <- app_assoc|]; reflexivity.
    + apply IH.
Qed.

(** C10.  A statement is assembled exactly when the grammar reads a first
    element and further elements, one after the other, from the index of
    the statement to the index at which the statement ends, the atoms of the
    first element are obtained, and the [Affine] elements among the further
    ones decode.  The statement then holds those atoms and, when the first
    type name is a grouping keyword, an element with those atoms and one
    transform for each further [Affine] element, in order: a further element
    with another type name adds no atom and no modifier, and whatever its
    members are it causes no failure.  Every further element is checked by
    the grammar: when, after some elements, the statement goes on at a token
    where [parseElement] accepts nothing, the statement is refused. *)
Theorem later_non_affine_elements_inert (tkn : Tokens) (i : nat) :
  (forall (st : Statement ElementType) (i' : nat),
      statement elementTypeFromString pow tkn i = Ret (Some (st, i')) <->
      exists (first : ElementData) (rest : list ElementData)
             (ats : list Atom) (mods : list Modifier),
        elementsFrom tkn i (first :: rest) i' /\
        inStatement tkn i' = false /\
        mainElement first = Ret ats /\
        transformsOf pow (filter isAffine rest) = Ret mods /\
        st = {| timelineAtoms := ats;
                timelineElem :=
                  option_map (fun ty => {| el_type := ty; el_atoms := ats;
                                           el_modifiers := mods |})
                             (elementTypeFromString (type first)) |}) /\
  (forall (es : list ElementData) (j : nat),
      elementsFrom tkn i es j ->
      inStatement tkn j = true ->
      parseElement tkn j = None ->
      statement elementTypeFromString pow tkn i = Ret None).
Proof.
  split.
  - intros st i'. unfold statement. split.
    + intros H.
      apply bind_Ret_inv in H as ([[elems j]|] & Hc & H); [|discriminate].
      apply bind_Ret_inv in H as ([st'|] & Ha & H); cbn in H; [|discriminate].
      injection H as -> ->.
      apply collect_elementsFrom in Hc as (news & E & Hch & Hend).
      cbn in E. subst news.
      destruct elems as [|first rest]; [discriminate|].
      unfold assemble in Ha.
      apply bind_Ret_inv in Ha as (ats & Hm & Ha).
      rewrite modifiersOf_transforms in Ha.
      apply bind_Ret_inv in Ha as (mods & Hmods & Ha).
      apply bind_Ret_inv in Hmods as (r & Hr & Hmods).
      cbn in Hmods. injection Hmods as <-.
      injection Ha as <-.
      exists first, rest, ats, r. repeat split; assumption.
    + intros (first & rest & ats & mods & Hch & Hend & Hm & Hr & ->).
      destruct (collect_along _ _ _ _ Hch (S (List.length tkn)) []) as (fuel & Hf & E);
        [lia|].
      rewrite E. destruct fuel as [|fuel]; [lia|].
      rewrite collect_unfold, Hend. cbn [bind app].
      unfold assemble. rewrite Hm. cbn [bind].
      rewrite modifiersOf_transforms, Hr. reflexivity.
  - intros es j Hch Hin Hno. unfold statement.
    destruct (collect_along _ _ _ _ Hch (S (List.length tkn)) []) as (fuel & Hf & E);
      [lia|].
    rewrite E. destruct fuel as [|fuel]; [lia|].
    rewrite collect_unfold, Hin, Hno. reflexivity.
Qed.

(** *** Brush statements *)

(** C6, as the code has it: with the two members separated by a blank and
    the point data one window of eight digits, the statement yields one
    stroke of diameter 10 with the one point (0, 1) whose pressure is the
    single-precision quotient of 10 by 1295.  The text may end at the
    bracket or at a semicolon. *)
Theorem parse_brush_statement :
  let stroke :=
    {| diameter := 10;
       points := [{| x := 0; y := 1;
                     pressure := Float32.div (Float32.of_int 10) (Float32.of_int 1295) |}] |} in
  (exists sk, parse elementTypeFromString pow (tokenize "Brush:[0A 0000010A]") = Ret (Some sk)
              /\ atoms sk = [AStroke stroke]) /\
  (exists sk, parse elementTypeFromString pow (tokenize "Brush:[0A 0000010A];") = Ret (Some sk)
              /\ atoms sk = [AStroke stroke]).
Proof.
  split; eexists; (split; [vm_compute; reflexivity | reflexivity]).
Qed.

(** The pressure of C6 as a number: the quotient is [16582885 / 2^31], the
    single-precision number nearest to [10/1295] (the error is below half a
    unit in the last place, [2^-32]). *)
Lemma pressure_10_1295 :
  Float32.div (Float32.of_int 10) (Float32.of_int 1295)
  = S754_finite false 16582885 (-31) /\
  2 * Z.abs (16582885 * 1295 - 10 * 2 ^ 31) < 1295 /\
  2 ^ 23 <= 16582885 < 2 ^ 24.
Proof. split; [vm_compute; reflexivity | lia]. Qed.

End Assembler.

Lemma later_non_affine_elements_inert_witness :
  (exists st i' first rest ats mods,
      SketchFormat.statement Sample.elementTypeFromString Sample.pow
        (SketchFormat.tokenize Sample.mixedStatement) 0 = Ret (Some (st, i')) /\
      SketchFormat.elementsFrom (SketchFormat.tokenize Sample.mixedStatement) 0
        (first :: rest) i' /\
      SketchFormat.inStatement (SketchFormat.tokenize Sample.mixedStatement) i' = false /\
      SketchFormat.mainElement first = Ret ats /\
      SketchFormat.transformsOf Sample.pow (filter SketchFormat.isAffine rest) = Ret mods /\
      st = {| SketchFormat.timelineAtoms := ats;
              SketchFormat.timelineElem :=
                option_map (fun ty => {| SketchFormat.el_type := ty;
                                         SketchFormat.el_atoms := ats;
                                         SketchFormat.el_modifiers := mods |})
                           (Sample.elementTypeFromString (SketchFormat.type first)) |}) /\
  SketchFormat.statement Sample.elementTypeFromString Sample.pow
    (SketchFormat.tokenize "Data:[000001] Bogus") 0 = Ret None.
Proof.
  split.
  - assert (H : exists st i',
               SketchFormat.statement Sample.elementTypeFromString Sample.pow
                 (SketchFormat.tokenize Sample.mixedStatement) 0 = Ret (Some (st, i'))).
    { eexists. eexists. vm_compute. reflexivity. }
    destruct H as (st & i' & H). exists st, i'.
    destruct (proj1 (proj1 (later_non_affine_elements_inert
                              Sample.ElementType Sample.elementTypeFromString Sample.pow
                              (SketchFormat.tokenize Sample.mixedStatement) 0) st i') H)
      as (first & rest & ats & mods & H1 & H2 & H3 & H4 & H5).
    exists first, rest, ats, mods. repeat split; assumption.
  - apply (proj2 (later_non_affine_elements_inert
                    Sample.ElementType Sample.elementTypeFromString Sample.pow
                    (SketchFormat.tokenize "Data:[000001] Bogus") 0)
             [{| SketchFormat.type := "Data"; SketchFormat.members := ["000001"] |}] 5%nat).
    + econstructor; [vm_compute; reflexivity | vm_compute; reflexivity | constructor].
    + vm_compute; reflexivity.
    + vm_compute; reflexivity.
Defined.

(** Two texts whose first statements differ in the further elements that
    are not [Affine] only, some of them with members that no main element
    could have: the statements assembled are the same.  A further element
    that the grammar refuses, a name it does not know or an [Affine] of
    three numbers, makes the statement refused. *)
Lemma later_elements_samples :
  (exists st i1 i2,
      SketchFormat.statement Sample.elementTypeFromString Sample.pow
        (SketchFormat.tokenize
           "Data:[000001] Marker:x Brush:[0] Affine:[1 0 0 0 1 0 0 0 1] Data:[zz],") 0
      = Ret (Some (st, i1)) /\
      SketchFormat.statement Sample.elementTypeFromString Sample.pow
        (SketchFormat.tokenize "Data:[000001] Affine:[1 0 0 0 1 0 0 0 1],") 0
      = Ret (Some (st, i2))) /\
  SketchFormat.statement Sample.elementTypeFromString Sample.pow
    (SketchFormat.tokenize "Data:[000001] Marker:x Bogus,") 0 = Ret None /\
  SketchFormat.statement Sample.elementTypeFromString Sample.pow
    (SketchFormat.tokenize "Data:[000001] Affine:[1 0 0],") 0 = Ret None.
Proof.
  split.
  - eexists. eexists. eexists. split; vm_compute; reflexivity.
  - split; vm_compute; reflexivity.
Qed.

(** C6, refuted as stated: the comma is a member of the element,
    it is read as point data, and the digits left over trip
    [assert(digits.empty())]; without the comma the ten digits leave two
    over and trip it as well. *)
Lemma parse_brush_with_comma_aborts :
  SketchFormat.tokenize "Brush:[0A, 000000010A]"
  = ["Brush"; ":"; "["; "0A"; ","; "000000010A"; "]"] /\
  Sample.parseText "Brush:[0A, 000000010A]" = Abort AssertionFailed /\
  Sample.parseText "Brush:[0A 000000010A]" = Abort AssertionFailed.
Proof. repeat split; vm_compute; reflexivity. Qed.

Lemma parse_element_and_atom_order_witness :
  Sample.parseText Sample.threeStatements = Ret (Some Sample.threeStatementsSketch) /\
  exists sts,
    SketchFormat.statementsOf Sample.elementTypeFromString Sample.pow
      (SketchFormat.tokenize Sample.threeStatements) = Ret (Some sts) /\
    SketchFormat.elements Sample.threeStatementsSketch = SketchFormat.groupsOf sts /\
    SketchFormat.atoms Sample.threeStatementsSketch = SketchFormat.blocksReversed sts.
Proof.
  split; [vm_compute; reflexivity|].
  apply (parse_element_and_atom_order Sample.ElementType Sample.elementTypeFromString
           Sample.pow (SketchFormat.tokenize Sample.threeStatements)
           Sample.threeStatementsSketch).
  vm_compute. reflexivity.
Defined.

(** C4, refuted as stated: on no tokens [parse] returns the empty
    optional, not an empty sketch. *)
Lemma parse_no_tokens_fails :
  Sample.parse [] = Ret None /\
  Sample.parse [] <> Ret (Some SketchFormat.emptySketch).
Proof. split; [reflexivity | discriminate]. Qed.

(** ** The raw format *)

Section Raw.
Import ParserBase RawFormat.

Lemma isWhitespace_isspace (c : ascii) : isWhitespace c = true -> isspace c = true.
Proof.
  unfold isWhitespace, isspace.
  destruct (Ascii.eqb_spec c " ") as [->|_]; [reflexivity|].
  destruct (Ascii.eqb_spec c "009") as [->|_]; [reflexivity|].
  destruct (Ascii.eqb_spec c "010") as [->|_]; [reflexivity|].
  destruct (Ascii.eqb_spec c "013") as [->|_]; [reflexivity|].
  discriminate.
Qed.

Lemma isspace_not_base36 (c : ascii) : isspace c = true -> isBase36 c = false.
Proof.
  unfold isspace.
  destruct (Ascii.eqb_spec c " ") as [->|_]; [reflexivity|]. simpl.
  unfold isBase36, isBase10, isLowercase, isUppercase.
  change (code "0") with 48. change (code "a") with 97. change (code "A") with 65.
  destruct (Z.leb_spec 9 (code c)), (Z.leb_spec (code c) 13); simpl;
    try discriminate.
  intros _.
  destruct (Z.leb_spec 48 (code c)); [lia|].
  destruct (Z.leb_spec 97 (code c)); [lia|].
  destruct (Z.leb_spec 65 (code c)); [lia|].
  reflexivity.
Qed.

(** The windows of a string of digits whose length is a multiple of four:
    the loop over [line = pre ++ rest], entered at the index where [rest]
    starts, appends the points of [rest]. *)
Lemma stroke_loop_points (n : nat) :
  forall (pre rest : string) (pts : list RawPoint),
    String.length rest = (4 * n)%nat -> allBase36 rest = true ->
    stroke_loop n (pre ++ rest) (String.length pre) pts
    = Ret (pts ++ pointsOf rest)%list.
Proof.
  induction n as [|n IH]; intros pre rest pts Hlen Hall.
  - destruct rest; [|discriminate]. simpl. rewrite app_nil_r. reflexivity.
  - destruct rest as [|a [|b [|c [|d rest]]]];
      try (cbn [String.length] in Hlen; lia).
    cbn [allBase36] in Hall.
    apply andb_prop in Hall as [Ha Hall]. apply andb_prop in Hall as [Hb Hall].
    apply andb_prop in Hall as [Hc Hall]. apply andb_prop in Hall as [Hd Hall].
    cbn [stroke_loop pointsOf].
    unfold substr.
    rewrite length_append.
    destruct (Nat.ltb_spec (String.length pre + String.length (String a (String b (String c (String d rest))))) (String.length pre + 0)) as [Hlt|_];
      [cbn [String.length] in Hlt; lia|].
    destruct (Nat.ltb_spec (String.length pre + String.length (String a (String b (String c (String d rest))))) (String.length pre + 2)) as [Hlt|_];
      [cbn [String.length] in Hlt; lia|].
    rewrite !substring_skip.
    cbn [substring bind].
    replace (substring 0 0 rest) with EmptyString by (destruct rest; reflexivity).
    rewrite (base36_two_digits a b Ha Hb). cbn [bind].
    rewrite (base36_two_digits c d Hc Hd). cbn [bind].
    replace (pre ++ String a (String b (String c (String d rest))))%string
      with ((pre ++ String a (String b (String c (String d EmptyString)))) ++ rest)%string
      by (rewrite append_assoc; reflexivity).
    replace (String.length pre + 4)%nat
      with (String.length (pre ++ String a (String b (String c (String d EmptyString)))))
      by (rewrite length_append; reflexivity).
    rewrite IH; [|cbn [String.length] in Hlen; lia | exact Hall].
    rewrite <- app_assoc. reflexivity.
Qed.

Lemma parse_line_points (line : string) (n : nat) :
  String.length line = (4 * n)%nat -> allBase36 line = true ->
  parse_line line = Ret (strokeOf line).
Proof.
  intros Hlen Hall. unfold parse_line.
  replace (trips_of line) with n.
  - pose proof (stroke_loop_points n EmptyString line [] Hlen Hall) as H.
    cbn [append String.length] in H. rewrite H. reflexivity.
  - unfold trips_of. rewrite Hlen.
    replace (4 * n + 3)%nat with (3 + n * 4)%nat by lia.
    rewrite Nat.div_add by lia. reflexivity.
Qed.

(** *** Words *)

Lemma skipws_words (s : string) : words (skipws s) = words s.
Proof.
  induction s as [|c s IH]; [reflexivity|].
  cbn [skipws words]. destruct (isspace c) eqn:Hc; [exact IH|].
  cbn [words]. rewrite Hc. reflexivity.
Qed.

Lemma skipws_length (s : string) : (String.length (skipws s) <= String.length s)%nat.
Proof.
  induction s as [|c s IH]; simpl; [lia|]. destruct (isspace c); simpl; lia.
Qed.

Lemma skipws_head (s : string) (c : ascii) (r : string) :
  skipws s = String c r -> isspace c = false.
Proof.
  induction s as [|d s IH]; simpl; [discriminate|].
  destruct (isspace d) eqn:Hd; [exact IH|].
  intros H; injection H as <- <-. exact Hd.
Qed.

(** The word at the head of a text that starts with a character of a word. *)
Lemma extract_words (s : string) (c : ascii) (r : string) :
  s = String c r -> isspace c = false ->
  words s = fst (extract s) :: words (snd (extract s)).
Proof.
  revert c r. induction s as [|c0 s IH]; intros c r Hs Hc; [discriminate|].
  injection Hs as -> ->.
  cbn [words extract]. rewrite Hc.
  destruct r as [|d r'].
  - reflexivity.
  - destruct (isspace d) eqn:Hd.
    + cbn [extract]. rewrite Hd. reflexivity.
    + rewrite (IH d r' eq_refl Hd).
      destruct (extract (String d r')) as [w rest]. reflexivity.
Qed.

Lemma extract_length (s : string) :
  (String.length (fst (extract s)) + String.length (snd (extract s)) = String.length s)%nat.
Proof.
  induction s as [|c s IH]; [reflexivity|].
  cbn [extract]. destruct (isspace c); [reflexivity|].
  destruct (extract s) as [w rest]. simpl in *. lia.
Qed.

(** *** What [verify] accepts *)

Lemma phase_advance (st : State) : exists k, (phase st + 1 = phase (advance st) + 4 * k)%nat.
Proof. destruct st; simpl; [exists 0%nat | exists 0%nat | exists 0%nat | exists 1%nat | exists 0%nat]; reflexivity. Qed.

Lemma phase_boundary (st : State) : atBoundary st = true <-> phase st = 0%nat.
Proof. destruct st; simpl; split; congruence. Qed.

(** In an accepted text, the word read from any state consists of digits,
    completes a whole number of points, and is followed by accepted text. *)
Lemma verify_extract (s : string) :
  forall st : State,
    verify_from st s = true ->
    allBase36 (fst (extract s)) = true /\
    (exists n, (phase st + String.length (fst (extract s)) = 4 * n)%nat) /\
    (exists b, atBoundary b = true /\ verify_from b (snd (extract s)) = true).
Proof.
  induction s as [|c s IH]; intros st Hv.
  - simpl in *. apply phase_boundary in Hv as Hp. rewrite Hp.
    repeat split; [exists 0%nat; reflexivity | exists st; auto].
  - cbn [verify_from] in Hv. cbn [extract].
    destruct (isBase36 c) eqn:Hc.
    + assert (Hsp : isspace c = false).
      { destruct (isspace c) eqn:E; [|reflexivity].
        apply isspace_not_base36 in E. congruence. }
      rewrite Hsp. destruct (IH _ Hv) as (Hall & [n Hn] & Hb).
      destruct (extract s) as [w rest]. cbn [fst snd] in *.
      repeat split.
      * cbn [allBase36]. rewrite Hc. exact Hall.
      * destruct (phase_advance st) as [k Hk]. exists (n + k)%nat.
        cbn [String.length]. lia.
      * exact Hb.
    + destruct (isWhitespace c) eqn:Hw; [|discriminate].
      destruct (atBoundary st) eqn:Hb; [|discriminate]. simpl in Hv.
      rewrite (isWhitespace_isspace c Hw). cbn [fst snd allBase36 String.length].
      apply phase_boundary in Hb as Hp. rewrite Hp.
      repeat split; [exists 0%nat; reflexivity | exists st; split; [exact Hb|]].
      cbn [verify_from]. rewrite Hc, Hw, Hb. exact Hv.
Qed.

Lemma verify_skipws (s : string) (b : State) :
  atBoundary b = true -> verify_from b s = true ->
  exists b', atBoundary b' = true /\ verify_from b' (skipws s) = true.
Proof.
  revert b. induction s as [|c s IH]; intros b Hb Hv.
  - exists b. auto.
  - cbn [skipws]. destruct (isspace c) eqn:Hsp.
    + cbn [verify_from] in Hv. rewrite (isspace_not_base36 c Hsp) in Hv.
      destruct (isWhitespace c); [|discriminate]. rewrite Hb in Hv. simpl in Hv.
      apply (IH S0); [reflexivity | exact Hv].
    + exists b. auto.
Qed.

Lemma extract_nonempty (c : ascii) (r : string) :
  isspace c = false -> (0 < String.length (fst (extract (String c r))))%nat.
Proof.
  intros Hc. cbn [extract]. rewrite Hc. destruct (extract r). simpl. lia.
Qed.

Lemma raw_parse_loop_words (fuel : nat) :
  forall (s : string) (acc : list RawStroke) (b : State),
    atBoundary b = true -> verify_from b s = true ->
    (String.length s < fuel)%nat ->
    parse_loop fuel s acc = Ret {| strokes := acc ++ map strokeOf (words s) |} /\
    Forall wordOk (words s).
Proof.
  induction fuel as [|fuel IH]; intros s acc b Hb Hv Hlt; [lia|].
  cbn [parse_loop].
  destruct (verify_skipws s b Hb Hv) as (b' & Hb' & Hv').
  rewrite <- (skipws_words s).
  pose proof (skipws_length s) as Hlen.
  destruct (skipws s) as [|c r] eqn:Hs1.
  - cbn [words map]. rewrite app_nil_r. split; [reflexivity | constructor].
  - pose proof (skipws_head s c r Hs1) as Hc.
    rewrite (extract_words (String c r) c r eq_refl Hc).
    destruct (verify_extract (String c r) b' Hv') as (Hall & [n Hn] & b'' & Hb'' & Hv'').
    pose proof (extract_length (String c r)) as Hel.
    pose proof (extract_nonempty c r Hc) as Hne.
    destruct (extract (String c r)) as [line s2]. cbn [fst snd] in *.
    apply phase_boundary in Hb'. rewrite Hb' in Hn. cbn [Nat.add] in Hn.
    rewrite (parse_line_points line n Hn Hall). cbn [bind].
    destruct (IH s2 (acc ++ [strokeOf line])%list b'' Hb'' Hv'' ltac:(lia)) as [Hp Hw].
    rewrite Hp. split.
    + cbn [map]. rewrite <- app_assoc. reflexivity.
    + constructor; [|exact Hw]. split; [exact Hall|]. exists n. split; lia.
Qed.

(** C9, as the code has it.  On a text that [verify] accepts, [parse]
    returns one stroke for each word of the text (a maximal run of
    characters other than whitespace), in order; the stroke of a word holds
    the word's windows of four digits in order, two digits of [x] and two of
    [y]; every word is made of digits and of whole windows. *)
Theorem raw_parse_one_stroke_per_word (text : string) :
  verify text = true ->
  parse text = Ret {| strokes := map strokeOf (words text) |} /\
  Forall wordOk (words text).
Proof.
  intros Hv. unfold parse.
  apply (raw_parse_loop_words (S (String.length text)) text [] S0 eq_refl Hv). lia.
Qed.

Lemma stroke_loop_not_fuel (trips : nat) (line : string) (i : nat) (pts : list RawPoint) :
  stroke_loop trips line i pts <> Abort OutOfFuel.
Proof.
  revert i pts. induction trips as [|trips IH]; intros i pts; cbn [stroke_loop];
    [discriminate|].
  repeat (apply bind_not_fuel;
          [first [apply substr_not_fuel | apply base36_not_fuel] | intros ? _]).
  apply IH.
Qed.

Lemma raw_parse_loop_not_fuel (fuel : nat) :
  forall (s : string) (acc : list RawStroke),
    (String.length s < fuel)%nat -> parse_loop fuel s acc <> Abort OutOfFuel.
Proof.
  induction fuel as [|fuel IH]; intros s acc Hlt; [lia|].
  cbn [parse_loop].
  pose proof (skipws_length s) as Hlen.
  destruct (skipws s) as [|c r] eqn:Hs1; [discriminate|].
  pose proof (skipws_head s c r Hs1) as Hc.
  pose proof (extract_length (String c r)) as Hel.
  pose proof (extract_nonempty c r Hc) as Hne.
  destruct (extract (String c r)) as [line s2]. cbn [fst snd] in *.
  apply bind_not_fuel.
  - unfold parse_line. apply bind_not_fuel; [apply stroke_loop_not_fuel | discriminate].
  - intros st _. apply IH. lia.
Qed.

(** [parse] never uses up the counter of the model. *)
Theorem raw_parse_never_out_of_fuel (text : string) : parse text <> Abort OutOfFuel.
Proof. apply raw_parse_loop_not_fuel. lia. Qed.

Lemma raw_parse_one_stroke_per_word_witness :
  verify "0A0B 1C1D" = true /\
  parse "0A0B 1C1D" = Ret {| strokes := map strokeOf (words "0A0B 1C1D") |} /\
  Forall wordOk (words "0A0B 1C1D").
Proof.
  split; [reflexivity|].
  apply (raw_parse_one_stroke_per_word "0A0B 1C1D"). reflexivity.
Defined.

(** C9, refuted as stated: the accepted text ["0A0B 1C1D"] is one
    line, and [parse] returns two strokes for it. *)
Lemma raw_parse_two_strokes_on_one_line :
  verify "0A0B 1C1D" = true /\
  nonBlankLines "0A0B 1C1D" = ["0A0B 1C1D"] /\
  parse "0A0B 1C1D"
  = Ret {| strokes := [ {| points := [{| x := 10; y := 11 |}] |};
                        {| points := [{| x := 48; y := 49 |}] |} ] |}.
Proof. repeat split; vm_compute; reflexivity. Qed.

End Raw.

(** * Further properties *)

(** ** The decoders *)

Section CodecMore.
Import ParserBase.


Lemma base36_loop_rejects (T : IntType) (s : string) (r : Z) :
  allBase36 s = false -> base36_loop T s r = Abort AssertionFailed.
Proof.
  revert r. induction s as [|c s IH]; intros r H; cbn in *; [discriminate|].
  destruct (isBase36 c); [apply IH; exact H | reflexivity].
Qed.

Lemma base36_loop_accepts (T : IntType) (s : string) :
  allBase36 s = true -> base36_loop T s 0 = Ret (wrap T (value36 s 0)).
Proof.
  intros H. replace 0 with (wrap T 0) at 1 by (destruct T; reflexivity).
  apply base36_loop_value, H.
Qed.

(** [base36] fails an assertion exactly on a string longer than [N] or
    holding a character that is not a base-36 digit; on every other string
    it returns. *)
Theorem base36_aborts_iff (N : nat) (T : IntType) (s : string) :
  base36 N T s = Abort AssertionFailed <->
  (N < String.length s)%nat \/ allBase36 s = false.
Proof.
  unfold base36, base36_with.
  destruct (Nat.leb_spec (String.length s) N) as [Hle|Hlt].
  - destruct (allBase36 s) eqn:Hall.
    + rewrite (base36_loop_accepts T s Hall). cbn [bind].
      split; [|intros [H|H]; [lia | discriminate]].
      destruct (is_signed T); [destruct (geq _ _ _ _)|]; discriminate.
    + rewrite (base36_loop_rejects T s 0 Hall). cbn [bind]. split; auto.
  - split; auto.
Qed.

Lemma wrap_unsigned_small (T : IntType) (v : Z) :
  is_signed T = false -> 0 <= v < 2 ^ bits T -> wrap T v = v.
Proof. intros Hs Hv. unfold wrap. rewrite Hs. apply Z.mod_small, Hv. Qed.

Lemma base36_unsigned_value (N : nat) (T : IntType) (s : string) :
  is_signed T = false -> static_assert_ok N T = true ->
  (String.length s <= N)%nat -> allBase36 s = true ->
  base36 N T s = Ret (value36 s 0).
Proof.
  intros Hs Hok Hlen Hall.
  pose proof (value36_bound s 0 Hall ltac:(lia)) as Hv.
  pose proof (pow36_le _ _ Hlen) as Hle.
  apply Z.leb_le in Hok.
  unfold base36, base36_with.
  destruct (Nat.leb_spec (String.length s) N) as [_|]; [|lia].
  rewrite (base36_loop_accepts T s Hall). cbn [bind]. rewrite Hs.
  rewrite wrap_unsigned_small by (auto; lia). reflexivity.
Qed.

(** At an unsigned type that passes the static assertion, [base36] returns
    the value of the digits, most significant digit first, at every width
    [N]: no step of the loop wraps, and the value is below [36^length]. *)
Theorem base36_unsigned (N : nat) (T : IntType) (s : string) :
  is_signed T = false -> static_assert_ok N T = true ->
  (String.length s <= N)%nat -> allBase36 s = true ->
  base36 N T s = Ret (value36 s 0) /\
  0 <= value36 s 0 < 36 ^ Z.of_nat (String.length s).
Proof.
  intros Hs Hok Hlen Hall. split; [apply base36_unsigned_value; assumption|].
  pose proof (value36_bound s 0 Hall ltac:(lia)). lia.
Qed.

Lemma base36_unsigned_witness :
  is_signed uint32_t = false /\ static_assert_ok 2 uint32_t = true /\
  (String.length "0A" <= 2)%nat /\ allBase36 "0A" = true /\
  base36 2 uint32_t "0A" = Ret (value36 "0A" 0) /\
  0 <= value36 "0A" 0 < 36 ^ Z.of_nat (String.length "0A").
Proof.
  split; [reflexivity|]. split; [reflexivity|]. split; [cbn; lia|]. split; [reflexivity|].
  apply (base36_unsigned 2 uint32_t "0A"); reflexivity.
Defined.

(** Up to width 6, [base36] at a signed type returns the one number of
    [-36^N/2 .. 36^N/2 - 1] that is congruent to the value of the digits
    modulo [36^N]. *)
Theorem base36_signed_range (N : nat) (T : IntType) (s : string) :
  is_signed T = true -> static_assert_ok N T = true -> (1 <= N <= 6)%nat ->
  (String.length s <= N)%nat -> allBase36 s = true ->
  exists r : Z,
    base36 N T s = Ret r /\
    r mod 36 ^ Z.of_nat N = value36 s 0 /\
    - (36 ^ Z.of_nat N / 2) <= r < 36 ^ Z.of_nat N / 2.
Proof.
  intros Hs Hok HN Hlen Hall.
  pose proof (value36_bound s 0 Hall ltac:(lia)) as Hv.
  pose proof (pow36_le _ _ Hlen) as Hle.
  exists (signed36 N (value36 s 0)).
  split; [apply base36_signed; try assumption; lia|].
  unfold signed36.
  assert (HE : 36 ^ Z.of_nat N = 2 * (18 * 36 ^ Z.of_nat (N - 1))).
  { replace (Z.of_nat N) with (Z.succ (Z.of_nat (N - 1))) at 1 by lia.
    rewrite Z.pow_succ_r by lia. lia. }
  assert (0 < 36 ^ Z.of_nat (N - 1)) by (apply Z.pow_pos_nonneg; lia).
  set (E := 36 ^ Z.of_nat N) in *. set (h := 18 * 36 ^ Z.of_nat (N - 1)) in *.
  set (v := value36 s 0) in *.
  assert (Hh : E / 2 = h) by (rewrite HE; Z.div_mod_to_equations; lia).
  rewrite Hh.
  destruct (Z.ltb_spec v h).
  - split; [apply Z.mod_small; lia | lia].
  - split; [|lia]. symmetry. apply (Z.mod_unique_pos _ _ (-1)); lia.
Qed.

Lemma base36_signed_range_witness :
  exists r : Z,
    base36 3 int16_t "ZZZ" = Ret r /\
    r mod 36 ^ Z.of_nat 3 = value36 "ZZZ" 0 /\
    - (36 ^ Z.of_nat 3 / 2) <= r < 36 ^ Z.of_nat 3 / 2.
Proof.
  apply (base36_signed_range 3 int16_t "ZZZ"); try reflexivity; cbn; lia.
Defined.

(** *** Letter case *)

Lemma upper_digit (c : ascii) :
  isBase36 (upper c) = isBase36 c /\
  (isBase36 c = true -> digit36 (upper c) = digit36 c).
Proof.
  destruct c as [[] [] [] [] [] [] [] []]; vm_compute; split; try reflexivity;
    intros H; try reflexivity; discriminate H.
Qed.

Lemma uppercase_length (s : string) : String.length (uppercase s) = String.length s.
Proof. induction s as [|c s IH]; cbn; [reflexivity | rewrite IH; reflexivity]. Qed.

Lemma base36_loop_uppercase (T : IntType) (s : string) (r : Z) :
  base36_loop T (uppercase s) r = base36_loop T s r.
Proof.
  revert r. induction s as [|c s IH]; intros r; cbn [uppercase base36_loop]; [reflexivity|].
  destruct (upper_digit c) as [Hb Hd]. rewrite Hb.
  destruct (isBase36 c) eqn:Hc; [|reflexivity].
  rewrite (Hd eq_refl). apply IH.
Qed.

(** A lower-case letter and its upper-case form are the same digit:
    [base36] returns, or aborts, alike on a string and on its upper-case
    form. *)
Theorem base36_case_insensitive (N : nat) (T : IntType) (s : string) :
  base36 N T (uppercase s) = base36 N T s.
Proof.
  unfold base36, base36_with.
  rewrite uppercase_length, base36_loop_uppercase. reflexivity.
Qed.

(** *** Decimal integers *)
Lemma wrap_idem (T : IntType) (x : Z) : wrap T (wrap T x) = wrap T x.
Proof. apply wrap_congr, wrap_mod_ge. lia. Qed.

Lemma base10_loop_rejects (s : string) (r : Z) :
  allBase10 s = false -> base10_loop s r = Abort AssertionFailed.
Proof.
  revert r. induction s as [|c s IH]; intros r H; cbn in *; [discriminate|].
  destruct (isBase10 c); [apply IH; exact H | reflexivity].
Qed.

Lemma base10_loop_value (s : string) (r : Z) :
  allBase10 s = true ->
  base10_loop s (wrap int32_t r) = Ret (wrap int32_t (value10 s r)).
Proof.
  revert r. induction s as [|c s IH]; intros r Hs;
    cbn [base10_loop value10 allBase10] in *; [reflexivity|].
  apply andb_prop in Hs as [Hc Hs]. rewrite Hc.
  rewrite <- IH by exact Hs. f_equal.
  unfold arith at 1. change (common int32_t int32_t) with int32_t.
  apply wrap_congr.
  rewrite Zplus_mod, (wrap_mod_ge int32_t int32_t (code c - code "0")) by lia.
  rewrite wrap_arith_mul by (vm_compute; discriminate).
  rewrite wrap_mod_ge by lia.
  rewrite Zmult_mod, wrap_mod_ge, <- Zmult_mod by lia.
  rewrite <- Zplus_mod. reflexivity.
Qed.

Lemma value10_nonneg (s : string) (r : Z) :
  allBase10 s = true -> 0 <= r -> 0 <= value10 s r.
Proof.
  revert r. induction s as [|c s IH]; intros r Hs Hr;
    cbn [value10 allBase10] in *; [exact Hr|].
  apply andb_prop in Hs as [Hc Hs]. apply IH; [exact Hs|].
  unfold isBase10 in Hc. apply andb_prop in Hc as [H0 _]. apply Z.leb_le in H0. lia.
Qed.

Lemma base10_int_closed (c : ascii) (rest : string) :
  allBase10 (unsignedPart (String c rest)) = true ->
  base10_int (String c rest)
  = Ret (wrap int32_t (signOf (String c rest) * value10 (unsignedPart (String c rest)) 0)).
Proof.
  unfold base10_int, unsignedPart, signOf.
  destruct (Ascii.eqb_spec c "+") as [->|Hp]; cbn [orb].
  - intros H. change (Ascii.eqb "+" "-") with false. cbv iota.
    replace 0 with (wrap int32_t 0) at 1 by reflexivity.
    rewrite base10_loop_value by exact H. cbn [bind]. change (1 =? -1) with false.
    cbv iota. f_equal. f_equal. lia.
  - destruct (Ascii.eqb_spec c "-") as [->|Hm]; intros H.
    + replace 0 with (wrap int32_t 0) at 1 by reflexivity.
      rewrite base10_loop_value by exact H. cbn [bind]. change (-1 =? -1) with true.
      cbv iota. f_equal. apply wrap_congr.
      rewrite <- (Z.mul_1_l (wrap _ _)), <- Z.mul_opp_l.
      rewrite Zmult_mod, wrap_mod_ge, <- Zmult_mod by lia. reflexivity.
    + replace 0 with (wrap int32_t 0) at 1 by reflexivity.
      rewrite base10_loop_value by exact H. cbn [bind]. change (1 =? -1) with false.
      cbv iota. f_equal. f_equal. lia.
Qed.

(** [base10<int>] on an optional sign followed by decimal digits only
    (no digit at all is allowed) returns the value of the digits, negated
    after a minus sign and reduced to [int]; a value below [2^31] is
    returned as it is. *)
Theorem base10_int_value (str : string) :
  (0 < String.length str)%nat -> allBase10 (unsignedPart str) = true ->
  let v := value10 (unsignedPart str) 0 in
  base10_int str = Ret (wrap int32_t (signOf str * v)) /\
  0 <= v /\
  (v < 2 ^ 31 -> base10_int str = Ret (signOf str * v)).
Proof.
  intros Hlen Hall v. destruct str as [|c rest]; [cbn in Hlen; lia|].
  pose proof (value10_nonneg _ 0 Hall ltac:(lia)) as Hv. fold v in Hv.
  split; [apply base10_int_closed; exact Hall|]. split; [exact Hv|].
  intros Hsmall. rewrite base10_int_closed by exact Hall. fold v. f_equal.
  assert (Hs : signOf (String c rest) = 1 \/ signOf (String c rest) = -1).
  { unfold signOf. destruct (Ascii.eqb c "-"); auto. }
  unfold wrap. cbv beta iota delta [is_signed bits].
  change (2 ^ (32 - 1)) with 2147483648 in *. change (2 ^ 32) with 4294967296.
  change (2 ^ 31) with 2147483648 in Hsmall.
  destruct Hs as [-> | ->]; Z.div_mod_to_equations; lia.
Qed.

Lemma base10_int_value_witness :
  (0 < String.length "-42")%nat /\ allBase10 (unsignedPart "-42") = true /\
  base10_int "-42" = Ret (wrap int32_t (signOf "-42" * value10 (unsignedPart "-42") 0)) /\
  0 <= value10 (unsignedPart "-42") 0 /\
  (value10 (unsignedPart "-42") 0 < 2 ^ 31 ->
   base10_int "-42" = Ret (signOf "-42" * value10 (unsignedPart "-42") 0)).
Proof.
  split; [cbn; lia|]. split; [reflexivity|].
  apply (base10_int_value "-42"); [cbn; lia | reflexivity].
Defined.

(** The two ways [base10<int>] goes wrong: [front()] of an empty string,
    and the assertion, on a character after the sign that is not a decimal
    digit. *)
Theorem base10_int_aborts (str : string) :
  (base10_int str = Abort OutOfRange <-> str = "") /\
  (base10_int str = Abort AssertionFailed <->
   (0 < String.length str)%nat /\ allBase10 (unsignedPart str) = false).
Proof.
  destruct str as [|c rest].
  - split; split; try reflexivity; try discriminate. intros [H _]. cbn in H. lia.
  - destruct (allBase10 (unsignedPart (String c rest))) eqn:Hall.
    + rewrite (base10_int_closed c rest Hall).
      split; split; try discriminate. intros [_ H]. discriminate H.
    + assert (H : base10_int (String c rest) = Abort AssertionFailed).
      { revert Hall. unfold base10_int, unsignedPart.
        destruct (Ascii.eqb c "+"); cbn [orb];
          [|destruct (Ascii.eqb c "-")]; intros Hall;
          rewrite (base10_loop_rejects _ 0 Hall); reflexivity. }
      rewrite H. split; split; try discriminate; auto.
      intros _. split; [cbn; lia | reflexivity].
Qed.

(** *** Decimal numbers with a fraction *)
Section FloatDecode.
Variable pow : Float32.t -> nat -> Float32.t.

Lemma isBase10_not_mark (c : ascii) :
  isBase10 c = true ->
  Ascii.eqb c "." = false /\ Ascii.eqb c "+" = false /\ Ascii.eqb c "-" = false.
Proof.
  destruct c as [[] [] [] [] [] [] [] []]; vm_compute; intros H;
    try discriminate H; repeat split.
Qed.

Lemma find_dot (a b : string) :
  allBase10 a = true -> find_char "." (a ++ String "." b) = Some (String.length a).
Proof.
  induction a as [|c a IH]; cbn [allBase10 append find_char String.length]; intros H.
  - reflexivity.
  - apply andb_prop in H as [Hc H].
    destruct (isBase10_not_mark c Hc) as [-> _]. rewrite (IH H). reflexivity.
Qed.

Lemma substring_prefix (a r : string) : substring 0 (String.length a) (a ++ r) = a.
Proof.
  induction a as [|c a IH]; cbn [append String.length substring].
  - destruct r; reflexivity.
  - rewrite IH. reflexivity.
Qed.

Lemma substring_all (b : string) : substring 0 (String.length b) b = b.
Proof.
  induction b as [|c b IH]; cbn [String.length substring]; [reflexivity|].
  rewrite IH. reflexivity.
Qed.

Lemma base10_int_digits (a : string) :
  allBase10 a = true -> (0 < String.length a)%nat ->
  base10_int a = Ret (wrap int32_t (value10 a 0)).
Proof.
  intros Hall Hlen. destruct a as [|c a]; [cbn in Hlen; lia|].
  pose proof Hall as Hc. cbn [allBase10] in Hc. apply andb_prop in Hc as [Hc _].
  destruct (isBase10_not_mark c Hc) as (_ & Hp & Hm).
  assert (Hu : unsignedPart (String c a) = String c a)
    by (unfold unsignedPart; rewrite Hp, Hm; reflexivity).
  rewrite base10_int_closed by (rewrite Hu; exact Hall).
  rewrite Hu. unfold signOf. rewrite Hm. f_equal. f_equal. lia.
Qed.

(* the part of base10<float> after the sign has been removed *)
Lemma float_tail (sign : Z) (a b : string) :
  allBase10 a = true -> allBase10 b = true ->
  (r1 <- (if Nat.eqb (String.length a) 0 then Ret Float32.zero
          else s <- substr (a ++ String "." b) 0 (String.length a) ;;
               n <- base10_int s ;;
               Ret (Float32.add Float32.zero (Float32.of_int n))) ;;
   r2 <- (if Nat.eqb (String.length (a ++ String "." b) - (String.length a + 1)) 0
          then Ret r1
          else s <- substr (a ++ String "." b) (String.length a + 1)
                      (String.length (a ++ String "." b) - (String.length a + 1)) ;;
               n <- base10_int s ;;
               Ret (Float32.add r1
                      (Float32.mul (Float32.of_int n)
                         (pow Float32.tenth
                            (String.length (a ++ String "." b) - (String.length a + 1)))))) ;;
   Ret (Float32.mul (Float32.of_int sign) r2))
  = Ret (fixedPoint pow sign a b).
Proof.
  intros Ha Hb.
  rewrite length_append. cbn [String.length].
  replace (String.length a + S (String.length b) - (String.length a + 1))%nat
    with (String.length b) by lia.
  unfold fixedPoint, substr.
  rewrite length_append. cbn [String.length].
  destruct (Nat.ltb_spec (String.length a + S (String.length b)) 0); [lia|].
  destruct (Nat.ltb_spec (String.length a + S (String.length b)) (String.length a + 1));
    [lia|].
  rewrite substring_prefix.
  replace (String.length a + 1)%nat with (String.length (a ++ ".") + 0)%nat
    by (rewrite length_append; cbn; lia).
  replace (a ++ String "." b)%string with ((a ++ ".") ++ b)%string
    by (rewrite append_assoc; reflexivity).
  rewrite substring_skip, substring_all.
  destruct (Nat.eqb_spec (String.length a) 0) as [E0|E0].
  - cbn [bind]. destruct (Nat.eqb_spec (String.length b) 0) as [E1|E1]; [reflexivity|].
    cbn [bind]. rewrite (base10_int_digits b Hb) by lia. reflexivity.
  - cbn [bind]. rewrite (base10_int_digits a Ha) by lia. cbn [bind].
    destruct (Nat.eqb_spec (String.length b) 0) as [E1|E1]; [reflexivity|].
    cbn [bind]. rewrite (base10_int_digits b Hb) by lia. reflexivity.
Qed.

(** [base10<float>] on a text [sign digits . digits], where the sign and
    either run of digits may be missing: the dot is found, both parts are
    decoded as integers inside the text, and the result is
    [sign * (int + frac * pow(0.1, number of digits of frac))] in single
    precision. *)
Theorem base10_float_decimal (sgn a b : string) :
  sgn = "" \/ sgn = "+" \/ sgn = "-" ->
  allBase10 a = true -> allBase10 b = true ->
  base10_float pow (sgn ++ a ++ String "." b)
  = Ret (fixedPoint pow (if String.eqb sgn "-" then -1 else 1) a b).
Proof.
  intros Hsgn Ha Hb. unfold base10_float.
  destruct Hsgn as [-> | [-> | ->]]; cbn [append find_char String.eqb Ascii.eqb Bool.eqb].
  - rewrite (find_dot a b Ha).
    destruct a as [|d a].
    + apply (float_tail 1 "" b); [reflexivity | exact Hb].
    + pose proof Ha as Ha'. cbn [allBase10] in Ha'. apply andb_prop in Ha' as [Hd _].
      destruct (isBase10_not_mark d Hd) as (_ & Hp & Hm).
      cbn [append]. rewrite Hp, Hm. apply (float_tail 1 (String d a) b Ha Hb).
  - rewrite (find_dot a b Ha). apply (float_tail 1 a b Ha Hb).
  - rewrite (find_dot a b Ha). apply (float_tail (-1) a b Ha Hb).
Qed.

End FloatDecode.

Lemma base10_float_decimal_witness :
  ("-" = "" \/ "-" = "+" \/ "-" = "-") /\
  allBase10 "1" = true /\ allBase10 "5" = true /\
  base10_float Sample.pow ("-" ++ "1" ++ String "." "5")
  = Ret (fixedPoint Sample.pow (if String.eqb "-" "-" then -1 else 1) "1" "5").
Proof.
  split; [right; right; reflexivity|]. split; [reflexivity|]. split; [reflexivity|].
  apply (base10_float_decimal Sample.pow "-" "1" "5"); [right; right; reflexivity | reflexivity ..].
Defined.

End CodecMore.

Section FloatBounds.
Import ParserBase.
Variable pow : Float32.t -> nat -> Float32.t.

Lemma base10_int_inBounds (s : string) : (0 < String.length s)%nat -> inBounds (base10_int s).
Proof.
  intros Hlen. destruct s as [|c rest]; [cbn in Hlen; lia|].
  destruct (allBase10 (unsignedPart (String c rest))) eqn:Hall.
  - left. eexists. apply base10_int_closed, Hall.
  - right. revert Hall. unfold base10_int, unsignedPart.
    destruct (Ascii.eqb c "+"); cbn [orb];
      [|destruct (Ascii.eqb c "-")]; intros Hall;
      rewrite (base10_loop_rejects _ 0 Hall); reflexivity.
Qed.

Lemma bind_inBounds {A B} (r : run A) (k : A -> run B) :
  inBounds r -> (forall a, inBounds (k a)) -> inBounds (bind r k).
Proof.
  intros [[a ->] | ->] Hk; [apply Hk | right; reflexivity].
Qed.

Lemma substring_length (s : string) :
  forall n m : nat,
    (n + m <= String.length s)%nat -> String.length (substring n m s) = m.
Proof.
  induction s as [|c s IH]; intros n m H; cbn [String.length] in H.
  - assert (n = 0%nat) by lia. assert (m = 0%nat) by lia. subst. reflexivity.
  - destruct n as [|n]; cbn [substring].
    + destruct m as [|m]; [reflexivity|]. cbn [String.length]. rewrite IH by lia.
      reflexivity.
    + apply IH. lia.
Qed.

Lemma find_char_lt (c : ascii) (s : string) (k : nat) :
  find_char c s = Some k -> (k < String.length s)%nat.
Proof.
  revert k. induction s as [|d s IH]; intros k; cbn [find_char String.length];
    [discriminate|].
  destruct (Ascii.eqb d c).
  - intros H; injection H as <-. lia.
  - destruct (find_char c s) as [j|]; [|discriminate].
    cbn [option_map]. intros H; injection H as <-. specialize (IH j eq_refl). lia.
Qed.

Lemma float_tail_inBounds (sign : Z) (str : string) (dot : nat) :
  (dot < String.length str)%nat ->
  inBounds
    (r1 <- (if Nat.eqb dot 0 then Ret Float32.zero
            else s <- substr str 0 dot ;;
                 n <- base10_int s ;;
                 Ret (Float32.add Float32.zero (Float32.of_int n))) ;;
     r2 <- (if Nat.eqb (String.length str - (dot + 1)) 0 then Ret r1
            else s <- substr str (dot + 1) (String.length str - (dot + 1)) ;;
                 n <- base10_int s ;;
                 Ret (Float32.add r1
                        (Float32.mul (Float32.of_int n)
                           (pow Float32.tenth (String.length str - (dot + 1)))))) ;;
     Ret (Float32.mul (Float32.of_int sign) r2)).
Proof.
  intros Hdot.
  apply bind_inBounds.
  - destruct (Nat.eqb_spec dot 0); [left; eexists; reflexivity|].
    unfold substr. destruct (Nat.ltb_spec (String.length str) 0); [lia|]. cbn [bind].
    apply bind_inBounds; [|intros; left; eexists; reflexivity].
    apply base10_int_inBounds. rewrite substring_length by lia. lia.
  - intros r1. apply bind_inBounds; [|intros; left; eexists; reflexivity].
    destruct (Nat.eqb_spec (String.length str - (dot + 1)) 0); [left; eexists; reflexivity|].
    unfold substr. destruct (Nat.ltb_spec (String.length str) (dot + 1)); [lia|].
    cbn [bind].
    apply bind_inBounds; [|intros; left; eexists; reflexivity].
    apply base10_int_inBounds. rewrite substring_length by lia. lia.
Qed.

Lemma base10_float_inBounds (t : string) :
  (0 < String.length t)%nat -> inBounds (base10_float pow t).
Proof.
  intros Hlen. unfold base10_float.
  destruct (find_char "." t) as [dot|] eqn:Hf.
  - destruct t as [|c rest]; [cbn in Hlen; lia|].
    pose proof (find_char_lt _ _ _ Hf) as Hdot.
    destruct (Ascii.eqb_spec c "+") as [->|Hp];
      [|destruct (Ascii.eqb_spec c "-") as [->|Hm]].
    + cbn [find_char] in Hf. change (Ascii.eqb "+" ".") with false in Hf. cbv iota in Hf.
      destruct (find_char "." rest) as [j|] eqn:Hj; [|discriminate Hf].
      injection Hf as <-. cbn [Nat.pred].
      apply float_tail_inBounds. exact (find_char_lt _ _ _ Hj).
    + cbn [find_char] in Hf. change (Ascii.eqb "-" ".") with false in Hf. cbv iota in Hf.
      destruct (find_char "." rest) as [j|] eqn:Hj; [|discriminate Hf].
      injection Hf as <-. cbn [Nat.pred].
      apply float_tail_inBounds. exact (find_char_lt _ _ _ Hj).
    + apply float_tail_inBounds. exact Hdot.
  - apply bind_inBounds; [apply base10_int_inBounds, Hlen | intros; left; eexists; reflexivity].
Qed.

(** [base10<float>] reads outside its argument only when the argument is
    empty: on every other string [substr] and [front()] stay inside the
    string. *)
Theorem base10_float_out_of_range (t : string) :
  base10_float pow t = Abort OutOfRange <-> t = "".
Proof.
  split.
  - intros H. destruct t as [|c rest]; [reflexivity|].
    destruct (base10_float_inBounds (String c rest)) as [[v Hv] | Hv];
      [cbn; lia | rewrite Hv in H; discriminate H | rewrite Hv in H; discriminate H].
  - intros ->. reflexivity.
Qed.

End FloatBounds.

(** ** The raw format, beyond accepted texts *)

Section RawMore.
Import ParserBase RawFormat.

Lemma base36_not_space (c : ascii) : isBase36 c = true -> isspace c = false.
Proof.
  intros H. destruct (isspace c) eqn:E; [|reflexivity].
  apply isspace_not_base36 in E. congruence.
Qed.

Lemma words_head (s : string) :
  words s = ((if Nat.eqb (String.length (fst (extract s))) 0 then [] else [fst (extract s)])
             ++ words (snd (extract s)))%list.
Proof.
  destruct s as [|c r]; [reflexivity|].
  destruct (isspace c) eqn:Hc.
  - cbn [extract]. rewrite Hc. reflexivity.
  - rewrite (extract_words (String c r) c r eq_refl Hc).
    pose proof (extract_nonempty c r Hc) as Hne.
    destruct (Nat.eqb_spec (String.length (fst (extract (String c r)))) 0); [lia|].
    reflexivity.
Qed.

Lemma wholeWindows_head (s : string) :
  Forall wholeWindows (words s) <->
  wholeWindows (fst (extract s)) /\ Forall wholeWindows (words (snd (extract s))).
Proof.
  rewrite (words_head s) at 1.
  destruct (Nat.eqb_spec (String.length (fst (extract s))) 0) as [E|E]; cbn [app].
  - split; [intros H; split; [unfold wholeWindows; rewrite E; reflexivity | exact H]
           | intros [_ H]; exact H].
  - split; [intros H; inversion H; auto | intros [H1 H2]; constructor; assumption].
Qed.

Lemma phase_lt (st : State) : (phase st < 4)%nat.
Proof. destruct st; cbn; lia. Qed.

Lemma phase_advance_mod (st : State) (n : nat) :
  ((phase (advance st) + n) mod 4 = 0 <-> (phase st + S n) mod 4 = 0)%nat.
Proof.
  destruct (phase_advance st) as [k Hk].
  replace (phase st + S n)%nat with (phase (advance st) + n + k * 4)%nat by lia.
  rewrite Nat.Div0.mod_add. reflexivity.
Qed.

Lemma verify_from_iff (s : string) :
  forall st : State,
    verify_from st s = true <->
    allRaw s = true /\
    ((phase st + String.length (fst (extract s))) mod 4 = 0)%nat /\
    Forall wholeWindows (words (snd (extract s))).
Proof.
  induction s as [|c s IH]; intros st.
  - cbn [verify_from allRaw extract fst snd String.length words].
    rewrite Nat.add_0_r, phase_boundary. pose proof (phase_lt st).
    rewrite Nat.mod_small by lia. intuition.
  - cbn [verify_from allRaw]. unfold rawChar.
    destruct (isBase36 c) eqn:Hc.
    + cbn [orb andb]. rewrite IH.
      cbn [extract]. rewrite (base36_not_space c Hc).
      destruct (extract s) as [w rest]. cbn [fst snd String.length].
      rewrite phase_advance_mod. reflexivity.
    + cbn [orb]. destruct (isWhitespace c) eqn:Hw; cbn [andb].
      * cbn [extract]. rewrite (isWhitespace_isspace c Hw).
        cbn [fst snd String.length]. rewrite Nat.add_0_r.
        pose proof (phase_lt st). rewrite Nat.mod_small by lia.
        rewrite <- phase_boundary.
        assert (Hwd : words (String c s) = words s)
          by (cbn [words]; rewrite (isWhitespace_isspace c Hw); reflexivity).
        rewrite Hwd, wholeWindows_head.
        destruct (atBoundary st).
        -- rewrite IH. cbn [phase Nat.add]. unfold wholeWindows. intuition.
        -- split; [discriminate | intros (_ & H' & _); discriminate H'].
      * split; [discriminate | intros [H' _]; discriminate H'].
Qed.

(** [verify] accepts exactly the texts made of base-36 digits and of the
    four blank characters in which the length of every word is a multiple
    of four. *)
Theorem verify_iff (text : string) :
  verify text = true <->
  allRaw text = true /\ Forall wholeWindows (words text).
Proof.
  unfold verify. rewrite verify_from_iff, (wholeWindows_head text).
  cbn [phase Nat.add]. unfold wholeWindows. intuition.
Qed.

(** *** Coordinates of an accepted text *)
Lemma pointsOf_range (w : string) :
  allBase36 w = true -> Forall inRawRange (pointsOf w).
Proof.
  assert (H : forall n w, (String.length w <= n)%nat -> allBase36 w = true ->
                          Forall inRawRange (pointsOf w)).
  { clear w. induction n as [|n IH]; intros w Hlen Hall.
    - destruct w; [constructor | cbn in Hlen; lia].
    - destruct w as [|a [|b [|c [|d rest]]]]; try constructor.
      + cbn [allBase36] in Hall.
        apply andb_prop in Hall as [Ha Hall]. apply andb_prop in Hall as [Hb Hall].
        apply andb_prop in Hall as [Hc Hall]. apply andb_prop in Hall as [Hd Hall].
        pose proof (digit36_range a Ha). pose proof (digit36_range b Hb).
        pose proof (digit36_range c Hc). pose proof (digit36_range d Hd).
        unfold inRawRange. cbn [x y]. lia.
      + apply IH; [cbn [String.length] in Hlen; lia|].
        cbn [allBase36] in Hall.
        repeat (apply andb_prop in Hall as [_ Hall]). exact Hall. }
  apply (H (String.length w)). lia.
Qed.

Lemma pointsOf_length (w : string) (n : nat) :
  String.length w = (4 * n)%nat -> List.length (pointsOf w) = n.
Proof.
  revert w. induction n as [|n IH]; intros w Hlen.
  - destruct w; [reflexivity | discriminate].
  - destruct w as [|a [|b [|c [|d rest]]]]; try (cbn [String.length] in Hlen; lia).
    cbn [pointsOf List.length]. f_equal. apply IH. cbn [String.length] in Hlen. lia.
Qed.

(** On a text that [verify] accepts, [parse] returns one stroke for each
    word; every stroke holds at least one point and every coordinate is a
    two-digit value, from 0 to 1295: the signed reading of
    [base36<3,int16_t>] is never used. *)
Theorem raw_parse_verified_range (text : string) :
  verify text = true ->
  exists sk : RawSketch,
    parse text = Ret sk /\
    List.length (strokes sk) = List.length (words text) /\
    Forall (fun st => (0 < List.length (points st))%nat /\ Forall inRawRange (points st))
           (strokes sk).
Proof.
  intros Hv.
  destruct (raw_parse_loop_words (S (String.length text)) text [] S0 eq_refl Hv
              ltac:(lia)) as [Hp Hw].
  eexists. split; [exact Hp|]. cbn [strokes app]. split; [apply length_map|].
  clear Hp. induction Hw as [|w ws [Hall (n & Hn & Hlen)] _ IHw]; cbn [map].
  - constructor.
  - constructor; [|exact IHw].
    cbn [strokeOf points]. split; [rewrite (pointsOf_length w n Hlen); exact Hn|].
    apply pointsOf_range, Hall.
Qed.

Lemma raw_parse_verified_range_witness :
  exists sk : RawSketch,
    parse ("ZZ00" ++ String "010" "0a0B1c1D") = Ret sk /\
    List.length (strokes sk) = List.length (words ("ZZ00" ++ String "010" "0a0B1c1D")) /\
    Forall (fun st => (0 < List.length (points st))%nat /\ Forall inRawRange (points st))
           (strokes sk).
Proof.
  apply (raw_parse_verified_range ("ZZ00" ++ String "010" "0a0B1c1D")). reflexivity.
Defined.

(** *** Words of any length *)
Lemma base36_short (s : string) :
  (String.length s <= 2)%nat -> allBase36 s = true ->
  base36 3 int16_t s = Ret (value36 s 0).
Proof.
  intros Hlen Hall.
  rewrite (base36_signed 3 int16_t s) by (try reflexivity; try lia; exact Hall).
  pose proof (value36_bound s 0 Hall ltac:(lia)) as Hv.
  pose proof (pow36_le _ 2 Hlen) as Hle. change (36 ^ Z.of_nat 2) with 1296 in Hle.
  unfold signed36. change (36 ^ Z.of_nat 3 / 2) with 23328.
  destruct (Z.ltb_spec (value36 s 0) 23328); [reflexivity | lia].
Qed.

Lemma trips_of_window (a b c d : ascii) (rest : string) :
  trips_of (String a (String b (String c (String d rest)))) = S (trips_of rest).
Proof.
  unfold trips_of. cbn [String.length].
  replace (S (S (S (S (String.length rest)))) + 3)%nat
    with (String.length rest + 3 + 1 * 4)%nat by lia.
  rewrite Nat.div_add by lia. lia.
Qed.

Lemma mod4_window (n : nat) : (S (S (S (S n))) mod 4 = n mod 4)%nat.
Proof.
  replace (S (S (S (S n)))) with (n + 1 * 4)%nat by lia. apply Nat.Div0.mod_add.
Qed.

Lemma stroke_loop_any (n : nat) :
  forall (rest pre : string) (pts : list RawPoint),
    (String.length rest <= n)%nat -> allBase36 rest = true ->
    stroke_loop (trips_of rest) (pre ++ rest) (String.length pre) pts
    = if Nat.eqb (String.length rest mod 4) 1 then Abort OutOfRange
      else Ret (pts ++ pointsOfAny rest)%list.
Proof.
  induction n as [|n IH]; intros rest pre pts Hlen Hall.
  - destruct rest; [|cbn in Hlen; lia]. cbn. rewrite app_nil_r. reflexivity.
  - destruct rest as [|a [|b [|c [|d rest]]]].
    + cbn. rewrite app_nil_r. reflexivity.
    + (* one digit left *)
      change (trips_of (String a "")) with 1%nat.
      change (Nat.eqb (String.length (String a "") mod 4) 1) with true. cbv iota.
      cbn [stroke_loop]. unfold substr. rewrite length_append. cbn [String.length].
      destruct (Nat.ltb_spec (String.length pre + 1) (String.length pre + 0)); [lia|].
      rewrite substring_skip. cbn [substring bind].
      rewrite base36_short by (cbn [String.length]; auto). cbn [bind].
      destruct (Nat.ltb_spec (String.length pre + 1) (String.length pre + 2)); [|lia].
      reflexivity.
    + (* two digits left *)
      change (trips_of (String a (String b ""))) with 1%nat.
      change (Nat.eqb (String.length (String a (String b "")) mod 4) 1) with false.
      cbv iota.
      cbn [stroke_loop]. unfold substr. rewrite length_append. cbn [String.length].
      destruct (Nat.ltb_spec (String.length pre + 2) (String.length pre + 0)); [lia|].
      destruct (Nat.ltb_spec (String.length pre + 2) (String.length pre + 2)); [lia|].
      rewrite !substring_skip. cbn [substring bind].
      rewrite base36_short by (cbn [String.length]; auto). cbn [bind].
      rewrite (base36_short "") by (cbn; auto). cbn [bind value36 pointsOfAny].
      repeat f_equal; lia.
    + (* three digits left *)
      change (trips_of (String a (String b (String c "")))) with 1%nat.
      change (Nat.eqb (String.length (String a (String b (String c ""))) mod 4) 1)
        with false.
      cbv iota.
      cbn [stroke_loop]. unfold substr. rewrite length_append. cbn [String.length].
      destruct (Nat.ltb_spec (String.length pre + 3) (String.length pre + 0)); [lia|].
      destruct (Nat.ltb_spec (String.length pre + 3) (String.length pre + 2)); [lia|].
      rewrite !substring_skip. cbn [substring bind].
      pose proof Hall as Hall'. cbn [allBase36] in Hall'.
      apply andb_prop in Hall' as [Ha Hall']. apply andb_prop in Hall' as [Hb Hall'].
      apply andb_prop in Hall' as [Hc _].
      rewrite base36_short
        by (first [cbn [String.length]; lia | cbn [allBase36]; rewrite Ha, Hb; reflexivity]).
      cbn [bind].
      rewrite base36_short
        by (first [cbn [String.length]; lia | cbn [allBase36]; rewrite Hc; reflexivity]).
      cbn [bind value36 pointsOfAny].
      repeat f_equal; lia.
    + (* a whole window *)
      rewrite trips_of_window. cbn [String.length]. rewrite mod4_window.
      pose proof Hall as Hall'. cbn [allBase36] in Hall'.
      apply andb_prop in Hall' as [Ha Hall']. apply andb_prop in Hall' as [Hb Hall'].
      apply andb_prop in Hall' as [Hc Hall']. apply andb_prop in Hall' as [Hd Hall'].
      cbn [stroke_loop pointsOfAny]. unfold substr. rewrite length_append.
      cbn [String.length].
      destruct (Nat.ltb_spec (String.length pre + S (S (S (S (String.length rest)))))
                             (String.length pre + 0)); [lia|].
      destruct (Nat.ltb_spec (String.length pre + S (S (S (S (String.length rest)))))
                             (String.length pre + 2)); [lia|].
      rewrite !substring_skip. cbn [substring bind].
      replace (substring 0 0 rest) with EmptyString by (destruct rest; reflexivity).
      rewrite (base36_two_digits a b Ha Hb). cbn [bind].
      rewrite (base36_two_digits c d Hc Hd). cbn [bind].
      replace (pre ++ String a (String b (String c (String d rest))))%string
        with ((pre ++ String a (String b (String c (String d EmptyString)))) ++ rest)%string
        by (rewrite append_assoc; reflexivity).
      replace (String.length pre + 4)%nat
        with (String.length (pre ++ String a (String b (String c (String d EmptyString)))))
        by (rewrite length_append; reflexivity).
      rewrite IH; [|cbn [String.length] in Hlen; lia | exact Hall'].
      destruct (Nat.eqb (String.length rest mod 4) 1); [reflexivity|].
      rewrite <- app_assoc. reflexivity.
Qed.

(** [parse] does not need [verify] to read a word of digits.  A last
    window of two or three digits gives a point whose [y] is 0 or has one
    digit; a last window of one digit makes [substr(i+2, 2)] start beyond
    the word, which throws. *)
Theorem parse_line_any_length (line : string) :
  allBase36 line = true ->
  parse_line line
  = if Nat.eqb (String.length line mod 4) 1 then Abort OutOfRange
    else Ret {| points := pointsOfAny line |}.
Proof.
  intros Hall. unfold parse_line.
  pose proof (stroke_loop_any (String.length line) line EmptyString [] (le_n _) Hall) as H.
  cbn [append String.length app] in H. rewrite H.
  destruct (Nat.eqb (String.length line mod 4) 1); reflexivity.
Qed.

Lemma parse_line_any_length_witness :
  allBase36 "0A0B1" = true /\
  parse_line "0A0B1"
  = if Nat.eqb (String.length "0A0B1" mod 4) 1 then Abort OutOfRange
    else Ret {| points := pointsOfAny "0A0B1" |}.
Proof.
  split; [reflexivity|]. apply (parse_line_any_length "0A0B1"). reflexivity.
Defined.

(** *** Word by word *)
Lemma raw_parse_loop_by_words (fuel : nat) :
  forall (s : string) (acc : list RawStroke),
    (String.length s < fuel)%nat ->
    parse_loop fuel s acc
    = (sts <- strokesOfWords (words s) acc ;; Ret {| strokes := sts |}).
Proof.
  induction fuel as [|fuel IH]; intros s acc Hlt; [lia|].
  cbn [parse_loop].
  rewrite <- (skipws_words s).
  pose proof (skipws_length s) as Hlen.
  destruct (skipws s) as [|c r] eqn:Hs1; [reflexivity|].
  pose proof (skipws_head s c r Hs1) as Hc.
  rewrite (extract_words (String c r) c r eq_refl Hc).
  pose proof (extract_length (String c r)) as Hel.
  pose proof (extract_nonempty c r Hc) as Hne.
  destruct (extract (String c r)) as [line s2]. cbn [fst snd] in *.
  cbn [strokesOfWords].
  destruct (parse_line line) as [stroke|f]; cbn [bind]; [|reflexivity].
  apply IH. lia.
Qed.

(** On every text, accepted by [verify] or not, [parse] handles the words
    of the text one after the other and stops at the first word that goes
    wrong. *)
Theorem raw_parse_by_words (text : string) :
  parse text = (sts <- strokesOfWords (words text) [] ;; Ret {| strokes := sts |}).
Proof. apply raw_parse_loop_by_words. lia. Qed.

End RawMore.

(** ** The shape of tokens *)

Ltac lexer_simpl :=
  cbn [LexState.eqb negb andb SketchFormat.when SketchFormat.onChange
       SketchFormat.resultAdd SketchFormat.notePastEnd
       SketchFormat.prevState SketchFormat.tokenStart SketchFormat.parenCount
       SketchFormat.result SketchFormat.pastEnd].

Section TokenShape.
Import ParserBase SketchFormat.

Lemma transition_Token (st : LexState.t) (c : ascii) (pc : Z) :
  fst (transition st c pc) = LexState.Token -> tokenChar c = true.
Proof.
  unfold transition, tokenChar, isOpChar, isWhitespace, isNewline.
  destruct st; cbn [LexState.eqb andb];
    repeat match goal with
           | |- context [Ascii.eqb c ?d] => destruct (Ascii.eqb_spec c d)
           | |- context [if ?b then _ else _] => destruct b eqn:?
           end; cbn [fst]; intros H; try discriminate H; subst;
    try reflexivity; try discriminate; cbn in *; try congruence.
Qed.

Lemma transition_Op (st : LexState.t) (c : ascii) (pc : Z) :
  fst (transition st c pc) = LexState.Op -> isOpChar c = true.
Proof.
  unfold transition, isOpChar.
  destruct st; cbn [LexState.eqb andb];
    repeat match goal with
           | |- context [if ?b then _ else _] => destruct b eqn:?
           end; cbn [fst]; intros H; try discriminate H; reflexivity.
Qed.

Lemma transition_String (st : LexState.t) (c : ascii) (pc : Z) :
  fst (transition st c pc) = LexState.String -> st = LexState.String \/ c = "("%char.
Proof.
  unfold transition.
  destruct st; cbn [LexState.eqb andb];
    repeat match goal with
           | |- context [Ascii.eqb c ?d] => destruct (Ascii.eqb_spec c d)
           | |- context [if ?b then _ else _] => destruct b eqn:?
           end; cbn [fst]; intros H; try discriminate H; auto.
Qed.

Lemma transition_not_End (st : LexState.t) (c : ascii) (pc : Z) :
  fst (transition st c pc) = LexState.End -> False.
Proof.
  unfold transition.
  destruct st; cbn [LexState.eqb andb];
    repeat match goal with
           | |- context [if ?b then _ else _] => destruct b eqn:?
           end; cbn [fst]; intros H; discriminate H.
Qed.

Lemma substring_chars (str : string) :
  forall n m : nat,
    (forall j, (n <= j < n + m)%nat -> exists c, get j str = Some c /\ tokenChar c = true) ->
    allTokenChars (substring n m str) = true.
Proof.
  induction str as [|d str IH]; intros n m H.
  - destruct m as [|m]; [destruct n; reflexivity|].
    destruct (H n ltac:(lia)) as (c & Hc & _). destruct n; discriminate Hc.
  - destruct n as [|n].
    + destruct m as [|m]; [reflexivity|].
      cbn [substring allTokenChars].
      destruct (H 0%nat ltac:(lia)) as (c & Hc & Ht). cbn in Hc. injection Hc as ->.
      rewrite Ht. cbn [andb]. apply IH.
      intros j Hj. apply (H (S j)). lia.
    + cbn [substring]. apply IH.
      intros j Hj. apply (H (S j)). lia.
Qed.

Lemma substring_head (str : string) :
  forall (n m : nat) (c : ascii),
    get n str = Some c ->
    substring n (S m) str = String c (substring (S n) m str).
Proof.
  induction str as [|d str IH]; intros n m c H.
  - destruct n; discriminate H.
  - destruct n as [|n].
    + cbn in H. injection H as ->. cbn [substring]. destruct m, str; reflexivity.
    + cbn [substring get] in *. rewrite (IH n m c H). reflexivity.
Qed.

Lemma substring_empty (str : string) (n : nat) : substring n 0 str = "".
Proof.
  revert n. induction str as [|d str IH]; intros [|n]; cbn [substring];
    try reflexivity. apply IH.
Qed.

Lemma tokenChar_shape (c : ascii) (rest : string) :
  tokenChar c = true -> allTokenChars rest = true -> tokenShape (String c rest) = true.
Proof.
  intros Hc Hr. unfold tokenShape. cbn [allTokenChars]. rewrite Hc, Hr.
  unfold tokenChar in Hc.
  apply negb_true_iff in Hc. apply orb_false_iff in Hc as [Hc Hp].
  apply orb_false_iff in Hc as [_ Ho]. rewrite Ho, Hp. reflexivity.
Qed.

Lemma shape_word (str : string) (ts i : nat) :
  (ts < i)%nat ->
  (forall j, (ts <= j < i)%nat -> exists c, get j str = Some c /\ tokenChar c = true) ->
  tokenShape (substring ts (i - ts) str) = true.
Proof.
  intros Hlt H.
  destruct (H ts ltac:(lia)) as (c & Hc & Ht).
  replace (i - ts)%nat with (S (i - ts - 1)) by lia.
  rewrite (substring_head str ts _ c Hc).
  apply tokenChar_shape; [exact Ht|].
  apply substring_chars. intros j Hj. apply H. lia.
Qed.

Lemma shape_op (str : string) (i : nat) (c : ascii) :
  (1 <= i)%nat -> get (i - 1) str = Some c -> isOpChar c = true ->
  tokenShape (substring (i - 1) (i - (i - 1)) str) = true.
Proof.
  intros Hi Hc Ho. replace (i - (i - 1))%nat with 1%nat by lia.
  rewrite (substring_head str _ _ c Hc), substring_empty.
  unfold tokenShape. rewrite Ho. reflexivity.
Qed.

Lemma shape_string (str : string) (ts m : nat) :
  (0 < m)%nat -> get ts str = Some "("%char ->
  tokenShape (substring ts m str) = true.
Proof.
  intros Hm Hc. destruct m as [|m]; [lia|].
  rewrite (substring_head str _ _ _ Hc). reflexivity.
Qed.

Lemma forallb_snoc {A} (f : A -> bool) (l : list A) (a : A) :
  forallb f l = true -> f a = true -> forallb f (l ++ [a]) = true.
Proof. intros Hl Ha. rewrite forallb_app, Hl. cbn. rewrite Ha. reflexivity. Qed.

Ltac shape_facts :=
  repeat match goal with
         | H : ?x = ?x -> _ |- _ => specialize (H eq_refl)
         | H : LexState.Token = _ -> _ |- _ => clear H
         | H : LexState.String = _ -> _ |- _ => clear H
         | H : LexState.StringEnd = _ -> _ |- _ => clear H
         | H : LexState.Op = _ -> _ |- _ => clear H
         | H : LexState.End = _ -> _ |- _ => clear H
         | H : LexState.Space = _ -> _ |- _ => clear H
         | H : LexState.Comment = _ -> _ |- _ => clear H
         | H : LexState.LineStart = _ -> _ |- _ => clear H
         end.

(* One trip inside the text keeps the invariant. *)
Lemma body_lexInv (past : ascii) (str : string) (i : nat) (c : ascii) (lx : Lexer) :
  get i str = Some c -> lexInv str i lx ->
  match body past str i lx with
  | Continue lx' => lexInv str (S i) lx'
  | Return lx' => forallb tokenShape (result lx') = true
  end.
Proof.
  intros Hget [Hr Hst]. destruct lx as [p ts pc r pe].
  cbn [prevState tokenStart result] in Hr, Hst.
  unfold body. rewrite Hget. cbn [prevState parenCount tokenStart result pastEnd].
  destruct (transition p c pc) as [next pc'] eqn:Htr.
  assert (HT : next = LexState.Token -> tokenChar c = true)
    by (intros ->; apply (transition_Token p c pc); rewrite Htr; reflexivity).
  assert (HO : next = LexState.Op -> isOpChar c = true)
    by (intros ->; apply (transition_Op p c pc); rewrite Htr; reflexivity).
  assert (HS : next = LexState.String -> p = LexState.String \/ c = "("%char)
    by (intros ->; apply (transition_String p c pc); rewrite Htr; reflexivity).
  assert (HE : next = LexState.StringEnd -> p = LexState.String)
    by (intros ->; apply (transition_StringEnd p c pc); rewrite Htr; reflexivity).
  assert (HN : next = LexState.End -> False)
    by (intros ->; apply (transition_not_End p c pc); rewrite Htr; reflexivity).
  clear Htr.
  destruct p, next; shape_facts; try contradiction; try discriminate HE;
    try (destruct HS as [HS|HS]; [discriminate HS|]);
    lexer_simpl; try (destruct (Ascii.eqb c ";")); unfold lexInv; lexer_simpl;
    repeat match goal with
           | H : _ /\ _ |- _ => destruct H
           | H : exists _, _ |- _ => destruct H
           end;
    repeat split;
    try exact I; try assumption; try lia;
    try (apply forallb_snoc; [assumption|]);
    first
      [ apply shape_word; assumption
      | eapply shape_op; eassumption
      | apply shape_string; [lia | assumption]
      | (* the token that starts here *)
        intros j Hj; assert (j = i) by lia; subst j; exists c; split; assumption
      | (* the token goes on *)
        intros j Hj; destruct (Nat.eq_dec j i) as [->|];
        [exists c; split; assumption | match goal with H : forall _, _ -> _ |- _ => apply H; lia end]
      | subst c; assumption
      | exists c; replace (S i - 1)%nat with i by lia; split; assumption ].
Qed.

(* The last trip, at the end of the text. *)
Lemma body_lexInv_end (past : ascii) (str : string) (i : nat) (lx : Lexer) :
  get i str = None -> lexInv str i lx ->
  forallb tokenShape (result (flowLexer (body past str i lx))) = true.
Proof.
  intros Hget [Hr Hst]. destruct lx as [p ts pc r pe].
  cbn [prevState tokenStart result] in Hr, Hst.
  unfold body. rewrite Hget. cbn [prevState parenCount tokenStart result pastEnd].
  destruct p; lexer_simpl; try (destruct (Ascii.eqb past ";")); cbn [flowLexer];
    lexer_simpl;
    repeat match goal with
           | H : _ /\ _ |- _ => destruct H
           | H : exists _, _ |- _ => destruct H
           end;
    try assumption;
    apply forallb_snoc; try assumption;
    first
      [ apply shape_word; assumption
      | eapply shape_op; eassumption
      | apply shape_string; [lia | assumption] ].
Qed.

Lemma loop_lexInv (past : ascii) (str : string) (trips : nat) :
  forall (i : nat) (lx : Lexer),
    lexInv str i lx -> (i + trips <= S (String.length str))%nat ->
    forallb tokenShape (result (loop past str trips i lx)) = true.
Proof.
  induction trips as [|trips IH]; intros i lx Hinv Hi; cbn [loop]; [apply Hinv|].
  destruct (Nat.ltb_spec i (String.length str)) as [Hlt|Hge].
  - destruct (get_in_bounds str i Hlt) as [c Hc].
    pose proof (body_lexInv past str i c lx Hc Hinv) as Hb.
    destruct (body past str i lx) as [lx'|lx']; [apply IH; [exact Hb | lia] | exact Hb].
  - assert (trips = 0%nat) by lia. subst trips.
    pose proof (body_lexInv_end past str i lx (get_past_end str i Hge) Hinv) as Hb.
    destruct (body past str i lx); exact Hb.
Qed.

Lemma tokens_shaped (past : ascii) (str : string) :
  forallb tokenShape (tokenizeWith past str) = true.
Proof.
  unfold tokenizeWith, lex. apply loop_lexInv; [|lia].
  split; [reflexivity | exact I].
Qed.

(** Every token that [tokenize] returns, on every text, is one operator
    character, or starts with an opening parenthesis, or is a run of
    characters that are neither blanks, nor operators, nor opening
    parentheses.  In particular no token is empty. *)
Theorem tokenize_token_shapes (str : string) :
  forallb tokenShape (tokenize str) = true.
Proof. apply tokens_shaped. Qed.

(** *** Blank texts *)
Lemma body_blank (past : ascii) (str : string) (i : nat) (c : ascii) (lx : Lexer) :
  get i str = Some c -> isWhitespace c = true ->
  prevState lx = LexState.LineStart \/ prevState lx = LexState.Space ->
  exists lx', body past str i lx = Continue lx' /\
              result lx' = result lx /\
              (prevState lx' = LexState.LineStart \/ prevState lx' = LexState.Space).
Proof.
  intros Hget Hw Hst. destruct lx as [p ts pc r pe]. cbn [prevState] in Hst.
  unfold body. rewrite Hget. cbn [prevState parenCount tokenStart result pastEnd].
  unfold transition.
  assert (Hp : Ascii.eqb c "%" = false).
  { destruct (Ascii.eqb_spec c "%") as [->|]; [discriminate Hw | reflexivity]. }
  rewrite Hw.
  destruct Hst as [-> | ->]; lexer_simpl; rewrite ?Hp; destruct (isNewline c);
    lexer_simpl; eexists; (split; [reflexivity|]); lexer_simpl; auto.
Qed.

Lemma loop_step (past : ascii) (str : string) (trips i : nat) (lx : Lexer) :
  loop past str (S trips) i lx
  = match body past str i lx with
    | Return lx' => lx'
    | Continue lx' => loop past str trips (S i) lx'
    end.
Proof. reflexivity. Qed.

Lemma loop_blank (past : ascii) (rest : string) :
  forall (pre : string) (lx : Lexer),
    allWhitespace rest = true ->
    prevState lx = LexState.LineStart \/ prevState lx = LexState.Space ->
    result (loop past (pre ++ rest) (S (String.length rest)) (String.length pre) lx)
    = result lx.
Proof.
  induction rest as [|c rest IH]; intros pre lx Hall Hst.
  - cbn [String.length loop]. unfold body.
    rewrite (get_past_end (pre ++ "") (String.length pre))
      by (rewrite length_append; cbn; lia).
    destruct lx as [p ts pc r pe]. cbn [prevState] in Hst.
    destruct Hst as [-> | ->]; reflexivity.
  - cbn [allWhitespace] in Hall. apply andb_prop in Hall as [Hc Hall].
    cbn [String.length]. rewrite loop_step.
    destruct (body_blank past (pre ++ String c rest) (String.length pre) c lx
                (get_at_prefix_end pre c rest) Hc Hst) as (lx' & Hb & Hr & Hst').
    rewrite Hb. cbv iota.
    replace (pre ++ String c rest)%string with ((pre ++ String c "") ++ rest)%string
      by (rewrite append_assoc; reflexivity).
    replace (S (String.length pre)) with (String.length (pre ++ String c ""))
      by (rewrite length_append; cbn; lia).
    rewrite IH by assumption. exact Hr.
Qed.

(** A text of blanks, tabs and newlines only has no token. *)
Theorem tokenize_blank (str : string) :
  allWhitespace str = true -> tokenize str = [].
Proof.
  intros Hall. unfold tokenize, tokenizeWith, lex.
  apply (loop_blank "000" str "" init Hall). left. reflexivity.
Qed.

Lemma tokenize_blank_witness :
  allWhitespace (String " " (String "010" (String "009" ""))) = true /\
  tokenize (String " " (String "010" (String "009" ""))) = [].
Proof.
  split; [reflexivity|].
  apply (tokenize_blank (String " " (String "010" (String "009" "")))). reflexivity.
Defined.

Lemma tokenize_pastEnd_is_size_witness :
  tokenize_pastEnd "Data:[]" = Some 7%nat /\ 7%nat = String.length "Data:[]".
Proof.
  split; [reflexivity|].
  apply (tokenize_pastEnd_is_size "Data:[]" 7). reflexivity.
Defined.

End TokenShape.

(** ** Tokens written out and read back *)

Section RoundTrip.
Import ParserBase SketchFormat.
Variable past : ascii.

Lemma tokenChar_classes (c : ascii) :
  tokenChar c = true ->
  isNewline c = false /\ isWhitespace c = false /\ isAny c ":[],;" = false /\
  Ascii.eqb c "(" = false.
Proof.
  unfold tokenChar, isOpChar. intros H. apply negb_true_iff in H.
  apply orb_false_iff in H as [H Hp]. apply orb_false_iff in H as [Hw Ho].
  repeat split; try assumption.
  unfold isWhitespace in Hw. unfold isNewline.
  destruct (Ascii.eqb c "010"); [rewrite !orb_true_r in Hw; cbn in Hw;
    destruct (Ascii.eqb c " "), (Ascii.eqb c "009"); discriminate Hw|].
  destruct (Ascii.eqb c "013"); [rewrite !orb_true_r in Hw; discriminate Hw | reflexivity].
Qed.

(* a word character after a word character *)
Lemma body_word_char (str : string) (i : nat) (c : ascii) (lx : Lexer) :
  get i str = Some c -> prevState lx = LexState.Token -> tokenChar c = true ->
  body past str i lx = Continue lx.
Proof.
  intros Hget Hst Hc. destruct lx as [p ts pc r pe]. cbn in Hst. subst p.
  destruct (tokenChar_classes c Hc) as (Hn & Hw & Ho & Hp).
  unfold body. rewrite Hget. unfold transition. lexer_simpl.
  rewrite Hn, Hw, Ho, Hp. lexer_simpl. reflexivity.
Qed.

(* the first character of a word *)
Lemma body_word_start (str : string) (i : nat) (c : ascii) (rest : string) (lx : Lexer) :
  get i str = Some c -> betweenTokens lx (String c rest) -> tokenChar c = true ->
  body past str i lx
  = Continue {| prevState := LexState.Token; tokenStart := i; parenCount := parenCount lx;
                result := result lx; pastEnd := pastEnd lx |}.
Proof.
  intros Hget Hst Hc. destruct lx as [p ts pc r pe]. unfold betweenTokens in Hst.
  cbn [prevState starts_with] in Hst.
  destruct (tokenChar_classes c Hc) as (Hn & Hw & Ho & Hp).
  unfold body. rewrite Hget. unfold transition.
  destruct Hst as [-> | [-> Hpc]]; lexer_simpl; rewrite ?Hpc, Hn, Hw, Ho, Hp;
    lexer_simpl; reflexivity.
Qed.

Lemma loop_in_word (mid : string) :
  forall (pre rest : string) (trips : nat) (lx : Lexer),
    prevState lx = LexState.Token -> allTokenChars mid = true ->
    loop past (pre ++ mid ++ rest) (String.length mid + trips) (String.length pre) lx
    = loop past (pre ++ mid ++ rest) trips (String.length pre + String.length mid) lx.
Proof.
  induction mid as [|c b IH]; intros pre rest trips lx Hst Hall.
  - cbn. rewrite Nat.add_0_r. reflexivity.
  - cbn [allTokenChars] in Hall. apply andb_prop in Hall as [Hc Hall].
    cbn [String.length Nat.add]. rewrite loop_step.
    rewrite (body_word_char _ _ c lx); [| |exact Hst|exact Hc].
    2:{ cbn [append]. apply get_at_prefix_end. }
    replace (pre ++ String c b ++ rest)%string
      with ((pre ++ String c EmptyString) ++ b ++ rest)%string
      by (rewrite append_assoc; reflexivity).
    replace (S (String.length pre)) with (String.length (pre ++ String c EmptyString))
      by (rewrite length_append; cbn; lia).
    rewrite IH by assumption.
    rewrite length_append. cbn [String.length]. f_equal. lia.
Qed.

Lemma substring_at (pre t rest : string) :
  substring (String.length pre) (String.length t) (pre ++ t ++ rest) = t.
Proof.
  rewrite <- (Nat.add_0_r (String.length pre)), substring_skip.
  apply substring_prefix.
Qed.

Lemma opChar_cases (c : ascii) :
  isOpChar c = true ->
  c = ":"%char \/ c = "["%char \/ c = "]"%char \/ c = ","%char \/ c = ";"%char.
Proof.
  unfold isOpChar. cbn [isAny]. intros H.
  repeat (apply orb_prop in H as [H|H]; [apply Ascii.eqb_eq in H; tauto|]).
  discriminate H.
Qed.

(* an operator character between tokens *)
Lemma body_op_start (str : string) (i : nat) (c : ascii) (lx : Lexer) :
  get i str = Some c ->
  prevState lx = LexState.Space \/ prevState lx = LexState.LineStart ->
  isOpChar c = true ->
  body past str i lx
  = Continue {| prevState := LexState.Op; tokenStart := tokenStart lx;
                parenCount := parenCount lx; result := result lx; pastEnd := pastEnd lx |}.
Proof.
  intros Hget Hst Hc. destruct lx as [p ts pc r pe]. cbn [prevState] in Hst.
  unfold body. rewrite Hget.
  destruct (opChar_cases c Hc) as [-> | [-> | [-> | [-> | ->]]]];
    destruct Hst as [-> | ->]; reflexivity.
Qed.

(* the parenthesis that opens a literal *)
Lemma body_string_start (str : string) (i : nat) (lx : Lexer) :
  get i str = Some "("%char ->
  prevState lx = LexState.Space \/ prevState lx = LexState.LineStart ->
  body past str i lx
  = Continue {| prevState := LexState.String; tokenStart := i; parenCount := 1;
                result := result lx; pastEnd := pastEnd lx |}.
Proof.
  intros Hget Hst. destruct lx as [p ts pc r pe]. cbn [prevState] in Hst.
  unfold body. rewrite Hget. destruct Hst as [-> | ->]; reflexivity.
Qed.

(* one character inside a literal that stays open *)
Lemma body_in_string (str : string) (i : nat) (c : ascii) (lx : Lexer) (pc' : Z) :
  get i str = Some c -> prevState lx = LexState.String ->
  transition LexState.String c (parenCount lx) = (LexState.String, pc') ->
  body past str i lx
  = Continue {| prevState := LexState.String; tokenStart := tokenStart lx;
                parenCount := pc'; result := result lx; pastEnd := pastEnd lx |}.
Proof.
  intros Hget Hst Htr. destruct lx as [p ts pc r pe]. cbn [prevState parenCount] in *.
  subst p. unfold body. rewrite Hget. cbn [prevState parenCount]. rewrite Htr.
  reflexivity.
Qed.

(* the parenthesis that closes a literal *)
Lemma body_string_end (str : string) (i : nat) (lx : Lexer) :
  get i str = Some ")"%char -> prevState lx = LexState.String -> parenCount lx = 1 ->
  exists lx',
    body past str i lx = Continue lx' /\
    prevState lx' = LexState.StringEnd /\
    result lx' = (result lx ++ [substring (tokenStart lx) (i + 1 - tokenStart lx) str])%list.
Proof.
  intros Hget Hst Hpc. destruct lx as [p ts pc r pe]. cbn [prevState parenCount] in *.
  subst p pc. unfold body. rewrite Hget. eexists. split; [reflexivity|].
  split; reflexivity.
Qed.

Lemma loop_in_string (body_ : string) :
  forall (d : nat) (pre rest : string) (trips : nat) (lx : Lexer),
    closes d body_ = true ->
    prevState lx = LexState.String -> parenCount lx = Z.of_nat d + 1 ->
    exists lx',
      loop past (pre ++ body_ ++ rest) (String.length body_ + trips) (String.length pre) lx
      = loop past (pre ++ body_ ++ rest) trips (String.length pre + String.length body_) lx' /\
      prevState lx' = LexState.StringEnd /\
      result lx'
      = (result lx ++ [substring (tokenStart lx)
                         (String.length pre + String.length body_ - tokenStart lx)
                         (pre ++ body_ ++ rest)])%list.
Proof.
  induction body_ as [|c b IH]; intros d pre rest trips lx Hcl Hst Hpc;
    [discriminate Hcl|].
  cbn [closes] in Hcl. cbn [String.length Nat.add]. rewrite loop_step.
  assert (Hget : get (String.length pre) (pre ++ String c b ++ rest) = Some c)
    by (cbn [append]; apply get_at_prefix_end).
  assert (Hshift : forall lx1 : Lexer,
             loop past (pre ++ String c b ++ rest) (String.length b + trips)
                  (S (String.length pre)) lx1
             = loop past ((pre ++ String c "") ++ b ++ rest) (String.length b + trips)
                    (String.length (pre ++ String c "")) lx1).
  { intros lx1. rewrite length_append, append_assoc. cbn [String.length append].
    f_equal. lia. }
  assert (Hback : forall (lx1 : Lexer) (n : nat),
             loop past ((pre ++ String c "") ++ b ++ rest) trips
                  (String.length (pre ++ String c "") + n) lx1
             = loop past (pre ++ String c b ++ rest) trips
                    (String.length pre + S n) lx1).
  { intros lx1 n. rewrite length_append, append_assoc. cbn [String.length append].
    f_equal. lia. }
  assert (Hsub : forall ts n,
             substring ts (String.length (pre ++ String c "") + n - ts)
                       ((pre ++ String c "") ++ b ++ rest)
             = substring ts (String.length pre + S n - ts) (pre ++ String c b ++ rest)).
  { intros ts n. rewrite length_append, append_assoc. cbn [String.length append].
    f_equal. lia. }
  destruct (Ascii.eqb_spec c "(") as [->|Hopen].
  - (* one more parenthesis open *)
    rewrite (body_in_string _ _ "(" lx (parenCount lx + 1)); [|exact Hget|exact Hst|reflexivity].
    rewrite Hshift.
    destruct (IH (S d) (pre ++ "(") rest trips
                 {| prevState := LexState.String; tokenStart := tokenStart lx;
                    parenCount := parenCount lx + 1; result := result lx;
                    pastEnd := pastEnd lx |} Hcl eq_refl)
      as (lx' & Hl & Hs & Hr).
    { cbn [parenCount]. rewrite Hpc. lia. }
    exists lx'. rewrite Hl, Hback. split; [reflexivity|]. split; [exact Hs|].
    rewrite Hr. cbn [result tokenStart]. rewrite Hsub. reflexivity.
  - destruct (Ascii.eqb_spec c ")") as [->|Hclose].
    + destruct d as [|d].
      * (* the literal closes here *)
        destruct b; [|discriminate Hcl].
        destruct (body_string_end _ _ lx Hget Hst) as (lx' & Hb & Hs & Hr);
          [rewrite Hpc; reflexivity|].
        rewrite Hb. exists lx'. cbn [String.length Nat.add].
        split; [f_equal; lia|]. split; [exact Hs|]. rewrite Hr. reflexivity.
      * (* an inner parenthesis closes *)
        rewrite (body_in_string _ _ ")" lx (parenCount lx - 1)); [|exact Hget|exact Hst|].
        2:{ unfold transition. cbn [LexState.eqb andb Ascii.eqb Bool.eqb].
            destruct (Z.leb_spec (parenCount lx - 1) 0); [lia | reflexivity]. }
        rewrite Hshift.
        destruct (IH d (pre ++ ")") rest trips
                     {| prevState := LexState.String; tokenStart := tokenStart lx;
                        parenCount := parenCount lx - 1; result := result lx;
                        pastEnd := pastEnd lx |} Hcl eq_refl)
          as (lx' & Hl & Hs & Hr).
        { cbn [parenCount]. rewrite Hpc. lia. }
        exists lx'. rewrite Hl, Hback. split; [reflexivity|]. split; [exact Hs|].
        rewrite Hr. cbn [result tokenStart]. rewrite Hsub. reflexivity.
    + (* any other character *)
      rewrite (body_in_string _ _ c lx (parenCount lx)); [|exact Hget|exact Hst|].
      2:{ unfold transition. cbn [LexState.eqb andb].
          destruct (Ascii.eqb_spec c "("); [contradiction|].
          destruct (Ascii.eqb_spec c ")"); [contradiction | reflexivity]. }
      rewrite Hshift.
      destruct (IH d (pre ++ String c "") rest trips
                   {| prevState := LexState.String; tokenStart := tokenStart lx;
                      parenCount := parenCount lx; result := result lx;
                      pastEnd := pastEnd lx |} Hcl eq_refl)
        as (lx' & Hl & Hs & Hr).
      { cbn [parenCount]. exact Hpc. }
      exists lx'. rewrite Hl, Hback. split; [reflexivity|]. split; [exact Hs|].
      rewrite Hr. cbn [result tokenStart]. rewrite Hsub. reflexivity.
Qed.

Lemma between_states (lx : Lexer) (t : Token) :
  betweenTokens lx t ->
  prevState lx = LexState.Space \/ prevState lx = LexState.LineStart.
Proof. intros [H | [H _]]; auto. Qed.

(* The characters of one token. *)
Lemma token_body (t : Token) (pre rest : string) (trips : nat) (lx : Lexer) :
  wellShaped t = true -> betweenTokens lx t ->
  exists lx',
    loop past (pre ++ t ++ rest) (String.length t + trips) (String.length pre) lx
    = loop past (pre ++ t ++ rest) trips (String.length pre + String.length t) lx' /\
    pending (pre ++ t ++ rest) (String.length pre + String.length t) t lx lx'.
Proof.
  intros Hshape Hbt. unfold wellShaped in Hshape.
  destruct t as [|c w]; [discriminate Hshape|].
  assert (Hget : get (String.length pre) (pre ++ String c w ++ rest) = Some c)
    by (cbn [append]; apply get_at_prefix_end).
  destruct (wordToken (String c w)) eqn:Hword.
  - (* a word *)
    cbn [wordToken allTokenChars] in Hword. apply andb_prop in Hword as [Hc Hw].
    cbn [String.length Nat.add]. rewrite loop_step.
    rewrite (body_word_start _ _ c w lx Hget Hbt Hc).
    eexists. split.
    + replace (pre ++ String c w ++ rest)%string
        with ((pre ++ String c EmptyString) ++ w ++ rest)%string
        by (rewrite append_assoc; reflexivity).
      replace (S (String.length pre)) with (String.length (pre ++ String c EmptyString))
        by (rewrite length_append; cbn; lia).
      rewrite loop_in_word by (auto; reflexivity).
      rewrite length_append. cbn [String.length]. f_equal. lia.
    + left. cbn [prevState tokenStart result]. repeat split.
      apply (substring_at pre (String c w) rest).
  - cbn [orb] in Hshape. destruct (opToken (String c w)) eqn:Hop.
    + (* an operator *)
      cbn [opToken] in Hop. destruct w; [|discriminate Hop].
      cbn [String.length Nat.add]. rewrite loop_step.
      rewrite (body_op_start _ _ c lx Hget (between_states _ _ Hbt) Hop).
      eexists. split; [f_equal; lia|].
      right. left. cbn [prevState result]. repeat split; [lia|].
      replace (String.length pre + 1 - 1)%nat with (String.length pre) by lia.
      apply (substring_at pre (String c "") rest).
    + (* a string literal *)
      cbn [orb stringToken] in Hshape. apply andb_prop in Hshape as [Hc Hcl].
      apply Ascii.eqb_eq in Hc. subst c.
      cbn [String.length Nat.add]. rewrite loop_step.
      rewrite (body_string_start _ _ lx Hget (between_states _ _ Hbt)).
      replace (pre ++ String "(" w ++ rest)%string
        with ((pre ++ "(") ++ w ++ rest)%string
        by (rewrite append_assoc; reflexivity).
      replace (S (String.length pre)) with (String.length (pre ++ "("))
        by (rewrite length_append; cbn; lia).
      destruct (loop_in_string w 0 (pre ++ "(") rest trips
                  {| prevState := LexState.String; tokenStart := String.length pre;
                     parenCount := 1; result := result lx; pastEnd := pastEnd lx |}
                  Hcl eq_refl eq_refl) as (lx' & Hl & Hs & Hr).
      exists lx'. split.
      * rewrite Hl, length_append. cbn [String.length]. f_equal. lia.
      * right. right. split; [exact Hs|]. rewrite Hr. cbn [result tokenStart].
        rewrite length_append. cbn [String.length].
        replace (String.length pre + 1 + String.length w - String.length pre)%nat
          with (String.length (String "(" w)) by (cbn [String.length]; lia).
        rewrite append_assoc.
        change (pre ++ "(" ++ w ++ rest)%string with (pre ++ String "(" w ++ rest)%string.
        rewrite (substring_at pre (String "(" w) rest). reflexivity.
Qed.

(* The blank after a token. *)
Lemma pending_blank (str : string) (i : nat) (t : Token) (before lx : Lexer) :
  pending str i t before lx -> get i str = Some " "%char ->
  exists lx',
    body past str i lx = Continue lx' /\
    prevState lx' = LexState.Space /\ result lx' = (result before ++ [t])%list.
Proof.
  intros Hp Hget. destruct lx as [p ts pc r pe]. unfold pending in Hp.
  cbn [prevState tokenStart result] in Hp. unfold body. rewrite Hget.
  destruct Hp as [(-> & Hi & Hs & ->) | [(-> & Hi & Hs & ->) | (-> & ->)]];
    (eexists; split; [reflexivity|]); lexer_simpl; (split; [reflexivity|]).
  - replace (i - ts)%nat with (String.length t) by lia. rewrite Hs. reflexivity.
  - replace (i - (i - 1))%nat with 1%nat by lia. rewrite Hs. reflexivity.
  - reflexivity.
Qed.

(* The end of the text after a token. *)
Lemma pending_end (str : string) (i : nat) (t : Token) (before lx : Lexer) :
  pending str i t before lx -> get i str = None -> Ascii.eqb past ";" = false ->
  result (flowLexer (body past str i lx)) = (result before ++ [t])%list.
Proof.
  intros Hp Hget Hpast. destruct lx as [p ts pc r pe]. unfold pending in Hp.
  cbn [prevState tokenStart result] in Hp. unfold body. rewrite Hget.
  destruct Hp as [(-> & Hi & Hs & ->) | [(-> & Hi & Hs & ->) | (-> & ->)]];
    lexer_simpl; rewrite ?Hpast; cbn [flowLexer]; lexer_simpl.
  - replace (i - ts)%nat with (String.length t) by lia. rewrite Hs. reflexivity.
  - replace (i - (i - 1))%nat with 1%nat by lia. rewrite Hs. reflexivity.
  - reflexivity.
Qed.

Lemma loop_render (tks : list Token) :
  forall (t : Token) (pre : string) (lx : Lexer),
    Ascii.eqb past ";" = false ->
    forallb wellShaped (t :: tks) = true -> betweenTokens lx t ->
    result (loop past (pre ++ render (t :: tks)) (S (String.length (render (t :: tks))))
                 (String.length pre) lx)
    = (result lx ++ t :: tks)%list.
Proof.
  induction tks as [|t2 tks IH]; intros t pre lx Hpast Hall Hbt;
    cbn [forallb] in Hall; apply andb_prop in Hall as [Ht Hall].
  - cbn [render].
    destruct (token_body t pre "" 1 lx Ht Hbt) as (lx' & Hl & Hp).
    replace (t ++ "")%string with t in * by (clear; induction t; cbn; congruence).
    replace (S (String.length t)) with (String.length t + 1)%nat by lia.
    rewrite Hl. cbn [loop].
    assert (Hget : get (String.length pre + String.length t) (pre ++ t) = None)
      by (apply get_past_end; rewrite length_append; lia).
    pose proof (pending_end _ _ _ _ _ Hp Hget Hpast) as He.
    destruct (body past (pre ++ t) (String.length pre + String.length t) lx'); exact He.
  - change (render (t :: t2 :: tks)) with (t ++ String " " (render (t2 :: tks)))%string.
    set (R := render (t2 :: tks)) in *.
    destruct (token_body t pre (String " " R) (S (S (String.length R))) lx Ht Hbt)
      as (lx' & Hl & Hp).
    replace (S (String.length (t ++ String " " R)))
      with (String.length t + S (S (String.length R)))%nat
      by (rewrite length_append; cbn [String.length]; lia).
    rewrite Hl, loop_step.
    destruct (pending_blank _ _ _ _ _ Hp) as (lx'' & Hb & Hs & Hr).
    { replace (pre ++ t ++ String " " R)%string with ((pre ++ t) ++ String " " R)%string
        by (rewrite append_assoc; reflexivity).
      rewrite <- length_append. apply get_at_prefix_end. }
    rewrite Hb.
    replace (pre ++ t ++ String " " R)%string with ((pre ++ t ++ " ") ++ R)%string
      by (rewrite !append_assoc; reflexivity).
    replace (S (String.length pre + String.length t))
      with (String.length (pre ++ t ++ " "))
      by (rewrite !length_append; cbn [String.length]; lia).
    unfold R. rewrite (IH t2 (pre ++ t ++ " ") lx'' Hpast Hall); [|left; exact Hs].
    rewrite Hr, <- app_assoc. reflexivity.
Qed.

End RoundTrip.

Section RoundTripStatement.
Import ParserBase SketchFormat.

Lemma render_tokens (tks : list Token) :
  forallb wellShaped tks = true ->
  match tks with t :: _ => starts_with t "%" = false | [] => True end ->
  tokenize (render tks) = tks.
Proof.
  intros Hall Hfirst. destruct tks as [|t tks]; [reflexivity|].
  unfold tokenize, tokenizeWith, lex.
  apply (loop_render "000" tks t "" init eq_refl Hall).
  right. split; [reflexivity | exact Hfirst].
Qed.

(** Tokens written out with one blank between them are read back as they
    are: words, operator characters and string literals whose parentheses
    are balanced, where the first token does not start with a percent
    sign. *)
Theorem tokenize_render (tks : list Token) :
  forallb wellShaped tks = true ->
  match tks with t :: _ => starts_with t "%" = false | [] => True end ->
  tokenize (render tks) = tks.
Proof. exact (render_tokens tks). Qed.

Lemma tokenize_render_witness :
  forallb wellShaped ["Marker"; ":"; "(a (b) c: [d])"; ","; "Data"; ":"; "["; "00'00'0A"; "]"; ";"]
  = true /\
  starts_with "Marker" "%" = false /\
  tokenize (render ["Marker"; ":"; "(a (b) c: [d])"; ","; "Data"; ":"; "["; "00'00'0A"; "]"; ";"])
  = ["Marker"; ":"; "(a (b) c: [d])"; ","; "Data"; ":"; "["; "00'00'0A"; "]"; ";"].
Proof.
  split; [reflexivity|]. split; [reflexivity|].
  apply (tokenize_render
           ["Marker"; ":"; "(a (b) c: [d])"; ","; "Data"; ":"; "["; "00'00'0A"; "]"; ";"]);
    reflexivity.
Defined.

End RoundTripStatement.

(** ** What the grammar accepts *)

Section GrammarMore.
Import ParserBase SketchFormat.

Lemma at_app (pre l : Tokens) (k : nat) : at_ (pre ++ l)%list (List.length pre + k) = nth k l "".
Proof. unfold at_. rewrite app_nth2_plus. reflexivity. Qed.

Lemma at_here (pre l : Tokens) (t : Token) : at_ (pre ++ t :: l)%list (List.length pre) = t.
Proof. rewrite <- (Nat.add_0_r (List.length pre)), at_app. reflexivity. Qed.

Lemma skipn_pre (pre l : Tokens) (k : nat) :
  skipn (List.length pre + k) (pre ++ l)%list = skipn k l.
Proof.
  rewrite skipn_app, skipn_all2 by lia.
  replace (List.length pre + k - List.length pre)%nat with k by lia. reflexivity.
Qed.

Lemma find_def (name : string) :
  In name ["Data"; "Pencil"; "Brush"; "Affine"; "Marker"] ->
  exists v, find (fun t => String.eqb (fst t) name) ElementsDefs = Some (name, v) /\
            In (name, v) ElementsDefs.
Proof.
  intros H. cbn in H.
  repeat (destruct H as [<-|H]; [eexists; split; [reflexivity | cbn; tauto]|]).
  contradiction.
Qed.

Lemma span_members (pre ms rest : Tokens) :
  span (pre ++ ms ++ rest)%list (List.length pre) (List.length ms) = ms.
Proof.
  unfold span. rewrite <- (Nat.add_0_r (List.length pre)), skipn_pre. cbn [skipn].
  rewrite <- (Nat.add_0_r (List.length ms)), firstn_app_2. cbn. apply app_nil_r.
Qed.

(* the bracket part, at any position *)
Lemma bracketed_accepts (pre ms rest : Tokens) :
  Forall (fun t => t <> "]") ms ->
  bracketed (pre ++ ":" :: "[" :: ms ++ "]" :: rest)%list (List.length pre)
  = Some (List.length ms, (List.length pre + 3 + List.length ms)%nat).
Proof.
  intros Hms. unfold bracketed.
  rewrite !length_app. cbn [List.length]. rewrite length_app. cbn [List.length].
  destruct (Nat.ltb_spec (List.length pre + S (S (List.length ms + S (List.length rest))))
                         (List.length pre + 2)); [lia|].
  rewrite <- (Nat.add_0_r (List.length pre)) at 1. rewrite at_app. cbn [nth].
  rewrite at_app. cbn [nth].
  change (negb (":" =? ":")%string) with false. change (negb ("[" =? "[")%string) with false.
  cbv iota. rewrite skipn_pre. cbn [skipn].
  rewrite scan_members by exact Hms. cbn [Nat.add].
  destruct (Nat.eqb_spec (List.length pre + 2 + List.length ms)
              (List.length pre + S (S (List.length ms + S (List.length rest))))); [lia|].
  do 2 f_equal. lia.
Qed.

Lemma skipn_cons_nth (l : Tokens) (i : nat) :
  (i < List.length l)%nat -> skipn i l = nth i l "" :: skipn (S i) l.
Proof.
  revert i. induction l as [|t l IH]; intros i Hi; cbn [List.length] in Hi; [lia|].
  destruct i as [|i]; [reflexivity|]. cbn [skipn nth]. apply IH. lia.
Qed.

Lemma scan_split (l : Tokens) :
  forall count : nat,
    scan l count = (count + List.length l)%nat \/
    exists ms rest, l = (ms ++ "]" :: rest)%list /\ Forall (fun t => t <> "]") ms /\
                    scan l count = (count + List.length ms)%nat.
Proof.
  induction l as [|t l IH]; intros count; cbn [scan List.length].
  - left. lia.
  - destruct (String.eqb_spec t "]") as [->|Ht].
    + right. exists [], l. cbn. repeat split; [constructor | lia].
    + destruct (IH (S count)) as [E | (ms & rest & -> & Hms & E)].
      * left. lia.
      * right. exists (t :: ms), rest. cbn [app List.length].
        repeat split; [constructor; assumption | lia].
Qed.

Lemma bracketed_inv (tkn : Tokens) (k count j : nat) :
  bracketed tkn k = Some (count, j) ->
  exists ms rest,
    skipn k tkn = (":" :: "[" :: ms ++ "]" :: rest)%list /\
    List.length ms = count /\ Forall (fun t => t <> "]") ms /\
    j = (k + 3 + count)%nat.
Proof.
  unfold bracketed.
  destruct (Nat.ltb_spec (List.length tkn) (k + 2)) as [|Hk]; [discriminate|].
  destruct (String.eqb_spec (at_ tkn k) ":") as [Hc|]; [|discriminate].
  destruct (String.eqb_spec (at_ tkn (k + 1)) "[") as [Hb|]; [|discriminate].
  cbn [negb].
  destruct (Nat.eqb_spec (k + 2 + scan (skipn (k + 2) tkn) 0) (List.length tkn)) as [|Hne];
    [discriminate|].
  intros H. injection H as <- <-.
  assert (Hlen : List.length (skipn (k + 2) tkn) = (List.length tkn - (k + 2))%nat)
    by apply length_skipn.
  destruct (scan_split (skipn (k + 2) tkn) 0) as [E | (ms & rest & Hl & Hms & E)].
  - exfalso. apply Hne. rewrite E, Hlen. lia.
  - exists ms, rest. rewrite E. repeat split; try assumption; try lia.
    rewrite (skipn_cons_nth tkn k) by lia.
    rewrite (skipn_cons_nth tkn (S k)) by lia.
    unfold at_ in Hc, Hb. rewrite Hc. replace (S k) with (k + 1)%nat by lia. rewrite Hb.
    replace (S (k + 1)) with (k + 2)%nat by lia. rewrite Hl. reflexivity.
Qed.

Lemma arityOk_not_affine (name : string) (ms : list Token) :
  In name ["Data"; "Pencil"; "Brush"] -> arityOk name ms = true.
Proof.
  intros H. cbn in H. unfold arityOk.
  repeat (destruct H as [<-|H]; [reflexivity|]). contradiction.
Qed.

Lemma parseElement_bracketed (pre ms rest : Tokens) (name : string) :
  In name bracketedNames -> Forall (fun t => t <> "]") ms -> arityOk name ms = true ->
  parseElement (pre ++ bracketedElement name ms ++ rest)%list (List.length pre)
  = Some ({| type := name; members := ms |}, (List.length pre + 4 + List.length ms)%nat).
Proof.
  intros Hin Hms Har.
  destruct (find_def name) as (v & Hf & Hv).
  { cbn in Hin. cbn. tauto. }
  unfold parseElement. rewrite length_app. unfold bracketedElement.
  cbn [List.length app].
  destruct (Nat.ltb_spec (List.length pre + S (S (S (List.length ((ms ++ ["]"]) ++ rest)))))
                         (List.length pre + 1)); [lia|].
  rewrite at_here, Hf.
  assert (Hb : bracketed (pre ++ name :: ":" :: "[" :: (ms ++ ["]"]) ++ rest)%list
                         (S (List.length pre))
               = Some (List.length ms, (S (List.length pre) + 3 + List.length ms)%nat)).
  { replace (pre ++ name :: ":" :: "[" :: (ms ++ ["]"]) ++ rest)%list
      with ((pre ++ [name]) ++ ":" :: "[" :: ms ++ "]" :: rest)%list
      by (rewrite <- !app_assoc; reflexivity).
    replace (S (List.length pre)) with (List.length (pre ++ [name]))
      by (rewrite length_app; cbn; lia).
    apply bracketed_accepts, Hms. }
  assert (Hspan : span (pre ++ name :: ":" :: "[" :: (ms ++ ["]"]) ++ rest)%list
                    (S (List.length pre) + 3 + List.length ms - 1 - List.length ms)
                    (List.length ms) = ms).
  { replace (pre ++ name :: ":" :: "[" :: (ms ++ ["]"]) ++ rest)%list
      with ((pre ++ [name; ":"; "["]) ++ ms ++ "]" :: rest)%list
      by (rewrite <- !app_assoc; reflexivity).
    replace (S (List.length pre) + 3 + List.length ms - 1 - List.length ms)%nat
      with (List.length (pre ++ [name; ":"; "["]))
      by (rewrite length_app; cbn; lia).
    apply span_members. }
  cbn in Hin, Hv.
  destruct Hin as [<-|[<-|[<-|[<-|[]]]]];
    (destruct Hv as [E|[E|[E|[E|[E|[]]]]]]; try discriminate E; injection E as <-);
    cbv beta iota zeta; unfold Tokens, Token in *; rewrite Hb; cbv beta iota;
    rewrite Hspan.
  - do 2 f_equal. lia.
  - do 2 f_equal. lia.
  - do 2 f_equal. lia.
  - unfold arityOk in Har. cbn [String.eqb Ascii.eqb Bool.eqb] in Har.
    unfold Token in Har. rewrite Har. cbn [negb]. do 2 f_equal. lia.
Qed.

Lemma parseElement_inv (tkn : Tokens) (i : nat) (e : ElementData) (i' : nat) :
  parseElement tkn i = Some (e, i') ->
  exists pre rest : Tokens,
    List.length pre = i /\
    ((In (type e) bracketedNames /\
      Forall (fun t => t <> "]") (members e) /\
      arityOk (type e) (members e) = true /\
      tkn = (pre ++ bracketedElement (type e) (members e) ++ rest)%list /\
      i' = (i + 4 + List.length (members e))%nat)
     \/
     (type e = "Marker" /\
      (exists t, members e = [t] /\ tkn = (pre ++ "Marker" :: ":" :: t :: rest)%list) /\
      i' = (i + 3)%nat)).
Proof.
  unfold parseElement.
  destruct (Nat.ltb_spec (List.length tkn) (i + 1)) as [|Hi]; [discriminate|].
  destruct (find _ ElementsDefs) as [[name v]|] eqn:Hf; [|discriminate].
  apply find_some in Hf as [Hin Hname]. cbn [fst] in Hname.
  apply String.eqb_eq in Hname.
  assert (Htkn : tkn = (firstn i tkn ++ name :: skipn (S i) tkn)%list).
  { rewrite <- (firstn_skipn i tkn) at 1. f_equal.
    rewrite (skipn_cons_nth tkn i) by lia. rewrite Hname. reflexivity. }
  assert (Hpre : List.length (firstn i tkn) = i) by (apply firstn_length_le; lia).
  rewrite <- Hname.
  assert (Hbr : forall n : option nat,
             In name bracketedNames ->
             match n with Some n => name = "Affine" /\ n = 9%nat | None => name <> "Affine" end ->
             match bracketed tkn (S i) with
             | Some (count, j) =>
                 if match n with Some n => negb (Nat.eqb count n) | None => false end
                 then None
                 else Some ({| type := name; members := span tkn (j - 1 - count) count |}, j)
             | None => None
             end = Some (e, i') ->
             exists pre rest : Tokens,
               List.length pre = i /\
               ((In (type e) bracketedNames /\
                 Forall (fun t => t <> "]") (members e) /\
                 arityOk (type e) (members e) = true /\
                 tkn = (pre ++ bracketedElement (type e) (members e) ++ rest)%list /\
                 i' = (i + 4 + List.length (members e))%nat)
                \/
                (type e = "Marker" /\
                 (exists t, members e = [t] /\
                            tkn = (pre ++ "Marker" :: ":" :: t :: rest)%list) /\
                 i' = (i + 3)%nat))).
  { intros n Hnm Hn H.
    destruct (bracketed tkn (S i)) as [[count j]|] eqn:Hb; [|discriminate].
    destruct (bracketed_inv tkn (S i) count j Hb) as (ms & rest & Hsk & Hlen & Hms & ->).
    assert (Hspan : span tkn (S i + 3 + count - 1 - count) count = ms).
    { replace (S i + 3 + count - 1 - count)%nat with (i + 3)%nat by lia.
      rewrite Htkn, Hsk.
      replace (firstn i tkn ++ name :: ":" :: "[" :: ms ++ "]" :: rest)%list
        with ((firstn i tkn ++ [name; ":"; "["]) ++ ms ++ "]" :: rest)%list
        by (rewrite <- app_assoc; reflexivity).
      replace (i + 3)%nat with (List.length (firstn i tkn ++ [name; ":"; "["]))
        by (rewrite length_app, Hpre; reflexivity).
      rewrite <- Hlen. apply span_members. }
    rewrite Hspan in H.
    assert (Har : arityOk name ms = true /\ Some (e, i') = Some ({| type := name; members := ms |}, (S i + 3 + count)%nat)).
    { destruct n as [n|].
      - destruct Hn as [-> ->]. unfold arityOk. cbn [String.eqb Ascii.eqb Bool.eqb].
        subst count. destruct (Nat.eqb _ 9); [auto | discriminate H].
      - split; [|auto]. unfold arityOk.
        destruct (String.eqb_spec name "Affine"); [contradiction | reflexivity]. }
    destruct Har as [Har He]. injection He as -> ->. subst count.
    exists (firstn i tkn), rest. split; [exact Hpre|]. left. cbn [type members].
    repeat split; try assumption; [|unfold Token; lia].
    rewrite Htkn at 1. rewrite Hsk. unfold bracketedElement.
    cbn [app]. rewrite <- app_assoc. reflexivity. }
  cbn in Hin.
  destruct Hin as [E|[E|[E|[E|[E|[]]]]]]; injection E as <- <-.
  - apply (Hbr None); [cbn; tauto | discriminate].
  - apply (Hbr None); [cbn; tauto | discriminate].
  - apply (Hbr None); [cbn; tauto | discriminate].
  - apply (Hbr (Some 9%nat)); [cbn; tauto | auto].
  - clear Hbr.
    destruct (Nat.ltb_spec (List.length tkn) (S i + 2)) as [|Hi2]; [discriminate|].
    destruct (String.eqb_spec (at_ tkn (S i)) ":") as [Hc|]; [|discriminate].
    cbn [negb]. intros H. injection H as <- <-.
    exists (firstn i tkn), (skipn (S (S (S i))) tkn). split; [exact Hpre|]. right.
    cbn [type members]. split; [reflexivity|]. split; [|lia].
    exists (nth (S (S i)) tkn ""). split.
    + unfold span. rewrite (skipn_cons_nth tkn (S (S i))) by lia. reflexivity.
    + rewrite Htkn at 1. rewrite (skipn_cons_nth tkn (S i)) by lia.
      rewrite (skipn_cons_nth tkn (S (S i))) by lia.
      unfold at_ in Hc. rewrite Hc. reflexivity.
Qed.

Lemma parseElement_marker (pre rest : Tokens) (t : Token) :
  parseElement (pre ++ "Marker" :: ":" :: t :: rest)%list (List.length pre)
  = Some ({| type := "Marker"; members := [t] |}, (List.length pre + 3)%nat).
Proof.
  unfold parseElement. rewrite length_app. cbn [List.length].
  destruct (Nat.ltb_spec (List.length pre + S (S (S (List.length rest))))
                         (List.length pre + 1)); [lia|].
  rewrite at_here.
  change (find _ ElementsDefs) with (Some ("Marker", tSingle tString)). cbv iota beta.
  destruct (Nat.ltb_spec (List.length pre + S (S (S (List.length rest))))
                         (S (List.length pre) + 2)); [lia|].
  replace (S (List.length pre)) with (List.length pre + 1)%nat by lia.
  rewrite at_app. cbn [nth]. change (negb (":" =? ":")%string) with false. cbv iota.
  do 2 f_equal; [|lia]. f_equal. unfold span.
  replace (S (List.length pre + 1)) with (List.length pre + 2)%nat by lia.
  rewrite skipn_pre. reflexivity.
Qed.

(** [parseElement] succeeds at index [i] exactly when the tokens from [i]
    on are [name : [ members ]], with a name among Data, Pencil, Brush and
    Affine, no closing bracket among the members and nine members for
    Affine, or are [Marker : token], with any token at all; it returns
    these members and the index after the element.  The multiplicity that
    [ElementsDefs] gives for Brush is not checked. *)
Theorem parseElement_iff (tkn : Tokens) (i : nat) (e : ElementData) (i' : nat) :
  parseElement tkn i = Some (e, i') <->
  exists pre rest : Tokens,
    List.length pre = i /\
    ((In (type e) bracketedNames /\
      Forall (fun t => t <> "]") (members e) /\
      arityOk (type e) (members e) = true /\
      tkn = (pre ++ bracketedElement (type e) (members e) ++ rest)%list /\
      i' = (i + 4 + List.length (members e))%nat)
     \/
     (type e = "Marker" /\
      (exists t, members e = [t] /\ tkn = (pre ++ "Marker" :: ":" :: t :: rest)%list) /\
      i' = (i + 3)%nat)).
Proof.
  split; [apply parseElement_inv|].
  intros (pre & rest & <- & [(Hin & Hms & Har & -> & ->) | (Hty & (t & Hm & ->) & ->)]).
  - destruct e as [name ms]. cbn [type members] in *.
    apply parseElement_bracketed; assumption.
  - destruct e as [name ms]. cbn [type members] in *. subst name ms.
    apply parseElement_marker.
Qed.

Lemma parseElement_affine_arity_witness :
  Forall (fun t => t <> "]") ["1"; "0"; "0"; "0"; "1"; "0"; "0"; "0"; "1"] /\
  parseElement ("Affine" :: ":" :: "[" ::
                (["1"; "0"; "0"; "0"; "1"; "0"; "0"; "0"; "1"] ++ "]" :: [";"])%list) 0
  = if Nat.eqb (List.length ["1"; "0"; "0"; "0"; "1"; "0"; "0"; "0"; "1"]) 9
    then Some ({| type := "Affine";
                  members := ["1"; "0"; "0"; "0"; "1"; "0"; "0"; "0"; "1"] |},
               (4 + List.length ["1"; "0"; "0"; "0"; "1"; "0"; "0"; "0"; "1"])%nat)
    else None.
Proof.
  assert (H : Forall (fun t => t <> "]") ["1"; "0"; "0"; "0"; "1"; "0"; "0"; "0"; "1"])
    by (repeat constructor; discriminate).
  split; [exact H|].
  apply (parseElement_affine_arity ["1"; "0"; "0"; "0"; "1"; "0"; "0"; "0"; "1"] [";"] H).
Defined.

End GrammarMore.

(** ** Point data *)

Section Strokes.
Import ParserBase SketchFormat.

Lemma base36_rejects (N : nat) (T : IntType) (s : string) :
  allBase36 s = false -> base36 N T s = Abort AssertionFailed.
Proof.
  intros H. unfold base36, base36_with.
  destruct (Nat.leb _ _); [|reflexivity].
  rewrite (base36_loop_rejects T s 0 H). reflexivity.
Qed.

Lemma base36_coordinate (s : string) :
  String.length s = 3%nat ->
  base36 3 int16_t s
  = if allBase36 s then Ret (signed36 3 (value36 s 0)) else Abort AssertionFailed.
Proof.
  intros Hlen. destruct (allBase36 s) eqn:Hall.
  - apply base36_3_int16; assumption.
  - apply base36_rejects, Hall.
Qed.

Lemma base36_pressure (s : string) :
  (String.length s <= 2)%nat ->
  base36 2 uint32_t s
  = if allBase36 s then Ret (value36 s 0) else Abort AssertionFailed.
Proof.
  intros Hlen. destruct (allBase36 s) eqn:Hall.
  - apply base36_unsigned_value; try reflexivity; assumption.
  - apply base36_rejects, Hall.
Qed.

(* one whole window *)
Lemma decode_window (isBrush : bool) (digits : string) (k : Point -> run (list Point * string)) :
  String.length digits = window isBrush ->
  (sx <- substr digits 0 3 ;;
   px <- base36 3 int16_t sx ;;
   sy <- substr digits 3 3 ;;
   py <- base36 3 int16_t sy ;;
   pr <- (if isBrush
          then sp <- substr digits 6 2 ;;
               v <- base36 2 uint32_t sp ;;
               Ret (Float32.div (Float32.of_int v) (Float32.of_int (36 * 36 - 1)))
          else Ret Float32.one) ;;
   k {| x := px; y := py; pressure := pr |})
  = if allBase36 digits then k (pointOfWindow isBrush digits) else Abort AssertionFailed.
Proof.
  intros Hlen. unfold pointOfWindow.
  destruct isBrush; cbn [window] in Hlen.
  - destruct digits as [|a [|b [|c [|d [|e [|f [|g [|h [|]]]]]]]]]; try discriminate Hlen.
    unfold substr. cbn [String.length Nat.ltb Nat.leb substring bind].
    rewrite !base36_coordinate by reflexivity.
    rewrite base36_pressure by (cbn; lia).
    cbn [allBase36].
    destruct (isBase36 a), (isBase36 b), (isBase36 c), (isBase36 d),
             (isBase36 e), (isBase36 f), (isBase36 g), (isBase36 h); reflexivity.
  - destruct digits as [|a [|b [|c [|d [|e [|f [|]]]]]]]; try discriminate Hlen.
    unfold substr. cbn [String.length Nat.ltb Nat.leb substring bind].
    rewrite !base36_coordinate by reflexivity.
    cbn [allBase36].
    destruct (isBase36 a), (isBase36 b), (isBase36 c), (isBase36 d),
             (isBase36 e), (isBase36 f); reflexivity.
Qed.

Lemma points_loop_closed (isBrush : bool) (chars : string) :
  forall (digits : string) (pts : list Point),
    (String.length digits < window isBrush)%nat ->
    points_loop isBrush chars digits pts
    = if forallb allBase36 (windows (window isBrush) (strip chars) digits)
      then Ret ((pts ++ map (pointOfWindow isBrush)
                          (windows (window isBrush) (strip chars) digits))%list,
                leftover (window isBrush) (strip chars) digits)
      else Abort AssertionFailed.
Proof.
  induction chars as [|c chars IH]; intros digits pts Hd.
  - cbn. rewrite app_nil_r. reflexivity.
  - cbn [points_loop strip]. destruct (Ascii.eqb c "'"); [apply IH, Hd|].
    cbn [windows leftover]. fold (window isBrush).
    assert (Hlen : String.length (digits ++ String c "") = S (String.length digits))
      by (rewrite length_append; cbn; lia).
    destruct (Nat.ltb_spec (String.length (digits ++ String c "")) (window isBrush)) as [Hlt|Hge].
    + apply IH, Hlt.
    + rewrite (decode_window isBrush (digits ++ String c "")
                 (fun p => points_loop isBrush chars "" (pts ++ [p])%list)) by lia.
      cbn [forallb map].
      destruct (allBase36 (digits ++ String c "")); [|reflexivity].
      rewrite IH by (destruct isBrush; cbn; lia). cbn [andb].
      destruct (forallb _ _); [|reflexivity].
      rewrite <- app_assoc. reflexivity.
Qed.

Lemma allBase36_app (a b : string) :
  allBase36 (a ++ b) = allBase36 a && allBase36 b.
Proof.
  induction a as [|c a IH]; cbn [append allBase36]; [reflexivity|].
  rewrite IH, andb_assoc. reflexivity.
Qed.

(* What the windows and the leftover are made of. *)
Lemma windows_spec (w : nat) (s : string) :
  forall cur : string,
    (String.length cur < w)%nat ->
    (String.length cur + String.length s
     = w * List.length (windows w s cur) + String.length (leftover w s cur))%nat /\
    (String.length (leftover w s cur) < w)%nat /\
    Forall (fun d => String.length d = w) (windows w s cur) /\
    forallb allBase36 (windows w s cur) && allBase36 (leftover w s cur)
    = allBase36 cur && allBase36 s.
Proof.
  induction s as [|c s IH]; intros cur Hcur.
  - cbn [windows leftover String.length List.length forallb allBase36].
    rewrite andb_true_r. repeat split; [lia | exact Hcur | constructor].
  - cbn [windows leftover String.length allBase36].
    assert (Hlen : String.length (cur ++ String c "") = S (String.length cur))
      by (rewrite length_append; cbn; lia).
    assert (Hall : allBase36 (cur ++ String c "") = allBase36 cur && isBase36 c)
      by (rewrite allBase36_app; cbn [allBase36]; rewrite andb_true_r; reflexivity).
    destruct (Nat.ltb_spec (String.length (cur ++ String c "")) w) as [Hlt|Hge].
    + destruct (IH _ Hlt) as (H1 & H2 & H3 & H4).
      repeat split; [lia | exact H2 | exact H3|].
      rewrite H4, Hall, andb_assoc. reflexivity.
    + destruct (IH "" ltac:(cbn; lia)) as (H1 & H2 & H3 & H4).
      cbn [String.length] in H1. cbn [List.length forallb].
      repeat split; [lia | exact H2 | constructor; [lia | exact H3] |].
      rewrite <- andb_assoc, H4, Hall. cbn [allBase36 andb]. rewrite andb_assoc.
      reflexivity.
Qed.

Lemma one_stroke_closed (isBrush : bool) (d : Z) (member : Token) :
  one_stroke isBrush d member
  = if forallb allBase36 (windows (window isBrush) (strip member) "")
       && Nat.eqb (String.length (leftover (window isBrush) (strip member) "")) 0
    then Ret {| diameter := d;
                points := map (pointOfWindow isBrush)
                              (windows (window isBrush) (strip member) "") |}
    else Abort AssertionFailed.
Proof.
  unfold one_stroke.
  rewrite points_loop_closed by (destruct isBrush; cbn; lia).
  destruct (forallb _ _); [|reflexivity]. cbn [bind app andb].
  destruct (Nat.eqb _ 0); reflexivity.
Qed.

Lemma one_stroke_natural (isBrush : bool) (d : Z) (member : Token) :
  one_stroke isBrush d member
  = if allBase36 (strip member)
       && Nat.eqb (String.length (strip member) mod window isBrush) 0
    then Ret {| diameter := d;
                points := map (pointOfWindow isBrush)
                              (windows (window isBrush) (strip member) "") |}
    else Abort AssertionFailed.
Proof.
  rewrite one_stroke_closed.
  assert (Hw : (0 < window isBrush)%nat) by (destruct isBrush; cbn; lia).
  destruct (windows_spec (window isBrush) (strip member) "" Hw) as (H1 & H2 & _ & H4).
  cbn [String.length Nat.add allBase36 andb] in H1, H4.
  set (ws := windows (window isBrush) (strip member) "") in *.
  set (lo := leftover (window isBrush) (strip member) "") in *.
  destruct (Nat.eqb_spec (String.length lo) 0) as [E0|E0].
  - assert (Hlo : allBase36 lo = true) by (destruct lo; [reflexivity | discriminate E0]).
    rewrite Hlo, andb_true_r in H4. rewrite H4, H1, E0, Nat.add_0_r.
    rewrite Nat.mul_comm, Nat.Div0.mod_mul. cbn [Nat.eqb]. reflexivity.
  - rewrite andb_false_r.
    assert (Hm : (String.length (strip member) mod window isBrush = String.length lo)%nat).
    { rewrite H1, Nat.add_comm, Nat.mul_comm, Nat.Div0.mod_add.
      apply Nat.mod_small, H2. }
    rewrite Hm. destruct (Nat.eqb_spec (String.length lo) 0); [contradiction|].
    rewrite andb_false_r. reflexivity.
Qed.

(** The point data of one member: with the apostrophes dropped, a member
    made of base-36 digits in whole windows (6 digits, 8 for a brush) gives
    one point for each window; any other member fails an assertion, either
    the one of [base36] or [assert(digits.empty())]. *)
Theorem one_stroke_windows (isBrush : bool) (d : Z) (member : Token) :
  one_stroke isBrush d member
  = if allBase36 (strip member)
       && Nat.eqb (String.length (strip member) mod window isBrush) 0
    then Ret {| diameter := d;
                points := map (pointOfWindow isBrush)
                              (windows (window isBrush) (strip member) "") |}
    else Abort AssertionFailed.
Proof. apply one_stroke_natural. Qed.

Lemma allBase36_substring (s : string) :
  forall n m : nat, allBase36 s = true -> allBase36 (substring n m s) = true.
Proof.
  induction s as [|c s IH]; intros n m H.
  - destruct n, m; reflexivity.
  - cbn [allBase36] in H. apply andb_prop in H as [Hc H].
    destruct n as [|n]; cbn [substring].
    + destruct m as [|m]; [reflexivity|]. cbn [allBase36]. rewrite Hc. apply IH, H.
    + apply IH, H.
Qed.

Lemma substring_length_le (s : string) :
  forall n m : nat, (String.length (substring n m s) <= m)%nat.
Proof.
  induction s as [|c s IH]; intros n m.
  - destruct n, m; cbn; lia.
  - destruct n as [|n]; cbn [substring].
    + destruct m as [|m]; [cbn; lia|]. cbn [String.length]. specialize (IH 0%nat m). lia.
    + apply IH.
Qed.

Lemma signed36_3_range (s : string) :
  allBase36 s = true -> (String.length s <= 3)%nat ->
  -23328 <= signed36 3 (value36 s 0) < 23328.
Proof.
  intros Hall Hlen.
  pose proof (value36_bound s 0 Hall ltac:(lia)) as Hv.
  pose proof (pow36_le _ 3 Hlen) as Hle. change (36 ^ Z.of_nat 3) with 46656 in Hle.
  unfold signed36. change (36 ^ Z.of_nat 3 / 2) with 23328.
  change (36 ^ Z.of_nat 3) with 46656.
  destruct (Z.ltb_spec (value36 s 0) 23328); lia.
Qed.

(** A stroke, when one is returned: the diameter handed in, one point for
    each window of digits, coordinates from -23328 to 23327, and a pressure
    of 1, or for a brush of [v / 1295] with [v] from 0 to 1295. *)
Theorem one_stroke_points (isBrush : bool) (d : Z) (member : Token) (st : Stroke) :
  one_stroke isBrush d member = Ret st ->
  diameter st = d /\
  (List.length (points st) * window isBrush = String.length (strip member))%nat /\
  Forall (fun p => -23328 <= x p < 23328 /\ -23328 <= y p < 23328 /\
                   if isBrush
                   then exists v, 0 <= v <= 1295 /\
                                  pressure p = Float32.div (Float32.of_int v)
                                                           (Float32.of_int 1295)
                   else pressure p = Float32.one)
         (points st).
Proof.
  rewrite one_stroke_closed.
  assert (Hw : (0 < window isBrush)%nat) by (destruct isBrush; cbn; lia).
  destruct (windows_spec (window isBrush) (strip member) "" Hw) as (H1 & _ & H3 & _).
  cbn [String.length Nat.add] in H1.
  destruct (forallb allBase36 _) eqn:Hall; [|discriminate]. cbn [andb].
  destruct (Nat.eqb_spec (String.length (leftover (window isBrush) (strip member) "")) 0)
    as [E0|]; [|discriminate].
  intros H. injection H as <-. cbn [diameter points].
  split; [reflexivity|]. split; [rewrite length_map, H1, E0; lia|].
  rewrite forallb_forall in Hall. rewrite Forall_forall in H3.
  apply Forall_forall. intros p Hp. apply in_map_iff in Hp as (w & <- & Hin).
  specialize (Hall w Hin). specialize (H3 w Hin).
  unfold pointOfWindow. cbn [x y pressure].
  split; [apply signed36_3_range; [apply allBase36_substring, Hall | apply substring_length_le]|].
  split; [apply signed36_3_range; [apply allBase36_substring, Hall | apply substring_length_le]|].
  destruct isBrush; [|reflexivity].
  exists (value36 (substring 6 2 w) 0). split; [|reflexivity].
  pose proof (value36_bound (substring 6 2 w) 0 (allBase36_substring w 6 2 Hall) ltac:(lia)) as Hv.
  pose proof (pow36_le _ 2 (substring_length_le w 6 2)) as Hle.
  change (36 ^ Z.of_nat 2) with 1296 in Hle. lia.
Qed.

Lemma one_stroke_points_witness :
  exists st : Stroke,
    one_stroke true 10 "ZZZ'000'ZZ" = Ret st /\
    diameter st = 10 /\
    (List.length (points st) * window true = String.length (strip "ZZZ'000'ZZ"))%nat /\
    Forall (fun p => -23328 <= x p < 23328 /\ -23328 <= y p < 23328 /\
                     exists v, 0 <= v <= 1295 /\
                               pressure p = Float32.div (Float32.of_int v)
                                                        (Float32.of_int 1295))
           (points st).
Proof.
  eexists. split; [reflexivity|].
  apply (one_stroke_points true 10 "ZZZ'000'ZZ"). reflexivity.
Defined.

End Strokes.

(** ** Elements and statements *)

Section AssemblerMore.
Import ParserBase SketchFormat.
Variable ElementType : Type.
Variable elementTypeFromString : string -> option ElementType.
Variable pow : Float32.t -> nat -> Float32.t.

(** *** [isAny] on tokens *)
Lemma prefix_one (t : string) (c : ascii) :
  t <> "" -> prefix t (String c "") = String.eqb t (String c "").
Proof.
  intros Ht. destruct t as [|d [|e t]]; [contradiction | |].
  - cbn. destruct (Ascii.eqb_spec d c) as [->|Hd].
    + destruct (ascii_dec c c); [reflexivity | contradiction].
    + destruct (ascii_dec d c); [contradiction | reflexivity].
  - cbn. destruct (ascii_dec d c); destruct (Ascii.eqb d c); reflexivity.
Qed.

Lemma contains_one (t : string) (c : ascii) :
  t <> "" -> contains (String c "") t = String.eqb t (String c "").
Proof.
  intros Ht. cbn [contains]. rewrite (prefix_one t c Ht).
  destruct t; [contradiction|]. cbn [prefix]. rewrite orb_false_r. reflexivity.
Qed.

Lemma separator_test (t : Token) :
  t <> "" -> isAnyOf t [","; ";"] = String.eqb t "," || String.eqb t ";".
Proof.
  intros Ht. unfold isAnyOf. cbn [existsb].
  rewrite !contains_one by exact Ht. rewrite orb_false_r. reflexivity.
Qed.

Lemma stroke_test (t : Token) :
  isElementName t = true ->
  isAnyOf t ["Data"; "Pencil"; "Brush"]
  = String.eqb t "Data" || String.eqb t "Pencil" || String.eqb t "Brush".
Proof.
  unfold isElementName, elementNames. cbn [existsb]. intros H.
  repeat (apply orb_prop in H as [H|H];
          [apply String.eqb_eq in H; subst t; vm_compute; reflexivity|]).
  discriminate H.
Qed.

Lemma tokenShape_nonempty (t : Token) : tokenShape t = true -> t <> "".
Proof. destruct t; [discriminate | discriminate]. Qed.

Lemma parseElement_name (tkn : Tokens) (i : nat) (e : ElementData) (i' : nat) :
  parseElement tkn i = Some (e, i') -> isElementName (type e) = true.
Proof.
  unfold parseElement.
  destruct (Nat.ltb (List.length tkn) (i + 1)); [discriminate|].
  destruct (find _ ElementsDefs) as [[name v]|] eqn:Hf; [|discriminate].
  apply find_some in Hf as [Hin Hname]. cbn [fst] in Hname.
  apply String.eqb_eq in Hname.
  assert (Hn : isElementName (at_ tkn i) = true).
  { rewrite <- Hname. cbn in Hin.
    repeat (destruct Hin as [E|Hin]; [injection E as <- <-; reflexivity|]).
    contradiction. }
  destruct v as [|ty|ty mult|ty n].
  - intros H; injection H as <- <-. exact Hn.
  - repeat match goal with
           | |- context [if ?b then _ else _] => destruct b
           end; try discriminate.
    intros H; injection H as <- <-. exact Hn.
  - destruct (bracketed tkn (S i)) as [[count j]|]; [|discriminate].
    intros H; injection H as <- <-. exact Hn.
  - destruct (bracketed tkn (S i)) as [[count j]|]; [|discriminate].
    destruct (negb (Nat.eqb count n)); [discriminate|].
    intros H; injection H as <- <-. exact Hn.
Qed.

(** [isAny] at a token and string literals tests whether the token occurs
    inside one of the literals.  On the tokens of [tokenize] the test
    against [","] and [";"], and on the type names accepted by
    [parseElement] the test against the three stroke names, are tests for
    equality; on other strings they are not (the empty string, ["at"]). *)
Theorem isAny_is_equality_where_used :
  (forall str : string,
      Forall (fun t => isAnyOf t [","; ";"] = String.eqb t "," || String.eqb t ";")
             (tokenize str)) /\
  (forall (tkn : Tokens) (i : nat) (e : ElementData) (i' : nat),
      parseElement tkn i = Some (e, i') ->
      isAnyOf (type e) ["Data"; "Pencil"; "Brush"]
      = String.eqb (type e) "Data" || String.eqb (type e) "Pencil"
        || String.eqb (type e) "Brush") /\
  isAnyOf "" [","; ";"] = true /\
  isAnyOf "at" ["Data"; "Pencil"; "Brush"] = true.
Proof.
  split; [|split; [|split; reflexivity]].
  - intros str. apply Forall_forall. intros t Ht.
    apply separator_test, tokenShape_nonempty.
    pose proof (tokens_shaped "000" str) as H. fold (tokenize str) in H.
    rewrite forallb_forall in H. apply H, Ht.
  - intros tkn i e i' H. apply stroke_test. exact (parseElement_name tkn i e i' H).
Qed.

(** *** Markers *)
Lemma ends_with_append (s : string) (c : ascii) : ends_with (s ++ String c "") c = true.
Proof.
  induction s as [|d s IH]; cbn [append ends_with]; [apply Ascii.eqb_refl|].
  destruct (s ++ String c "")%string eqn:E; [destruct s; discriminate E | exact IH].
Qed.

Lemma substring_inner (s : string) (c : ascii) :
  substring 0 (String.length s) (s ++ String c "") = s.
Proof.
  induction s as [|d s IH]; cbn [append String.length substring]; [reflexivity|].
  rewrite IH. reflexivity.
Qed.

(* A marker keeps the text between its outer parentheses. *)
Lemma mainElement_marker (s : string) (more : list Token) :
  mainElement {| type := "Marker"; members := ("(" ++ s ++ ")")%string :: more |}
  = Ret [AMarker {| message := s |}].
Proof.
  unfold mainElement. cbn [type members].
  change (isAnyOf "Marker" ["Data"; "Pencil"; "Brush"]) with false.
  change ("Marker" =? "Marker")%string with true. cbv iota.
  cbn [append starts_with]. change (Ascii.eqb "(" "(") with true. cbn [andb].
  assert (He : ends_with (String "(" (s ++ ")")) ")" = true).
  { replace (String "(" (s ++ ")")) with ((String "(" s) ++ ")")%string by reflexivity.
    apply ends_with_append. }
  rewrite He. do 4 f_equal.
  cbn [String.length substring].
  rewrite length_append. cbn [String.length].
  replace (S (String.length s + 1) - 2)%nat with (String.length s) by lia.
  apply substring_inner.
Qed.

(** *** Statements that are refused *)
Lemma find_not_name (t : Token) :
  isElementName t = false -> find (fun d => String.eqb (fst d) t) ElementsDefs = None.
Proof.
  unfold isElementName, elementNames. cbn [existsb find ElementsDefs fst].
  rewrite !(String.eqb_sym t). intros H.
  repeat (apply orb_false_iff in H as [-> H]). reflexivity.
Qed.

(** A statement that starts with a token other than the five element
    names is refused: this covers an unknown name and the empty statement
    before a comma or a semicolon. *)
Theorem statement_needs_element_name (tkn : Tokens) (i : nat) :
  (i < List.length tkn)%nat -> isElementName (at_ tkn i) = false ->
  statement elementTypeFromString pow tkn i = Ret None.
Proof.
  intros Hi Hn. unfold statement. cbn [collect].
  destruct (Nat.ltb_spec i (List.length tkn)) as [_|]; [|lia]. cbn [andb].
  destruct (isAnyOf (at_ tkn i) [","; ";"]); cbn [negb bind].
  - reflexivity.
  - unfold parseElement.
    destruct (Nat.ltb_spec (List.length tkn) (i + 1)); [reflexivity|].
    rewrite (find_not_name _ Hn). reflexivity.
Qed.

(** *** The strokes of an element *)
Lemma base36_Ret_inv (N : nat) (T : IntType) (s : string) (r : Z) :
  base36 N T s = Ret r -> (String.length s <= N)%nat /\ allBase36 s = true.
Proof.
  unfold base36, base36_with.
  destruct (Nat.leb_spec (String.length s) N) as [Hle|]; [|discriminate].
  destruct (allBase36 s) eqn:Hall; [auto|].
  rewrite (base36_loop_rejects T s 0 Hall). discriminate.
Qed.

Lemma base36_diameter (s : string) (r : Z) :
  base36 2 uint32_t s = Ret r -> 0 <= r <= 1295.
Proof.
  intros H. destruct (base36_Ret_inv _ _ _ _ H) as [Hlen Hall].
  rewrite base36_unsigned_value in H by (try reflexivity; assumption).
  injection H as <-.
  pose proof (value36_bound s 0 Hall ltac:(lia)) as Hv.
  pose proof (pow36_le _ 2 Hlen) as Hle. change (36 ^ Z.of_nat 2) with 1296 in Hle. lia.
Qed.

Lemma one_stroke_diameter (isBrush : bool) (d : Z) (member : Token) (st : Stroke) :
  one_stroke isBrush d member = Ret st -> diameter st = d.
Proof.
  unfold one_stroke. intros H.
  apply bind_Ret_inv in H as ([pts digits] & _ & H).
  destruct (Nat.eqb _ 0); [|discriminate]. injection H as <-. reflexivity.
Qed.

Lemma strokes_loop_shape (isBrush : bool) (n : nat) :
  forall (ms : list Token) (acc atoms : list Atom),
    (List.length ms <= n)%nat ->
    strokes_loop isBrush ms acc = Ret atoms ->
    exists news : list Atom,
      atoms = (acc ++ news)%list /\
      (List.length ms = (if isBrush then 2 else 1) * List.length news)%nat /\
      Forall (fun a => exists st, a = AStroke st /\
                                  if isBrush then 0 <= diameter st <= 1295
                                  else diameter st = 3) news.
Proof.
  induction n as [|n IH]; intros ms acc atoms Hlen H.
  - destruct ms; [|cbn in Hlen; lia]. cbn in H. injection H as <-.
    exists []. rewrite app_nil_r. repeat split; [destruct isBrush; reflexivity | constructor].
  - destruct ms as [|m0 rest0].
    + cbn in H. injection H as <-.
      exists []. rewrite app_nil_r. repeat split; [destruct isBrush; reflexivity | constructor].
    + cbn [strokes_loop] in H. destruct isBrush.
      * apply bind_Ret_inv in H as (dia & Hd & H).
        destruct rest0 as [|m1 rest1]; [discriminate|].
        apply bind_Ret_inv in H as (st & Hst & H).
        apply IH in H as (news & -> & Hn & Hall); [|cbn [List.length] in Hlen; lia].
        exists (AStroke st :: news). rewrite <- app_assoc. cbn [app List.length].
        repeat split; [lia|]. constructor; [|exact Hall].
        exists st. split; [reflexivity|].
        rewrite (one_stroke_diameter _ _ _ _ Hst). apply (base36_diameter _ _ Hd).
      * apply bind_Ret_inv in H as (st & Hst & H).
        apply IH in H as (news & -> & Hn & Hall); [|cbn [List.length] in Hlen; lia].
        exists (AStroke st :: news). rewrite <- app_assoc. cbn [app List.length].
        repeat split; [lia|]. constructor; [|exact Hall].
        exists st. split; [reflexivity|]. apply (one_stroke_diameter _ _ _ _ Hst).
Qed.

(** The strokes of an element, when the loop returns: one stroke for each
    member with diameter 3, or for a brush one stroke for each pair of
    members with a diameter from 0 to 1295; so a brush whose strokes are
    returned has an even number of members. *)
Theorem strokes_loop_counts (isBrush : bool) (ms : list Token) (atoms : list Atom) :
  strokes_loop isBrush ms [] = Ret atoms ->
  (List.length ms = (if isBrush then 2 else 1) * List.length atoms)%nat /\
  Forall (fun a => exists st, a = AStroke st /\
                              if isBrush then 0 <= diameter st <= 1295
                              else diameter st = 3) atoms.
Proof.
  intros H.
  destruct (strokes_loop_shape isBrush (List.length ms) ms [] atoms (le_n _) H)
    as (news & -> & Hn & Hall).
  cbn [app]. split; assumption.
Qed.

Lemma brush_dangling (n : nat) :
  forall (ms : list Token) (d : Token) (acc atoms : list Atom) (v : Z),
    (List.length ms <= n)%nat ->
    strokes_loop true ms acc = Ret atoms ->
    base36 2 uint32_t d = Ret v ->
    strokes_loop true (ms ++ [d]) acc = Abort OutOfRange.
Proof.
  induction n as [|n IH]; intros ms d acc atoms v Hlen H Hd.
  - destruct ms; [|cbn in Hlen; lia]. cbn [app strokes_loop]. rewrite Hd. reflexivity.
  - destruct ms as [|m0 [|m1 rest]].
    + cbn [app strokes_loop]. rewrite Hd. reflexivity.
    + cbn [strokes_loop] in H. destruct (base36 2 uint32_t m0); discriminate H.
    + cbn [app strokes_loop] in *.
      destruct (base36 2 uint32_t m0) as [dia|]; [|discriminate H]. cbn [bind] in *.
      destruct (one_stroke true dia m1) as [st|]; [|discriminate H]. cbn [bind] in *.
      apply (IH rest d _ atoms v); [cbn [List.length] in Hlen; lia | exact H | exact Hd].
Qed.

Lemma base36_not_bracket (N : nat) (T : IntType) (s : string) (r : Z) :
  base36 N T s = Ret r -> s <> "]".
Proof.
  intros H ->. apply base36_Ret_inv in H as [_ H]. discriminate H.
Qed.

Lemma one_stroke_not_bracket (isBrush : bool) (d : Z) (m : Token) (st : Stroke) :
  one_stroke isBrush d m = Ret st -> m <> "]".
Proof. intros H ->. destruct isBrush; discriminate H. Qed.

Lemma brush_members_no_bracket (n : nat) :
  forall (ms : list Token) (acc atoms : list Atom),
    (List.length ms <= n)%nat ->
    strokes_loop true ms acc = Ret atoms -> Forall (fun t => t <> "]") ms.
Proof.
  induction n as [|n IH]; intros ms acc atoms Hlen H.
  - destruct ms; [constructor | cbn in Hlen; lia].
  - destruct ms as [|m0 [|m1 rest]]; [constructor | |].
    + cbn [strokes_loop] in H. destruct (base36 2 uint32_t m0); discriminate H.
    + cbn [strokes_loop] in H.
      apply bind_Ret_inv in H as (dia & Hd & H).
      apply bind_Ret_inv in H as (st & Hst & H).
      constructor; [exact (base36_not_bracket _ _ _ _ Hd)|].
      constructor; [exact (one_stroke_not_bracket _ _ _ _ Hst)|].
      eapply IH; [cbn [List.length] in Hlen; lia | exact H].
Qed.

(** A brush whose last member is a diameter with no point data after it
    is accepted by [parseElement], and [members[j++]] is then evaluated
    with [j] equal to the number of members. *)
Theorem brush_dangling_diameter (ms : list Token) (d : Token) (atoms : list Atom) (v : Z) :
  mainElement {| type := "Brush"; members := ms |} = Ret atoms ->
  base36 2 uint32_t d = Ret v ->
  parseElement (bracketedElement "Brush" (ms ++ [d]))%list 0
  = Some ({| type := "Brush"; members := (ms ++ [d])%list |},
          (4 + List.length (ms ++ [d]))%nat) /\
  mainElement {| type := "Brush"; members := (ms ++ [d])%list |} = Abort OutOfRange.
Proof.
  unfold mainElement. cbn [type members].
  change (isAnyOf "Brush" ["Data"; "Pencil"; "Brush"]) with true.
  change ("Brush" =? "Brush")%string with true. cbv iota.
  intros H Hd. split; [|apply (brush_dangling (List.length ms) ms d [] atoms v (le_n _) H Hd)].
  pose proof (parseElement_bracketed [] (ms ++ [d])%list [] "Brush") as Hp.
  cbn [app List.length Nat.add] in Hp. rewrite app_nil_r in Hp. apply Hp.
  - right. right. left. reflexivity.
  - apply Forall_app. split.
    + exact (brush_members_no_bracket (List.length ms) ms [] atoms (le_n _) H).
    + constructor; [exact (base36_not_bracket _ _ _ _ Hd) | constructor].
  - reflexivity.
Qed.

End AssemblerMore.

Section AssemblerInstances.
Import ParserBase SketchFormat.

Lemma statement_needs_element_name_witness :
  (1 < List.length ["Data"; ","; ","; "Data"])%nat /\
  isElementName (at_ ["Data"; ","; ","; "Data"] 1) = false /\
  statement Sample.elementTypeFromString Sample.pow ["Data"; ","; ","; "Data"] 1 = Ret None.
Proof.
  split; [cbn; lia|]. split; [reflexivity|].
  apply (statement_needs_element_name _ Sample.elementTypeFromString Sample.pow
           ["Data"; ","; ","; "Data"] 1); [cbn; lia | reflexivity].
Defined.

Lemma brush_dangling_diameter_witness :
  exists atoms v,
    mainElement {| type := "Brush"; members := ["0A"; "0000010A"] |} = Ret atoms /\
    base36 2 uint32_t "0B" = Ret v /\
    parseElement (bracketedElement "Brush" (["0A"; "0000010A"] ++ ["0B"]))%list 0
    = Some ({| type := "Brush"; members := (["0A"; "0000010A"] ++ ["0B"])%list |},
            (4 + List.length (["0A"; "0000010A"] ++ ["0B"]))%nat) /\
    mainElement {| type := "Brush"; members := (["0A"; "0000010A"] ++ ["0B"])%list |}
    = Abort OutOfRange.
Proof.
  eexists. eexists. split; [reflexivity|]. split; [reflexivity|].
  eapply (brush_dangling_diameter ["0A"; "0000010A"] "0B"); reflexivity.
Defined.

Lemma strokes_loop_counts_witness :
  exists atoms,
    strokes_loop true ["0A"; "0000010A"; "0B"; "00000200"] [] = Ret atoms /\
    (List.length ["0A"; "0000010A"; "0B"; "00000200"] = 2 * List.length atoms)%nat /\
    Forall (fun a => exists st, a = AStroke st /\ 0 <= diameter st <= 1295) atoms.
Proof.
  eexists. split; [reflexivity|].
  apply (strokes_loop_counts true ["0A"; "0000010A"; "0B"; "00000200"]). reflexivity.
Defined.

End AssemblerInstances.

(** ** The sketch *)

Section SketchShape.
Import ParserBase SketchFormat.
Variable ElementType : Type.
Variable elementTypeFromString : string -> option ElementType.
Variable pow : Float32.t -> nat -> Float32.t.

Lemma affine_loop_length (trips : nat) :
  forall (j : nat) (ms : list Token) (acc r : list Float32.t),
    affine_loop pow trips j ms acc = Ret r ->
    List.length r = (List.length acc + trips)%nat.
Proof.
  induction trips as [|trips IH]; intros j ms acc r H; cbn [affine_loop] in H.
  - injection H as <-. lia.
  - destruct (nth_error ms j) as [t|]; [|discriminate].
    apply bind_Ret_inv in H as (v & _ & H). apply IH in H.
    rewrite length_app in H. cbn [List.length] in H. lia.
Qed.

Lemma modifiersOf_shape (elems : list ElementData) :
  forall mods r : list Modifier,
    modifiersOf pow elems mods = Ret r ->
    Forall nineEntries mods ->
    Forall nineEntries r /\
    List.length r = (List.length mods + List.length (filter isAffine elems))%nat.
Proof.
  induction elems as [|e elems IH]; intros mods r H Hm.
  - cbn in H. injection H as <-. split; [exact Hm | cbn; lia].
  - rewrite modifiersOf_cons in H. cbn [filter]. unfold isAffine at 1.
    destruct (String.eqb (type e) "Affine").
    + apply bind_Ret_inv in H as (a & Ha & H).
      apply IH in H as [H1 H2].
      * split; [exact H1|]. rewrite H2, length_app. cbn [List.length]. lia.
      * apply Forall_app. split; [exact Hm|]. constructor; [|constructor].
        cbn [nineEntries m]. apply affine_loop_length in Ha. exact Ha.
    + apply IH in H as [H1 H2]; [|exact Hm]. split; [exact H1 | lia].
Qed.

Lemma assemble_wellFormed (elems : list ElementData) (st : Statement ElementType) :
  assemble elementTypeFromString pow elems = Ret (Some st) -> wellFormed st.
Proof.
  destruct elems as [|first rest]; [discriminate|]. cbn [assemble]. intros H.
  apply bind_Ret_inv in H as (atoms & _ & H).
  apply bind_Ret_inv in H as (mods & Hm & H).
  injection H as <-. intros e He. cbn [timelineElem timelineAtoms] in *.
  destruct (elementTypeFromString (type first)) as [ty|]; [|discriminate].
  cbn [option_map] in He. injection He as <-. cbn [el_atoms el_modifiers].
  split; [reflexivity|].
  apply (modifiersOf_shape rest [] mods Hm). constructor.
Qed.

Lemma statement_wellFormed (tkn : Tokens) (i : nat) (st : Statement ElementType) (i' : nat) :
  statement elementTypeFromString pow tkn i = Ret (Some (st, i')) -> wellFormed st.
Proof.
  unfold statement. intros H.
  apply bind_Ret_inv in H as ([[elems j]|] & _ & H); [|discriminate].
  apply bind_Ret_inv in H as ([st'|] & Ha & H); cbn in H; [|discriminate].
  injection H as <- <-. exact (assemble_wellFormed elems st' Ha).
Qed.

Lemma statements_wellFormed (fuel : nat) (tkn : Tokens) :
  forall (i : nat) (sts : list (Statement ElementType)),
    statements_from elementTypeFromString pow fuel tkn i = Ret (Some sts) ->
    Forall wellFormed sts.
Proof.
  induction fuel as [|fuel IH]; intros i sts H; cbn [statements_from] in H;
    [discriminate|].
  destruct (Nat.ltb i (List.length tkn)); [|injection H as <-; constructor].
  apply bind_Ret_inv in H as ([[st j]|] & Hst & H); [|discriminate].
  apply statement_wellFormed in Hst.
  destruct (_ && _).
  - injection H as <-. constructor; [exact Hst | constructor].
  - apply bind_Ret_inv in H as ([rest|] & Hr & H); cbn in H; [|discriminate].
    injection H as <-. constructor; [exact Hst | exact (IH _ _ Hr)].
Qed.

Lemma groupsOf_In (sts : list (Statement ElementType)) (e : Element ElementType) :
  In e (groupsOf sts) -> exists st, In st sts /\ timelineElem st = Some e.
Proof.
  unfold groupsOf. intros H. apply in_flat_map in H as (st & Hin & H).
  exists st. split; [exact Hin|].
  destruct (timelineElem st) as [e'|]; [|contradiction].
  destruct H as [<-|[]]. reflexivity.
Qed.

Lemma blocksReversed_incl (sts : list (Statement ElementType)) (st : Statement ElementType) :
  In st sts -> incl (timelineAtoms st) (blocksReversed sts).
Proof.
  intros Hin a Ha. unfold blocksReversed. apply in_concat.
  exists (timelineAtoms st). split; [|exact Ha].
  apply in_rev. rewrite rev_involutive. apply in_map, Hin.
Qed.

(** In a sketch that [parse] returns, the atoms of every element are
    atoms of the sketch, and every transform of an element has nine
    entries. *)
Theorem sketch_elements_wellFormed (tkn : Tokens) (sk : Sketch ElementType) :
  parse elementTypeFromString pow tkn = Ret (Some sk) ->
  Forall (fun e => incl (el_atoms e) (atoms sk) /\ Forall nineEntries (el_modifiers e))
         (elements sk).
Proof.
  unfold parse.
  destruct tkn as [|t0 rest]; [discriminate|].
  destruct (String.eqb t0 ";").
  - intros H; injection H as <-. constructor.
  - rewrite parse_loop_statements. intros H.
    apply bind_Ret_inv in H as ([sts|] & Hs & H); cbn in H; [|discriminate].
    injection H as <-.
    destruct (addStatement_fold _ sts emptySketch) as [He Ha].
    cbn [emptySketch elements atoms app] in He, Ha. rewrite app_nil_r in Ha.
    rewrite He, Ha.
    pose proof (statements_wellFormed _ _ _ _ Hs) as Hwf.
    rewrite Forall_forall in Hwf.
    apply Forall_forall. intros e Hin.
    apply groupsOf_In in Hin as (st & Hst & He').
    destruct (Hwf st Hst e He') as [H1 H2].
    split; [rewrite H1; apply blocksReversed_incl, Hst | exact H2].
Qed.

(** *** Transforms *)
Lemma affine_loop_inBounds (trips : nat) :
  forall (j : nat) (ms : list Token) (acc : list Float32.t),
    (j + trips <= List.length ms)%nat ->
    Forall (fun t => (0 < String.length t)%nat) ms ->
    inBounds (affine_loop pow trips j ms acc).
Proof.
  induction trips as [|trips IH]; intros j ms acc Hlen Hne; cbn [affine_loop].
  - left. eexists. reflexivity.
  - destruct (nth_error ms j) as [t|] eqn:Ht.
    + apply bind_inBounds.
      * apply base10_float_inBounds. rewrite Forall_forall in Hne.
        apply Hne. exact (nth_error_In _ _ Ht).
      * intros v. apply IH; [lia | exact Hne].
    + apply nth_error_None in Ht. lia.
Qed.

Lemma token_nonempty (t : Token) : tokenShape t = true -> (0 < String.length t)%nat.
Proof. destruct t; [discriminate | cbn; lia]. Qed.

(** An Affine element accepted among the tokens of a text has nine
    members, and decoding them returns or fails an assertion: no member
    beyond the ninth is read, and no member is empty. *)
Theorem affine_stays_in_bounds (str : string) (i : nat) (e : ElementData) (i' : nat) :
  parseElement (tokenize str) i = Some (e, i') -> type e = "Affine" ->
  List.length (members e) = 9%nat /\
  inBounds (affine_loop pow 9 0 (members e) []).
Proof.
  intros Hpe Hty.
  destruct (parseElement_inv _ _ _ _ Hpe)
    as (pre & rest & _ & [(_ & _ & Har & Htkn & _) | (Hm & _)]);
    [|rewrite Hty in Hm; discriminate Hm].
  unfold arityOk in Har. rewrite Hty in Har. cbn [String.eqb Ascii.eqb Bool.eqb] in Har.
  apply Nat.eqb_eq in Har. split; [exact Har|].
  apply affine_loop_inBounds; [unfold Token in *; lia|].
  apply Forall_forall. intros t Hin. apply token_nonempty.
  pose proof (tokens_shaped "000" str) as Hsh. fold (tokenize str) in Hsh.
  rewrite forallb_forall in Hsh. apply Hsh. rewrite Htkn.
  apply in_or_app. right. apply in_or_app. left.
  unfold bracketedElement. cbn [In]. right. right. right.
  apply in_or_app. left. exact Hin.
Qed.

End SketchShape.

Section SketchShapeInstances.
Import ParserBase SketchFormat.

Lemma sketch_elements_wellFormed_witness :
  exists sk,
    Sample.parseText Sample.mixedStatement = Ret (Some sk) /\
    Forall (fun e => incl (el_atoms e) (atoms sk) /\ Forall nineEntries (el_modifiers e))
           (elements sk).
Proof.
  eexists. split; [vm_compute; reflexivity|].
  apply (sketch_elements_wellFormed _ Sample.elementTypeFromString Sample.pow
           (tokenize Sample.mixedStatement)).
  vm_compute. reflexivity.
Defined.

Lemma affine_stays_in_bounds_witness :
  exists e i',
    parseElement (tokenize "Data:[000001] Affine:[1 0 0 .5 -1.5 x 0 0 1]") 5 = Some (e, i') /\
    type e = "Affine" /\
    List.length (members e) = 9%nat /\
    inBounds (affine_loop Sample.pow 9 0 (members e) []).
Proof.
  eexists. eexists. split; [vm_compute; reflexivity|]. split; [reflexivity|].
  eapply (affine_stays_in_bounds Sample.pow "Data:[000001] Affine:[1 0 0 .5 -1.5 x 0 0 1]" 5);
    vm_compute; reflexivity.
Defined.

End SketchShapeInstances.

(** ** From the text to the sketch *)

Section Pipeline.
Import ParserBase SketchFormat.
Variable ElementType : Type.
Variable elementTypeFromString : string -> option ElementType.
Variable pow : Float32.t -> nat -> Float32.t.

Lemma strokes_loop_ok (n : nat) :
  forall (isBrush : bool) (ms : list Token) (acc : list Atom),
    (List.length ms <= n)%nat -> membersOk isBrush ms = true ->
    strokes_loop isBrush ms acc = Ret (acc ++ strokesOf isBrush ms)%list.
Proof.
  induction n as [|n IH]; intros isBrush ms acc Hlen Hok.
  - destruct ms; [|cbn in Hlen; lia]. cbn. rewrite app_nil_r. reflexivity.
  - destruct ms as [|m0 rest0]; [cbn; rewrite app_nil_r; reflexivity|].
    cbn [strokes_loop membersOk strokesOf] in *. destruct isBrush.
    + destruct rest0 as [|m1 rest1]; [discriminate Hok|].
      apply andb_prop in Hok as [Hok Hrest]. apply andb_prop in Hok as [Hd Hp].
      unfold diameterDigits in Hd. apply andb_prop in Hd as [Hd1 Hd2].
      apply Nat.leb_le in Hd2.
      rewrite (base36_unsigned_value 2 uint32_t m0) by (try reflexivity; assumption).
      cbn [bind]. rewrite one_stroke_natural. unfold pointData in Hp. rewrite Hp.
      cbn [bind window].
      rewrite IH by (try assumption; cbn [List.length] in Hlen; lia).
      rewrite <- app_assoc. reflexivity.
    + apply andb_prop in Hok as [Hp Hrest].
      rewrite one_stroke_natural. unfold pointData in Hp. rewrite Hp.
      cbn [bind window].
      rewrite IH by (try assumption; cbn [List.length] in Hlen; lia).
      rewrite <- app_assoc. reflexivity.
Qed.

Lemma collect_at_end (fuel : nat) (tkn : Tokens) (i : nat) (acc : list ElementData) :
  (0 < fuel)%nat -> (List.length tkn <= i)%nat ->
  collect fuel tkn i acc = Ret (Some (acc, i)).
Proof.
  intros Hf Hi. destruct fuel; [lia|]. cbn [collect].
  destruct (Nat.ltb_spec i (List.length tkn)); [lia | reflexivity].
Qed.

Lemma parse_loop_at_end (fuel : nat) (tkn : Tokens) (i : nat) (res : Sketch ElementType) :
  (0 < fuel)%nat -> (List.length tkn <= i)%nat ->
  parse_loop elementTypeFromString pow fuel tkn i res = Ret (Some res).
Proof.
  intros Hf Hi. destruct fuel; [lia|]. cbn [parse_loop].
  destruct (Nat.ltb_spec i (List.length tkn)); [lia | reflexivity].
Qed.

Lemma collect_step (fuel : nat) (tkn : Tokens) (i : nat) (acc : list ElementData) :
  collect (S fuel) tkn i acc
  = if Nat.ltb i (List.length tkn) && negb (isAnyOf (at_ tkn i) [","; ";"])
    then match parseElement tkn i with
         | Some (e, i') => collect fuel tkn i' (acc ++ [e])
         | None => Ret None
         end
    else Ret (Some (acc, i)).
Proof. reflexivity. Qed.

Lemma parse_loop_step (fuel : nat) (tkn : Tokens) (i : nat) (res : Sketch ElementType) :
  parse_loop elementTypeFromString pow (S fuel) tkn i res
  = if Nat.ltb i (List.length tkn)
    then r <- statement elementTypeFromString pow tkn i ;;
         match r with
         | None => Ret None
         | Some (st, i) =>
             if Nat.ltb i (List.length tkn) && String.eqb (at_ tkn i) ";"
             then Ret (Some (addStatement st res))
             else parse_loop elementTypeFromString pow fuel tkn (S i) (addStatement st res)
         end
    else Ret (Some res).
Proof. reflexivity. Qed.

(* A text of one statement of one element. *)
Lemma parse_single (tkn : Tokens) (e : ElementData) (ats : list Atom) :
  (0 < List.length tkn)%nat ->
  String.eqb (at_ tkn 0) ";" = false ->
  isAnyOf (at_ tkn 0) [","; ";"] = false ->
  parseElement tkn 0 = Some (e, List.length tkn) ->
  mainElement e = Ret ats ->
  parse elementTypeFromString pow tkn
  = Ret (Some (singleStatement (elementTypeFromString (type e)) ats)).
Proof.
  intros Hlen Hsemi Hsep Hpe Hmain.
  assert (Hlt : Nat.ltb 0 (List.length tkn) = true) by (apply Nat.ltb_lt; exact Hlen).
  assert (Hst : statement elementTypeFromString pow tkn 0
                = Ret (Some ({| timelineAtoms := ats;
                                timelineElem :=
                                  option_map (fun ty => {| el_type := ty; el_atoms := ats;
                                                           el_modifiers := [] |})
                                             (elementTypeFromString (type e)) |},
                             List.length tkn))).
  { unfold statement. rewrite collect_step, Hlt, Hsep. cbn [andb negb]. rewrite Hpe.
    rewrite collect_at_end by lia. cbn [app bind assemble].
    rewrite Hmain. cbn [bind modifiersOf option_map]. reflexivity. }
  unfold parse. destruct tkn as [|t0 rest]; [cbn in Hlen; lia|].
  cbn [at_ nth] in Hsemi. rewrite Hsemi.
  rewrite parse_loop_step, Hlt, Hst. cbn [bind]. rewrite Nat.ltb_irrefl. cbn [andb].
  rewrite parse_loop_at_end by lia.
  unfold singleStatement, addStatement, emptySketch.
  cbn [timelineElem timelineAtoms elements atoms app].
  rewrite app_nil_r. destruct (elementTypeFromString (type e)); reflexivity.
Qed.

(** *** The tokens of a statement *)
Lemma base36_tokenChar (c : ascii) : isBase36 c = true -> tokenChar c = true.
Proof.
  destruct c as [[] [] [] [] [] [] [] []]; vm_compute; intros H;
    first [reflexivity | discriminate H].
Qed.

Lemma stripped_digits_word (m : Token) :
  allBase36 (strip m) = true -> allTokenChars m = true.
Proof.
  induction m as [|c m IH]; cbn [strip allTokenChars]; [reflexivity|].
  destruct (Ascii.eqb_spec c "'") as [->|Hc].
  - intros H. rewrite (IH H). reflexivity.
  - cbn [allBase36]. intros H. apply andb_prop in H as [H1 H2].
    rewrite (base36_tokenChar c H1), (IH H2). reflexivity.
Qed.

Lemma digits_stripped (m : Token) : allBase36 m = true -> strip m = m.
Proof.
  induction m as [|c m IH]; cbn [strip allBase36]; [reflexivity|].
  intros H. apply andb_prop in H as [H1 H2].
  destruct (Ascii.eqb_spec c "'") as [->|Hc]; [discriminate H1|].
  rewrite (IH H2). reflexivity.
Qed.

Lemma member_wellShaped (m : Token) :
  negb (String.eqb m "") = true -> allBase36 (strip m) = true -> wellShaped m = true.
Proof.
  intros Hne Hall. unfold wellShaped, wordToken.
  destruct m as [|c m]; [discriminate Hne|].
  rewrite (stripped_digits_word _ Hall). reflexivity.
Qed.

Lemma member_not_bracket (m : Token) : allBase36 (strip m) = true -> m <> "]".
Proof. intros H ->. discriminate H. Qed.

Lemma membersOk_stripped (n : nat) :
  forall (isBrush : bool) (ms : list Token),
    (List.length ms <= n)%nat -> membersOk isBrush ms = true ->
    Forall (fun m => allBase36 (strip m) = true) ms.
Proof.
  induction n as [|n IH]; intros isBrush ms Hlen Hok.
  - destruct ms; [constructor | cbn in Hlen; lia].
  - destruct ms as [|m0 rest0]; [constructor|].
    cbn [membersOk] in Hok. destruct isBrush.
    + destruct rest0 as [|m1 rest1]; [discriminate Hok|].
      apply andb_prop in Hok as [Hok Hrest]. apply andb_prop in Hok as [Hd Hp].
      unfold diameterDigits in Hd. apply andb_prop in Hd as [Hd _].
      unfold pointData in Hp. apply andb_prop in Hp as [Hp _].
      constructor; [rewrite (digits_stripped _ Hd); exact Hd|].
      constructor; [exact Hp|].
      apply (IH true); [cbn [List.length] in Hlen; lia | exact Hrest].
    + apply andb_prop in Hok as [Hp Hrest].
      unfold pointData in Hp. apply andb_prop in Hp as [Hp _].
      constructor; [exact Hp|].
      apply (IH false); [cbn [List.length] in Hlen; lia | exact Hrest].
Qed.

Lemma bracketed_wellShaped (name : string) (ms : list Token) :
  In name ["Data"; "Pencil"; "Brush"] ->
  forallb (fun m => negb (String.eqb m "")) ms = true ->
  Forall (fun m => allBase36 (strip m) = true) ms ->
  forallb wellShaped (bracketedElement name ms) = true.
Proof.
  intros Hname Hne Hall. unfold bracketedElement. cbn [forallb].
  assert (Hn : wellShaped name = true).
  { cbn in Hname. destruct Hname as [<-|[<-|[<-|[]]]]; reflexivity. }
  rewrite Hn. change (wellShaped ":") with true. change (wellShaped "[") with true.
  cbn [andb]. rewrite forallb_app. cbn [forallb].
  change (wellShaped "]") with true. rewrite !andb_true_r.
  apply forallb_forall. intros m Hin.
  rewrite forallb_forall in Hne. rewrite Forall_forall in Hall.
  apply member_wellShaped; auto.
Qed.

(** From the text to the sketch, for one statement of strokes: the text
    [name : [ m1 ... mn ]] written with blanks, where the members are point
    data (each after a diameter for a brush), is tokenized and parsed to
    the sketch of these strokes, with one element holding them when the
    name is a grouping keyword. *)
Theorem stroke_statement_round_trip (name : string) (ms : list Token) :
  In name ["Data"; "Pencil"; "Brush"] ->
  membersOk (String.eqb name "Brush") ms = true ->
  forallb (fun m => negb (String.eqb m "")) ms = true ->
  parse elementTypeFromString pow (tokenize (render (bracketedElement name ms)))
  = Ret (Some (singleStatement (elementTypeFromString name)
                               (strokesOf (String.eqb name "Brush") ms))).
Proof.
  intros Hname Hok Hne.
  pose proof (membersOk_stripped (List.length ms) _ ms (le_n _) Hok) as Hall.
  rewrite render_tokens.
  2:{ apply bracketed_wellShaped; assumption. }
  2:{ cbn in Hname. destruct Hname as [<-|[<-|[<-|[]]]]; reflexivity. }
  assert (Hpe : parseElement (bracketedElement name ms) 0
                = Some ({| type := name; members := ms |},
                        List.length (bracketedElement name ms))).
  { pose proof (parseElement_bracketed [] ms [] name) as Hp.
    cbn [app List.length Nat.add] in Hp. rewrite app_nil_r in Hp. rewrite Hp.
    - unfold bracketedElement. cbn [List.length]. rewrite length_app. cbn [List.length].
      do 2 f_equal. lia.
    - cbn in Hname. cbn. destruct Hname as [<-|[<-|[<-|[]]]]; auto.
    - eapply Forall_impl; [|exact Hall]. intros m Hm. apply member_not_bracket, Hm.
    - apply arityOk_not_affine, Hname. }
  apply (parse_single (bracketedElement name ms) {| type := name; members := ms |}).
  - unfold bracketedElement. cbn [List.length]. lia.
  - cbn in Hname. destruct Hname as [<-|[<-|[<-|[]]]]; reflexivity.
  - cbn in Hname. destruct Hname as [<-|[<-|[<-|[]]]]; reflexivity.
  - exact Hpe.
  - unfold mainElement. cbn [type members].
    assert (Hany : isAnyOf name ["Data"; "Pencil"; "Brush"] = true)
      by (cbn in Hname; destruct Hname as [<-|[<-|[<-|[]]]]; reflexivity).
    rewrite Hany. apply (strokes_loop_ok (List.length ms) _ ms [] (le_n _) Hok).
Qed.

(** From the text to the sketch, for a marker: the text
    [Marker : (message)], whatever the message holds between balanced
    parentheses (blanks, operators, newlines), is tokenized and parsed to
    the sketch of one marker with that message. *)
Theorem marker_statement_round_trip (s : string) :
  closes 0 (s ++ ")") = true ->
  parse elementTypeFromString pow (tokenize (render ["Marker"; ":"; ("(" ++ s ++ ")")%string]))
  = Ret (Some (singleStatement (elementTypeFromString "Marker")
                               [AMarker {| message := s |}])).
Proof.
  intros Hcl.
  rewrite render_tokens.
  2:{ cbn [forallb]. change (wellShaped "Marker") with true.
      change (wellShaped ":") with true. cbn [andb]. rewrite andb_true_r.
      unfold wellShaped. cbn [append wordToken opToken stringToken].
      change (Ascii.eqb "(" "(") with true. cbn [andb]. rewrite Hcl.
      rewrite !orb_true_r. reflexivity. }
  2:{ reflexivity. }
  apply (parse_single ["Marker"; ":"; ("(" ++ s ++ ")")%string]
           {| type := "Marker"; members := [("(" ++ s ++ ")")%string] |}).
  - cbn. lia.
  - reflexivity.
  - reflexivity.
  - reflexivity.
  - apply mainElement_marker.
Qed.

End Pipeline.

Section PipelineInstances.
Import ParserBase SketchFormat.

Lemma stroke_statement_round_trip_witness :
  In "Brush" ["Data"; "Pencil"; "Brush"] /\
  membersOk (String.eqb "Brush" "Brush") ["0A"; "000'001'0A"; "1"; "ZZZZZZZZ00000000"] = true /\
  forallb (fun m => negb (String.eqb m "")) ["0A"; "000'001'0A"; "1"; "ZZZZZZZZ00000000"] = true /\
  Sample.parse (tokenize (render (bracketedElement "Brush"
                                    ["0A"; "000'001'0A"; "1"; "ZZZZZZZZ00000000"])))
  = Ret (Some (singleStatement (Sample.elementTypeFromString "Brush")
                 (strokesOf (String.eqb "Brush" "Brush")
                            ["0A"; "000'001'0A"; "1"; "ZZZZZZZZ00000000"]))).
Proof.
  split; [right; right; left; reflexivity|]. split; [reflexivity|]. split; [reflexivity|].
  apply (stroke_statement_round_trip _ Sample.elementTypeFromString Sample.pow "Brush"
           ["0A"; "000'001'0A"; "1"; "ZZZZZZZZ00000000"]);
    [right; right; left; reflexivity | reflexivity | reflexivity].
Defined.

Lemma marker_statement_round_trip_witness :
  closes 0 ("see (fig. 2): [a, b]" ++ ")") = true /\
  Sample.parse (tokenize (render ["Marker"; ":"; ("(" ++ "see (fig. 2): [a, b]" ++ ")")%string]))
  = Ret (Some (singleStatement (Sample.elementTypeFromString "Marker")
                 [AMarker {| message := "see (fig. 2): [a, b]" |}])).
Proof.
  split; [reflexivity|].
  apply (marker_statement_round_trip _ Sample.elementTypeFromString Sample.pow
           "see (fig. 2): [a, b]").
  reflexivity.
Defined.

End PipelineInstances.
